(** * BattlEye RCon client: packet codec and connection state machine

    A shallow embedding of the [Packet] class with its [serialize] and
    [FROM] codec (src/lib/packet.ts), of the [Connection] class (sequence
    allocation, pending-request table, multipart reassembly, timeout
    scheduler, teardown; in the sources it follows the error classes in
    src/lib/errors.ts, from line 182 on) and of the two methods of the
    [Socket] class that a connection goes through, [send] and [receive]
    (same file, from line 723 on). The earlier [Connection] of
    src/connection.ts is in the module [Legacy], as far as it differs.

    Conventions
    - a Node [Buffer] is a [list byte];
    - a JavaScript string is the list of its UTF-16 code units;
    - a JavaScript number that the code uses as an integer is a [Z];
    - an attribute that may be [undefined] is an [option];
    - a method that may throw returns a [Result];
    - a method of [Connection] is a computation in the monad [M], which
      threads the connection object and can throw;
    - what is outside the sources is a parameter or a part of the state:
      [crc32] of the missing module, the outcome that the UDP socket reports
      for a send, the intervals that Node keeps running, and the reactions
      of promises, which Node runs once the current callback is over. *)

From Stdlib Require Import ZArith NArith Lia Ascii String.
From Stdlib.Strings Require Import Byte.
From stdpp Require Import base tactics option list list_numbers numbers strings gmap.

Local Open Scope Z_scope.

(** ** Errors (src/lib/errors.ts) and results *)

Abbreviation jsstring := (list N).

Inductive Error : Type :=
| NoConnection
| NoPassword
| NoCommand
| ConnectionExists
| UnknownConnection
| MaxRetries
| UnknownCommand (cmd : option jsstring)
| UnknownPacketType (type : Z)
| ServerTimeout
| ServerDisconnect
| InvalidPassword
| InvalidPacket
| InvalidSequence (sequence : Z)
| PacketError (message : string)
| PacketOverflow
| RangeError      (* Node: ERR_OUT_OF_RANGE, ERR_BUFFER_OUT_OF_BOUNDS *)
| TypeError       (* reading a property of undefined *)
| SystemError (code : string). (* Node: a failed system call, as EMSGSIZE *)

#[global] Instance Error_eq_dec : EqDecision Error.
Proof. solve_decision. Defined.

Inductive Result (A : Type) : Type :=
| Ok (a : A)
| Throw (e : Error).
Arguments Ok {A} a.
Arguments Throw {A} e.

Definition bindR {A B} (r : Result A) (k : A -> Result B) : Result B :=
  match r with
  | Ok a => k a
  | Throw e => Throw e
  end.

#[global] Instance Result_bind : MBind Result := fun A B k r => bindR r k.
#[global] Instance Result_ret : MRet Result := fun A a => Ok a.

(** ** Buffers *)

Abbreviation Buffer := (list byte).

#[global] Instance byte_eq_dec : EqDecision byte := Byte.byte_eq_dec.

Definition byte_to_Z (b : byte) : Z := Z.of_N (Byte.to_N b).

Definition byte_of_N (n : N) : byte :=
  match Byte.of_N (n mod 256)%N with
  | Some b => b
  | None => x00
  end.

Definition byte_of_Z (z : Z) : byte := byte_of_N (Z.to_N (z mod 256)).

(** [Buffer.alloc(n)]: [n] zero bytes. *)
Definition Buffer_alloc (n : Z) : Buffer := replicate (Z.to_nat n) x00.

(** [buf.slice(start, end)] for [0 <= start] (and any [end]). *)
Definition slice (buf : Buffer) (start stop : Z) : Buffer :=
  take (Z.to_nat stop - Z.to_nat start)%nat (drop (Z.to_nat start) buf).

Definition Buffer_length (buf : Buffer) : Z := Z.of_nat (length buf).

(** [buf.readUInt8(offset)]: out of range offsets throw. *)
Definition readUInt8 (buf : Buffer) (offset : Z) : Result Z :=
  if (0 <=? offset) && (offset <? Buffer_length buf) then
    match buf !! Z.to_nat offset with
    | Some b => Ok (byte_to_Z b)
    | None => Throw RangeError
    end
  else Throw RangeError.

(** [buf.writeUInt8(value, offset)]: the value must be within 0..255. *)
Definition writeUInt8 (buf : Buffer) (value offset : Z) : Result Buffer :=
  if (0 <=? offset) && (offset <? Buffer_length buf) then
    if (0 <=? value) && (value <=? 255) then
      Ok (<[Z.to_nat offset := byte_of_Z value]> buf)
    else Throw RangeError
  else Throw RangeError.

(** The signed reading of a 32-bit pattern. *)
Definition to_int32 (w : Z) : Z :=
  if w <? 2 ^ 31 then w else w - 2 ^ 32.

Definition word_of_bytes (b3 b2 b1 b0 : byte) : Z :=
  byte_to_Z b3 * 2 ^ 24 + byte_to_Z b2 * 2 ^ 16 + byte_to_Z b1 * 2 ^ 8 + byte_to_Z b0.

(** [buf.readInt32BE(offset)] *)
Definition readInt32BE (buf : Buffer) (offset : Z) : Result Z :=
  if (0 <=? offset) && (offset + 4 <=? Buffer_length buf) then
    match drop (Z.to_nat offset) buf with
    | b3 :: b2 :: b1 :: b0 :: _ => Ok (to_int32 (word_of_bytes b3 b2 b1 b0))
    | _ => Throw RangeError
    end
  else Throw RangeError.

(** [buf.readInt32LE(offset)] *)
Definition readInt32LE (buf : Buffer) (offset : Z) : Result Z :=
  if (0 <=? offset) && (offset + 4 <=? Buffer_length buf) then
    match drop (Z.to_nat offset) buf with
    | b0 :: b1 :: b2 :: b3 :: _ => Ok (to_int32 (word_of_bytes b3 b2 b1 b0))
    | _ => Throw RangeError
    end
  else Throw RangeError.

(** The four bytes, most significant first, of a signed 32-bit value. *)
Definition int32_bytes_BE (value : Z) : Buffer :=
  let w := value mod 2 ^ 32 in
  [byte_of_Z (w / 2 ^ 24); byte_of_Z (w / 2 ^ 16); byte_of_Z (w / 2 ^ 8); byte_of_Z w].

(** Overwrite [buf] from [offset] on with [bytes] (which must fit). *)
Definition blit (buf : Buffer) (offset : nat) (bytes : Buffer) : Buffer :=
  take offset buf ++ bytes ++ drop (offset + length bytes) buf.

(** [buf.writeInt32BE(value, offset)] *)
Definition writeInt32BE (buf : Buffer) (value offset : Z) : Result Buffer :=
  if (0 <=? offset) && (offset + 4 <=? Buffer_length buf) then
    if (- 2 ^ 31 <=? value) && (value <? 2 ^ 31) then
      Ok (blit buf (Z.to_nat offset) (int32_bytes_BE value))
    else Throw RangeError
  else Throw RangeError.

(** ** Strings and UTF-8

    [string.length] counts UTF-16 code units; [buf.write(string, offset)]
    stores the UTF-8 encoding, whole characters only, as far as the buffer
    has room; [buf.toString()] decodes UTF-8 and replaces every ill-formed
    subsequence by U+FFFD. *)

Definition str_length (s : jsstring) : Z := Z.of_nat (length s).

(** A literal: the code units of an ASCII text. *)
Definition lit (s : string) : jsstring :=
  map (fun a => N_of_ascii a) (list_ascii_of_string s).

Definition is_high_surrogate (u : N) : bool := ((0xD800 <=? u) && (u <=? 0xDBFF))%N.
Definition is_low_surrogate (u : N) : bool := ((0xDC00 <=? u) && (u <=? 0xDFFF))%N.

Definition utf8_replacement : Buffer := [xef; xbf; xbd].

(** The UTF-8 bytes of one code point. *)
Definition utf8_code_point (c : N) : Buffer :=
  (if c <? 0x80 then [byte_of_N c]
   else if c <? 0x800 then
     [byte_of_N (N.lor 0xC0 (N.shiftr c 6));
      byte_of_N (N.lor 0x80 (N.land c 0x3F))]
   else if c <? 0x10000 then
     [byte_of_N (N.lor 0xE0 (N.shiftr c 12));
      byte_of_N (N.lor 0x80 (N.land (N.shiftr c 6) 0x3F));
      byte_of_N (N.lor 0x80 (N.land c 0x3F))]
   else
     [byte_of_N (N.lor 0xF0 (N.shiftr c 18));
      byte_of_N (N.lor 0x80 (N.land (N.shiftr c 12) 0x3F));
      byte_of_N (N.lor 0x80 (N.land (N.shiftr c 6) 0x3F));
      byte_of_N (N.lor 0x80 (N.land c 0x3F))])%N.

(** The encoded characters of a string, one byte group per character; a
    surrogate pair is one character, a lone surrogate becomes U+FFFD. *)
Fixpoint utf8_chars (s : jsstring) : list Buffer :=
  match s with
  | [] => []
  | u :: s' =>
    if is_high_surrogate u then
      match s' with
      | v :: s'' =>
        if is_low_surrogate v then
          utf8_code_point (0x10000 + N.shiftl (u - 0xD800) 10 + (v - 0xDC00))%N
            :: utf8_chars s''
        else utf8_replacement :: utf8_chars s'
      | [] => [utf8_replacement]
      end
    else if is_low_surrogate u then utf8_replacement :: utf8_chars s'
    else utf8_code_point u :: utf8_chars s'
  end.

(** As many whole characters as fit into [room] bytes. *)
Fixpoint utf8_fit (chars : list Buffer) (room : nat) : Buffer :=
  match chars with
  | [] => []
  | c :: chars' =>
    if (length c <=? room)%nat then c ++ utf8_fit chars' (room - length c)
    else []
  end.

(** [buf.write(string, offset)] *)
Definition Buffer_write (buf : Buffer) (s : jsstring) (offset : Z) : Result Buffer :=
  if (0 <=? offset) && (offset <=? Buffer_length buf) then
    Ok (blit buf (Z.to_nat offset)
          (utf8_fit (utf8_chars s) (length buf - Z.to_nat offset)))
  else Throw RangeError.

(** The UTF-8 decoder, as a state machine over the bytes: the code point
    under construction, the continuation bytes still needed, and the range
    allowed for the next byte. *)
Record utf8_state : Type := {
  code_point : N;
  bytes_needed : nat;
  lower_boundary : N;
  upper_boundary : N;
}.

Definition utf8_init : utf8_state :=
  {| code_point := 0; bytes_needed := 0; lower_boundary := 0x80; upper_boundary := 0xBF |}.

(** The UTF-16 code units of a code point. *)
Definition utf16_units (c : N) : jsstring :=
  (if c <? 0x10000 then [c]
   else [0xD800 + N.shiftr (c - 0x10000) 10; 0xDC00 + N.land (c - 0x10000) 0x3FF])%N.

Definition utf8_lead (b : N) : utf8_state * jsstring :=
  (if b <? 0x80 then (utf8_init, [b])
   else if (0xC2 <=? b) && (b <=? 0xDF) then
     ({| code_point := N.land b 0x1F; bytes_needed := 1;
         lower_boundary := 0x80; upper_boundary := 0xBF |}, [])
   else if (0xE0 <=? b) && (b <=? 0xEF) then
     ({| code_point := N.land b 0xF; bytes_needed := 2;
         lower_boundary := if b =? 0xE0 then 0xA0 else 0x80;
         upper_boundary := if b =? 0xED then 0x9F else 0xBF |}, [])
   else if (0xF0 <=? b) && (b <=? 0xF4) then
     ({| code_point := N.land b 0x7; bytes_needed := 3;
         lower_boundary := if b =? 0xF0 then 0x90 else 0x80;
         upper_boundary := if b =? 0xF4 then 0x8F else 0xBF |}, [])
   else (utf8_init, [0xFFFD]))%N.

Definition utf8_step (st : utf8_state) (b : N) : utf8_state * jsstring :=
  match bytes_needed st with
  | O => utf8_lead b
  | S n =>
    if ((lower_boundary st <=? b) && (b <=? upper_boundary st))%N then
      let c := N.lor (N.shiftl (code_point st) 6) (N.land b 0x3F) in
      match n with
      | O => (utf8_init, utf16_units c)
      | S _ => ({| code_point := c; bytes_needed := n;
                   lower_boundary := 0x80; upper_boundary := 0xBF |}, [])
      end
    else
      let '(st', out) := utf8_lead b in (st', 0xFFFD%N :: out)
  end.

Fixpoint utf8_decode (st : utf8_state) (bytes : Buffer) : jsstring :=
  match bytes with
  | [] => match bytes_needed st with O => [] | S _ => [0xFFFD%N] end
  | b :: bytes' =>
    let '(st', out) := utf8_step st (Byte.to_N b) in
    out ++ utf8_decode st' bytes'
  end.

(** [buf.toString()] *)
Definition Buffer_toString (buf : Buffer) : jsstring := utf8_decode utf8_init buf.

(** ** CRC-32 *)

Definition crc32_shift (crc : N) : N :=
  if N.testbit crc 0 then N.lxor (N.shiftr crc 1) 0xEDB88320 else N.shiftr crc 1.

Definition crc32_update (crc : N) (b : byte) : N :=
  Nat.iter 8 crc32_shift (N.lxor crc (Byte.to_N b)).

Definition crc32_value (payload : Buffer) : N :=
  N.lxor (fold_left crc32_update payload 0xFFFFFFFF%N) 0xFFFFFFFF.

(** Modelled from the spec: [crc32] of ./crc32, which [packet.ts] imports,
    is missing; the spec has it "compute IEEE CRC-32 of a byte slice
    (little-endian result)", and the codec reads the result with
    [readInt32LE(0)], so the result is a four-byte buffer, least
    significant byte first. *)
Definition crc32_ieee (payload : Buffer) : Buffer :=
  let c := crc32_value payload in
  [byte_of_N c; byte_of_N (N.shiftr c 8); byte_of_N (N.shiftr c 16); byte_of_N (N.shiftr c 24)].

(** ** Packets (src/lib/packet.ts) *)

Inductive PacketType : Type := Login | Command | Message.

Inductive PacketDirection : Type := Request | Reply | Split.

Definition PacketType_value (t : PacketType) : Z :=
  match t with Login => 0 | Command => 1 | Message => 2 end.

Definition PacketDirection_value (d : PacketDirection) : Z :=
  match d with Request => 0 | Reply => 1 | Split => 2 end.

#[global] Instance PacketType_eq_dec : EqDecision PacketType.
Proof. solve_decision. Defined.
#[global] Instance PacketDirection_eq_dec : EqDecision PacketDirection.
Proof. solve_decision. Defined.

(** [IPacketAttributes]: every attribute is optional. *)
Record IPacketAttributes : Type := {
  timestamp : option Z;
  sent : option Z;
  sequence : option Z;
  total : option Z;
  index : option Z;
  data : option jsstring;
  password : option jsstring;
  command : option jsstring;
  message : option jsstring;
  login : option bool;
  part : option Buffer;
  error : option Error;
}.

#[global] Instance IPacketAttributes_eq_dec : EqDecision IPacketAttributes.
Proof. solve_decision. Defined.

(** The attribute bag [{}]. *)
Definition no_attributes : IPacketAttributes :=
  {| timestamp := None; sent := None; sequence := None; total := None;
     index := None; data := None; password := None; command := None;
     message := None; login := None; part := None; error := None |}.

Definition set_sent (v : Z) (a : IPacketAttributes) : IPacketAttributes :=
  {| timestamp := timestamp a; sent := Some v; sequence := sequence a; total := total a;
     index := index a; data := data a; password := password a; command := command a;
     message := message a; login := login a; part := part a; error := error a |}.

Definition set_sequence (v : Z) (a : IPacketAttributes) : IPacketAttributes :=
  {| timestamp := timestamp a; sent := sent a; sequence := Some v; total := total a;
     index := index a; data := data a; password := password a; command := command a;
     message := message a; login := login a; part := part a; error := error a |}.

Record Packet : Type := {
  type : PacketType;
  direction : PacketDirection;
  attributes : IPacketAttributes;
}.

#[global] Instance Packet_eq_dec : EqDecision Packet.
Proof. solve_decision. Defined.

(** [new Packet(type, direction, attributes)]. The constructor calls
    [this.clear()], which stores a fresh [timestamp] (and [sent = 0] for a
    Request), and then replaces the whole bag by a copy of [attributes]:
    what [clear] stored is gone, and the packet has exactly the attributes
    that were passed in. *)
Definition new_Packet (t : PacketType) (d : PacketDirection) (a : IPacketAttributes) : Packet :=
  {| type := t; direction := d; attributes := a |}.

(** [get sent()]: the attribute when it is a number, else 0. *)
Definition Packet_sent (p : Packet) : Z := default 0 (sent (attributes p)).

(** [get sequence()]: the attribute when it is a number, else -1. *)
Definition Packet_sequence (p : Packet) : Z := default (-1) (sequence (attributes p)).

(** [set sequence(sequence)] *)
Definition Packet_set_sequence (p : Packet) (s : Z) : Result Packet :=
  if (s <? 0) || (255 <? s) then Throw (InvalidSequence s)
  else Ok {| type := type p; direction := direction p;
             attributes := set_sequence s (attributes p) |}.

Section Codec.

(** [crc32] of [lib/crc32.ts]: from a buffer to a buffer. *)
Variable crc32 : Buffer -> Buffer.

(** [Packet.prototype.serialize]; the result is the buffer together with
    the packet as the call leaves it ([sent] counted up). [valid] holds of
    every packet of this type, and the [default:] arm of the switch is out
    of reach, because [type] and [direction] are members of their enums. *)
Definition serialize (this : Packet) : Result (Buffer * Packet) :=
  payload ←
    match type this with
    | Login =>
      match password (attributes this) with
      | None => Throw NoPassword
      | Some password =>
        let payload := Buffer_alloc (str_length password + 2) in
        payload ← writeUInt8 payload 0xFF 0;
        payload ← writeUInt8 payload (PacketType_value (type this)) 1;
        Buffer_write payload password 2
      end
    | Command =>
      match command (attributes this) with
      | None => Throw NoCommand
      | Some cmd =>
        let payload := Buffer_alloc (str_length cmd + 3) in
        payload ← writeUInt8 payload 0xFF 0;
        payload ← writeUInt8 payload (PacketType_value (type this)) 1;
        payload ← writeUInt8 payload (Packet_sequence this) 2;
        Buffer_write payload cmd 3
      end
    | Message =>
      let payload := Buffer_alloc 3 in
      payload ← writeUInt8 payload 0xFF 0;
      payload ← writeUInt8 payload (PacketType_value (type this)) 1;
      writeUInt8 payload (Packet_sequence this) 2
    end;
  let crc := crc32 payload in
  let header := [x42; x45; x00; x00; x00; x00] in
  word ← readInt32LE crc 0;
  header ← writeInt32BE header word 2;
  let sent' :=
    match sent (attributes this) with
    | Some n => if n =? 0 then 1 else n + 1
    | None => 1
    end in
  Ok (header ++ payload,
      {| type := type this; direction := direction this;
         attributes := set_sent sent' (attributes this) |}).

(** The second half of [Packet.FROM], from the 0xFF flag on, on the
    payload [buffer.slice(6, length)]. *)
Definition FROM_payload (payload : Buffer) : Result Packet :=
  flag ← readUInt8 payload 0;
  if bool_decide (flag ≠ 0xFF) then
    Throw (PacketError "Packet missing 0xFF flag after checksum.") else
  type ← readUInt8 payload 1;
  if type =? 0 then
    l ← readUInt8 payload 2;
    Ok (new_Packet Login Reply
          {| timestamp := None; sent := None; sequence := None; total := None;
             index := None; data := None; password := None; command := None;
             message := None; login := Some (l =? 1); part := None; error := None |})
  else if type =? 1 then
    s ← readUInt8 payload 2;
    multipart ←
      (if 4 <? Buffer_length payload then b ← readUInt8 payload 3; Ok (b =? 0)
       else Ok false);
    if (multipart : bool) then
      t ← readUInt8 payload 4;
      i ← readUInt8 payload 5;
      Ok (new_Packet Command Split
            {| timestamp := None; sent := None; sequence := Some s; total := Some t;
               index := Some i; data := None; password := None; command := None;
               message := None; login := None;
               part := Some (slice payload 6 (Buffer_length payload)); error := None |})
    else
      Ok (new_Packet Command Reply
            {| timestamp := None; sent := None; sequence := Some s; total := None;
               index := None;
               data := Some (Buffer_toString (slice payload 3 (Buffer_length payload)));
               password := None; command := None;
               message := None; login := None; part := None; error := None |})
  else if type =? 2 then
    s ← readUInt8 payload 2;
    Ok (new_Packet Message Reply
          {| timestamp := None; sent := None; sequence := Some s; total := None;
             index := None; data := None; password := None; command := None;
             message := Some (Buffer_toString (slice payload 3 (Buffer_length payload)));
             login := None; part := None; error := None |})
  else Throw (UnknownPacketType type).

(** [Packet.FROM(buffer)] *)
Definition FROM (buffer : Buffer) : Result Packet :=
  let length := Buffer_length buffer in
  if length <? 9 then Throw (PacketError "Packet must contain at least 9 bytes") else
  let header := Buffer_toString (slice buffer 0 2) in
  if bool_decide (header ≠ lit "BE") then Throw (PacketError "Invalid header text") else
  let payload := slice buffer 6 length in
  checksum ← readInt32BE buffer 2;
  crc ← readInt32LE (crc32 payload) 0;
  if bool_decide (checksum ≠ crc) then
    Throw (PacketError "Packet checksum verification failed.") else
  FROM_payload payload.

End Codec.

(** ** JavaScript arrays

    An array is a map from keys to values together with its [length];
    assigning at an index at or past the end extends it, the slots in
    between stay empty, and [for ... of] visits the indices 0 .. length-1,
    yielding [undefined] ([None]) for an empty slot. A key below zero is an
    ordinary property: it can be written and read, and iteration does not
    see it. *)

Record JsArray (A : Type) : Type := {
  elements : gmap Z A;
  arr_length : Z;
}.
Arguments elements {A} _.
Arguments arr_length {A} _.

(** [new Array(n)] for a length [n >= 0], and [[]]. *)
Definition new_Array {A} (n : Z) : JsArray A := {| elements := ∅; arr_length := n |}.

(** [arr[i]] *)
Definition js_get {A} (arr : JsArray A) (i : Z) : option A := elements arr !! i.

Definition js_extend (len i : Z) : Z :=
  if (0 <=? i) && (len <=? i) then i + 1 else len.

(** [arr[i] = v] *)
Definition js_set {A} (arr : JsArray A) (i : Z) (v : A) : JsArray A :=
  {| elements := <[i := v]> (elements arr); arr_length := js_extend (arr_length arr) i |}.

(** [arr[i] = undefined] *)
Definition js_clear {A} (arr : JsArray A) (i : Z) : JsArray A :=
  {| elements := delete i (elements arr); arr_length := js_extend (arr_length arr) i |}.

(** The values [for (const x of arr)] goes through. *)
Definition js_values {A} (arr : JsArray A) : list (option A) :=
  (λ i, elements arr !! i) <$> seqZ 0 (arr_length arr).

(** ** The connection *)

(** [IOptions] *)
Record IOptions : Type := {
  reconnect : bool;
  reconnectTimeout : Z;
  keepAlive : bool;
  keepAliveInterval : Z;
  timeout : bool;
  timeoutInterval : Z;
  serverTimeout : Z;
  packetTimeout : Z;
  packetTimeoutThresholded : Z;
}.

(** The defaults of the constructor. *)
Definition default_options : IOptions :=
  {| reconnect := true; reconnectTimeout := 500; keepAlive := true;
     keepAliveInterval := 15000; timeout := true; timeoutInterval := 1000;
     serverTimeout := 30000; packetTimeout := 1000; packetTimeoutThresholded := 5 |}.

(** [IPacketResponse] (without the back reference to the connection). *)
Record IPacketResponse : Type := {
  response_command : option jsstring;
  response_data : option jsstring;
  response_connected : option bool;
  response_bytes : Z;
  response_sent : Packet;
  response_received : option Packet;
}.

(** [IPacketPromise]: [promise] names the promise whose [resolve] and
    [reject] callbacks the entry carries. *)
Record IPacketPromise : Type := {
  bytes : Z;
  packet : Packet;
  promise : nat;
}.

#[global] Instance IPacketPromise_eq_dec : EqDecision IPacketPromise.
Proof. solve_decision. Defined.

(** What a run of the connection does to the outside: promises settled,
    events emitted, datagrams that the UDP socket has sent (the [sent] event
    of the socket), a reconnect timer armed. Calling [resolve] or [reject]
    of a promise that is already settled is recorded like any other call.
    The value of an [error] event may be [undefined]; a listener for
    [error] is taken to be registered, as [emit] throws without one. *)
Inductive Event : Type :=
| Resolved (promise : nat) (value : IPacketResponse)
| Rejected (promise : nat) (reason : option Error)
| Emit_message (message : option jsstring) (packet : Packet)
| Emit_command (data : option jsstring) (resolved : bool) (packet : Packet)
| Emit_connected
| Emit_disconnected (reason : Error)
| Emit_error (e : option Error)
| Emit_received (packet : Packet) (buffer : Buffer)
| Emit_debug
| Transmitted (packet : Packet) (buffer : Buffer)
| Reconnect_armed.

(** The two callbacks that [setup] hands to [setInterval]. *)
Inductive Scheduler : Type := KeepAlive_scheduler | Timeout_scheduler.

#[global] Instance Scheduler_eq_dec : EqDecision Scheduler.
Proof. solve_decision. Defined.

(** The connection object, and what Node holds for it:
    - [keepAlive_timer] and [timeout_timer] are the fields [this.keepAlive]
      and [this.timeout], the handle of an interval or [undefined];
    - [intervals] are the intervals of this connection that are running, by
      handle, and [handles] counts the handles given out;
    - [promises] counts the promises that [Socket.send] has made, which
      numbers them;
    - [pings] are the promises of the keep-alive callback that are not
      settled: the ones with its [then] and [catch] handlers on them;
    - [microtasks] is what these handlers, and the [catch] handlers of the
      other sends, emit once the current callback is over;
    - [events] is what has happened so far. *)
Record Connection : Type := {
  socket_listening : bool;
  options : IOptions;
  info_password : jsstring;
  info_sequence : Z;
  info_connected : option bool;
  info_lastPacket : option Packet;
  keepAlive_timer : option nat;
  timeout_timer : option nat;
  packets : JsArray IPacketPromise;
  multipart : JsArray (JsArray Packet);
  promises : nat;
  events : list Event;
  handles : nat;
  intervals : gmap nat Scheduler;
  pings : gset nat;
  microtasks : list Event;
}.

Definition with_sequence (v : Z) (c : Connection) : Connection :=
  {| socket_listening := socket_listening c; options := options c;
     info_password := info_password c; info_sequence := v;
     info_connected := info_connected c; info_lastPacket := info_lastPacket c;
     keepAlive_timer := keepAlive_timer c; timeout_timer := timeout_timer c;
     packets := packets c; multipart := multipart c;
     promises := promises c; events := events c;
     handles := handles c; intervals := intervals c; pings := pings c;
     microtasks := microtasks c |}.

Definition with_connected (v : option bool) (c : Connection) : Connection :=
  {| socket_listening := socket_listening c; options := options c;
     info_password := info_password c; info_sequence := info_sequence c;
     info_connected := v; info_lastPacket := info_lastPacket c;
     keepAlive_timer := keepAlive_timer c; timeout_timer := timeout_timer c;
     packets := packets c; multipart := multipart c;
     promises := promises c; events := events c;
     handles := handles c; intervals := intervals c; pings := pings c;
     microtasks := microtasks c |}.

Definition with_lastPacket (v : option Packet) (c : Connection) : Connection :=
  {| socket_listening := socket_listening c; options := options c;
     info_password := info_password c; info_sequence := info_sequence c;
     info_connected := info_connected c; info_lastPacket := v;
     keepAlive_timer := keepAlive_timer c; timeout_timer := timeout_timer c;
     packets := packets c; multipart := multipart c;
     promises := promises c; events := events c;
     handles := handles c; intervals := intervals c; pings := pings c;
     microtasks := microtasks c |}.

Definition with_keepAlive_timer (v : option nat) (c : Connection) : Connection :=
  {| socket_listening := socket_listening c; options := options c;
     info_password := info_password c; info_sequence := info_sequence c;
     info_connected := info_connected c; info_lastPacket := info_lastPacket c;
     keepAlive_timer := v; timeout_timer := timeout_timer c;
     packets := packets c; multipart := multipart c;
     promises := promises c; events := events c;
     handles := handles c; intervals := intervals c; pings := pings c;
     microtasks := microtasks c |}.

Definition with_timeout_timer (v : option nat) (c : Connection) : Connection :=
  {| socket_listening := socket_listening c; options := options c;
     info_password := info_password c; info_sequence := info_sequence c;
     info_connected := info_connected c; info_lastPacket := info_lastPacket c;
     keepAlive_timer := keepAlive_timer c; timeout_timer := v;
     packets := packets c; multipart := multipart c;
     promises := promises c; events := events c;
     handles := handles c; intervals := intervals c; pings := pings c;
     microtasks := microtasks c |}.

Definition with_intervals (n : nat) (v : gmap nat Scheduler) (c : Connection) : Connection :=
  {| socket_listening := socket_listening c; options := options c;
     info_password := info_password c; info_sequence := info_sequence c;
     info_connected := info_connected c; info_lastPacket := info_lastPacket c;
     keepAlive_timer := keepAlive_timer c; timeout_timer := timeout_timer c;
     packets := packets c; multipart := multipart c;
     promises := promises c; events := events c;
     handles := n; intervals := v; pings := pings c;
     microtasks := microtasks c |}.

Definition with_pings (v : gset nat) (c : Connection) : Connection :=
  {| socket_listening := socket_listening c; options := options c;
     info_password := info_password c; info_sequence := info_sequence c;
     info_connected := info_connected c; info_lastPacket := info_lastPacket c;
     keepAlive_timer := keepAlive_timer c; timeout_timer := timeout_timer c;
     packets := packets c; multipart := multipart c;
     promises := promises c; events := events c;
     handles := handles c; intervals := intervals c; pings := v;
     microtasks := microtasks c |}.

Definition with_microtask (e : Event) (c : Connection) : Connection :=
  {| socket_listening := socket_listening c; options := options c;
     info_password := info_password c; info_sequence := info_sequence c;
     info_connected := info_connected c; info_lastPacket := info_lastPacket c;
     keepAlive_timer := keepAlive_timer c; timeout_timer := timeout_timer c;
     packets := packets c; multipart := multipart c;
     promises := promises c; events := events c;
     handles := handles c; intervals := intervals c; pings := pings c;
     microtasks := microtasks c ++ [e] |}.

(** The microtasks run: what they emit follows what has been emitted. *)
Definition flush (c : Connection) : Connection :=
  {| socket_listening := socket_listening c; options := options c;
     info_password := info_password c; info_sequence := info_sequence c;
     info_connected := info_connected c; info_lastPacket := info_lastPacket c;
     keepAlive_timer := keepAlive_timer c; timeout_timer := timeout_timer c;
     packets := packets c; multipart := multipart c;
     promises := promises c; events := events c ++ microtasks c;
     handles := handles c; intervals := intervals c; pings := pings c;
     microtasks := [] |}.

Definition with_packets (v : JsArray IPacketPromise) (c : Connection) : Connection :=
  {| socket_listening := socket_listening c; options := options c;
     info_password := info_password c; info_sequence := info_sequence c;
     info_connected := info_connected c; info_lastPacket := info_lastPacket c;
     keepAlive_timer := keepAlive_timer c; timeout_timer := timeout_timer c;
     packets := v; multipart := multipart c;
     promises := promises c; events := events c;
     handles := handles c; intervals := intervals c; pings := pings c;
     microtasks := microtasks c |}.

Definition with_multipart (v : JsArray (JsArray Packet)) (c : Connection) : Connection :=
  {| socket_listening := socket_listening c; options := options c;
     info_password := info_password c; info_sequence := info_sequence c;
     info_connected := info_connected c; info_lastPacket := info_lastPacket c;
     keepAlive_timer := keepAlive_timer c; timeout_timer := timeout_timer c;
     packets := packets c; multipart := v;
     promises := promises c; events := events c;
     handles := handles c; intervals := intervals c; pings := pings c;
     microtasks := microtasks c |}.

Definition with_promises (v : nat) (c : Connection) : Connection :=
  {| socket_listening := socket_listening c; options := options c;
     info_password := info_password c; info_sequence := info_sequence c;
     info_connected := info_connected c; info_lastPacket := info_lastPacket c;
     keepAlive_timer := keepAlive_timer c; timeout_timer := timeout_timer c;
     packets := packets c; multipart := multipart c;
     promises := v; events := events c;
     handles := handles c; intervals := intervals c; pings := pings c;
     microtasks := microtasks c |}.

Definition with_event (e : Event) (c : Connection) : Connection :=
  {| socket_listening := socket_listening c; options := options c;
     info_password := info_password c; info_sequence := info_sequence c;
     info_connected := info_connected c; info_lastPacket := info_lastPacket c;
     keepAlive_timer := keepAlive_timer c; timeout_timer := timeout_timer c;
     packets := packets c; multipart := multipart c;
     promises := promises c; events := events c ++ [e];
     handles := handles c; intervals := intervals c; pings := pings c;
     microtasks := microtasks c |}.

Definition with_listening (v : bool) (c : Connection) : Connection :=
  {| socket_listening := v; options := options c;
     info_password := info_password c; info_sequence := info_sequence c;
     info_connected := info_connected c; info_lastPacket := info_lastPacket c;
     keepAlive_timer := keepAlive_timer c; timeout_timer := timeout_timer c;
     packets := packets c; multipart := multipart c;
     promises := promises c; events := events c;
     handles := handles c; intervals := intervals c; pings := pings c;
     microtasks := microtasks c |}.

(** [new Array(255)] filled with [[]] at 0 .. 254, as the constructor and
    [cleanup] build the reassembly table. *)
Definition fresh_multipart : JsArray (JsArray Packet) :=
  {| elements := list_to_map ((λ i, (i, new_Array 0)) <$> seqZ 0 255);
     arr_length := 255 |}.

(** [new Connection(socket, details, options)] *)
Definition new_Connection (listening : bool) (password : jsstring) (opts : IOptions) : Connection :=
  {| socket_listening := listening; options := opts; info_password := password;
     info_sequence := -1; info_connected := Some false; info_lastPacket := None;
     keepAlive_timer := None; timeout_timer := None;
     packets := new_Array 255; multipart := fresh_multipart;
     promises := 0; events := [];
     handles := 0; intervals := ∅; pings := ∅; microtasks := [] |}.

(** [get connected()], read as a condition. *)
Definition connected (c : Connection) : bool :=
  match info_connected c with Some true => true | _ => false end.

(** *** The monad of the methods: state, and exceptions that keep the
    state reached so far *)

Definition M (A : Type) : Type := Connection -> Result A * Connection.

#[global] Instance M_ret : MRet M := fun A a c => (Ok a, c).
#[global] Instance M_bind : MBind M := fun A B k m c =>
  match m c with
  | (Ok a, c') => k a c'
  | (Throw e, c') => (Throw e, c')
  end.

Definition this : M Connection := fun c => (Ok c, c).
Definition modify (f : Connection -> Connection) : M unit := fun c => (Ok tt, f c).
Definition throw {A} (e : Error) : M A := fun c => (Throw e, c).
Definition emit (e : Event) : M unit := modify (with_event e).
Definition try_catch {A} (body : M A) (handler : Error -> M A) : M A := fun c =>
  match body c with
  | (Ok a, c') => (Ok a, c')
  | (Throw e, c') => handler e c'
  end.

(** An event that a reaction of a promise emits: it waits for the end of
    the current callback. *)
Definition defer (e : Event) : M unit := modify (with_microtask e).

(** [setInterval(callback, delay)]: a new interval runs, and its handle is
    returned. *)
Definition setInterval (callback : Scheduler) : M nat :=
  c ← this;
  modify (with_intervals (S (handles c)) (<[handles c := callback]> (intervals c)));;
  mret (handles c).

(** [clearTimeout(handle)], which stops an interval as well. *)
Definition clearTimeout (handle : nat) : M unit :=
  c ← this;
  modify (with_intervals (handles c) (delete handle (intervals c))).

(** A timestamp read as a condition: a number other than 0. *)
Definition truthy (timestamp : option Z) : bool :=
  match timestamp with
  | Some t => negb (t =? 0)
  | None => false
  end.

(** [resolve(value)] of the promise [id]. On a ping that is not settled
    the [then] handler of the keep-alive callback follows: it emits [debug]
    when [received] and both timestamps are there. *)
Definition promise_resolve (id : nat) (value : IPacketResponse) : M unit :=
  emit (Resolved id value);;
  c ← this;
  if bool_decide (id ∈ pings c) then
    modify (with_pings (pings c ∖ {[id]}));;
    if truthy (response_received value ≫= λ p, timestamp (attributes p))
       && truthy (timestamp (attributes (response_sent value)))
    then defer Emit_debug
    else mret tt
  else mret tt.

(** [reject(reason)] of the promise [id]. On a ping that is not settled
    the [catch] handler of the keep-alive callback follows: it emits
    [error] with the reason. *)
Definition promise_reject (id : nat) (reason : option Error) : M unit :=
  emit (Rejected id reason);;
  c ← this;
  if bool_decide (id ∈ pings c) then
    modify (with_pings (pings c ∖ {[id]}));;
    defer (Emit_error reason)
  else mret tt.

(** [get sequence()] *)
Definition Connection_sequence : M Z :=
  c ← this;
  (if 255 <=? info_sequence c then modify (with_sequence (-1)) else mret tt);;
  c ← this;
  modify (with_sequence (info_sequence c + 1));;
  mret (info_sequence c + 1).

(** [store(store)] *)
Definition store (st : IPacketPromise) : M unit :=
  c ← this;
  match type (packet st) with
  | Login =>
    match js_get (packets c) 0 with
    | Some _ => throw PacketOverflow
    | None => modify (with_packets (js_set (packets c) 0 st))
    end
  | Command =>
    match js_get (packets c) (Packet_sequence (packet st)) with
    | Some _ => throw PacketOverflow
    | None => modify (with_packets (js_set (packets c) (Packet_sequence (packet st)) st))
    end
  | Message => throw (UnknownPacketType (PacketType_value (type (packet st))))
  end.

(** The loop of [cleanup] over [this.packets]. *)
Fixpoint reject_each (reason : Error) (entries : list (option IPacketPromise)) : M unit :=
  match entries with
  | [] => mret tt
  | Some st :: entries' =>
    promise_reject (promise st) (Some reason);; reject_each reason entries'
  | None :: entries' => reject_each reason entries'
  end.

(** What [cleanup] assigns at its end. *)
Definition with_reset (c : Connection) : Connection :=
  {| socket_listening := socket_listening c; options := options c;
     info_password := info_password c; info_sequence := -1;
     info_connected := Some false; info_lastPacket := info_lastPacket c;
     keepAlive_timer := keepAlive_timer c; timeout_timer := timeout_timer c;
     packets := new_Array 255; multipart := fresh_multipart;
     promises := promises c; events := events c;
     handles := handles c; intervals := intervals c; pings := pings c;
     microtasks := microtasks c |}.

(** [cleanup(error)]: the intervals that the two handles name are cleared
    and the handles dropped, every pending promise is rejected, counters
    and tables are reset. *)
Definition cleanup (reason : Error) : M unit :=
  c ← this;
  match timeout_timer c with
  | Some handle => clearTimeout handle;; modify (with_timeout_timer None)
  | None => mret tt
  end;;
  c ← this;
  match keepAlive_timer c with
  | Some handle => clearTimeout handle;; modify (with_keepAlive_timer None)
  | None => mret tt
  end;;
  c ← this;
  reject_each reason (js_values (packets c));;
  modify with_reset.

(** The calls of [reject] that [cleanup] makes. *)
Definition reject_all (reason : Error) (entries : list (option IPacketPromise)) : list Event :=
  omap (λ entry, (λ st, Rejected (promise st) (Some reason)) <$> entry) entries.

(** [disconnect(reason)]; the reconnect itself is a later [connect()]. *)
Definition disconnect (reason : Error) : M unit :=
  cleanup reason;;
  emit (Emit_disconnected reason);;
  c ← this;
  if reconnect (options c) && bool_decide (reason = ServerTimeout)
  then emit Reconnect_armed
  else mret tt.

Section Engine.

Variable crc32 : Buffer -> Buffer.

(** [this.socket.send(buffer, 0, buffer.length, port, ip, callback)] of
    Node's dgram: the error that the callback gets ([null] is [None]) for
    the datagram [buffer] of the send with the promise number [id]. *)
Variable dgram_send : nat -> Buffer -> option Error.

(** [Socket.prototype.send(connection, packet, resolve)], with the callback
    of the UDP send run at once. The result is the packet object as the
    call leaves it (sequence assigned, [sent] counted) and, when the promise
    was rejected on the spot, the reason. No handler is on the promise
    while [send] runs: the caller hangs its own on what [send] returns. *)
Definition Socket_send (pkt : Packet) (resolve : bool) : M (Packet * option Error) :=
  c ← this;
  let id := promises c in
  modify (with_promises (S id));;
  assigned ←
    (if bool_decide (type pkt = Command) && (Packet_sequence pkt <? 0) then
       s ← Connection_sequence;
       mret (Packet_set_sequence pkt s)
     else mret (Ok pkt));
  match assigned with
  | Throw e => emit (Rejected id (Some e));; mret (pkt, Some e)
  | Ok pkt =>
    match serialize crc32 pkt with
    | Throw e => emit (Rejected id (Some e));; mret (pkt, Some e)
    | Ok (buffer, pkt) =>
      match dgram_send id buffer with
      | Some err => emit (Rejected id (Some err));; mret (pkt, Some err)
      | None =>
        emit (Transmitted pkt buffer);;
        if resolve then
          try_catch
            (store {| bytes := Buffer_length buffer; packet := pkt; promise := id |};;
             mret (pkt, None))
            (λ e, emit (Rejected id (Some e));; mret (pkt, Some e))
        else
          emit (Resolved id {| response_command := None; response_data := None;
                               response_connected := None;
                               response_bytes := Buffer_length buffer;
                               response_sent := pkt; response_received := None |});;
          mret (pkt, None)
      end
    end
  end.

(** [send(...).catch((e) => { this.emit('error', e) })] for a packet that
    no table refers to: the handler is a reaction of the promise. *)
Definition send_and_report (pkt : Packet) : M unit :=
  '(_, failure) ← Socket_send pkt false;
  match failure with
  | Some e => defer (Emit_error (Some e))
  | None => mret tt
  end.

(** [resolve(packet)] *)
Definition resolve (pkt : Packet) : M bool :=
  match type pkt with
  | Login =>
    c ← this;
    let store := js_get (packets c) 0 in
    modify (with_connected (login (attributes pkt)));;
    c ← this;
    resolved ←
      match store with
      | Some store =>
        (if connected c then
           promise_resolve (promise store)
             {| response_command := None; response_data := None;
                response_connected := Some true;
                response_bytes := bytes store;
                response_sent := packet store;
                response_received := Some pkt |}
         else promise_reject (promise store) (Some InvalidPassword));;
        c ← this;
        modify (with_packets (js_clear (packets c) 0));;
        mret true
      | None => mret false
      end;
    (if connected c then emit Emit_connected else disconnect InvalidPassword);;
    mret resolved
  | Command =>
    c ← this;
    resolved ←
      match js_get (packets c) (Packet_sequence pkt) with
      | Some store =>
        (if bool_decide (is_Some (error (attributes pkt))) then
           promise_reject (promise store) (error (attributes (packet store)))
         else if bool_decide (data (attributes pkt) = Some (lit "Unknown command")) then
           promise_reject (promise store)
             (Some (UnknownCommand (command (attributes (packet store)))))
         else
           promise_resolve (promise store)
             {| response_command := command (attributes (packet store));
                response_data := data (attributes pkt);
                response_connected := None;
                response_bytes := bytes store;
                response_sent := packet store;
                response_received := Some pkt |});;
        modify (with_packets (js_clear (packets c) (Packet_sequence pkt)));;
        mret true
      | None => mret false
      end;
    (match data (attributes pkt) with
     | Some (_ :: _) => emit (Emit_command (data (attributes pkt)) resolved pkt)
     | _ => mret tt
     end);;
    mret resolved
  | Message =>
    emit (Emit_message (message (attributes pkt)) pkt);;
    send_and_report
      (new_Packet Message Reply
         {| timestamp := None; sent := None; sequence := Some (Packet_sequence pkt);
            total := None; index := None; data := None; password := None;
            command := None; message := None; login := None; part := None;
            error := None |});;
    mret false
  end.

(** The reply that [recieve] and the timeout scheduler make up. *)
Definition reply_with_data (t : PacketType) (d : jsstring) (s : Z) : Packet :=
  new_Packet t Reply
    {| timestamp := None; sent := None; sequence := Some s; total := None;
       index := None; data := Some d; password := None; command := None;
       message := None; login := None; part := None; error := None |}.

Definition reply_with_error (t : PacketType) (e : Error) (s : Z) : Packet :=
  new_Packet t Reply
    {| timestamp := None; sent := None; sequence := Some s; total := None;
       index := None; data := None; password := None; command := None;
       message := None; login := None; part := None; error := Some e |}.

(** The loop of [recieve] over the fragments of one sequence: the parts in
    a row, [None] once a slot holds no packet; a fragment without [part]
    makes [Buffer.concat] throw. *)
Fixpoint concat_parts (slots : list (option Packet)) (buff : Buffer) : Result (option Buffer) :=
  match slots with
  | [] => Ok (Some buff)
  | Some p :: slots' =>
    match part (attributes p) with
    | Some b => concat_parts slots' (buff ++ b)
    | None => Throw TypeError
    end
  | None :: _ => Ok None
  end.

Definition lift {A} (r : Result A) : M A :=
  match r with
  | Ok a => mret a
  | Throw e => throw e
  end.

(** [new Array(n)] where [n] is what [packet.get('total')] gives: a length,
    or [undefined], which makes the one-element array [[undefined]]. *)
Definition Array_of_total (n : option Z) : Result (JsArray Packet) :=
  match n with
  | Some n => if n <? 0 then Throw RangeError else Ok (new_Array n)
  | None => Ok (new_Array 1)
  end.

(** [arr[packet.get('index')] = packet]; the key [undefined] is no index. *)
Definition set_at_index (arr : JsArray Packet) (i : option Z) (p : Packet) : JsArray Packet :=
  match i with
  | Some i => js_set arr i p
  | None => arr
  end.

(** [(packet.get('index') + 1) === packet.get('total')] *)
Definition is_last_index (pkt : Packet) : bool :=
  match index (attributes pkt), total (attributes pkt) with
  | Some i, Some t => i + 1 =? t
  | _, _ => false
  end.

(** [recieve(packet)], run to its end without interleaving. *)
Definition recieve (pkt : Packet) : M bool :=
  modify (with_lastPacket (Some pkt));;
  if bool_decide (direction pkt = Split) then
    let s := Packet_sequence pkt in
    c ← this;
    match js_get (multipart c) s with
    | None => throw TypeError
    | Some slots =>
      slots ← (if arr_length slots =? 0
               then lift (Array_of_total (total (attributes pkt)))
               else mret slots);
      let slots := set_at_index slots (index (attributes pkt)) pkt in
      modify (with_multipart (js_set (multipart c) s slots));;
      if is_last_index pkt then
        returned ←
          try_catch
            (buff ← lift (concat_parts (js_values slots) []);
             match buff with
             | Some buff =>
               c ← this;
               modify (with_multipart (js_set (multipart c) s (new_Array 0)));;
               r ← resolve (reply_with_data Command (Buffer_toString buff) s);
               mret (Some r)
             | None =>
               c ← this;
               match js_get (packets c) s with
               | Some resend =>
                 if 5 <=? Packet_sent (packet resend) then
                   '(pkt', failure) ← Socket_send (packet resend) false;
                   c ← this;
                   modify (with_packets
                             (js_set (packets c) s
                                {| bytes := bytes resend; packet := pkt';
                                   promise := promise resend |}));;
                   match failure with
                   | Some e => throw e
                   | None => mret None
                   end
                 else
                   r ← resolve (reply_with_error Command MaxRetries s);
                   mret (Some r)
               | None => mret None
               end
             end)
            (λ err, r ← resolve (reply_with_error Command err s); mret (Some r));
        mret (default false returned)
      else mret false
    end
  else resolve pkt.

End Engine.

Section Scheduler.

Variable crc32 : Buffer -> Buffer.
Variable dgram_send : nat -> Buffer -> option Error.

(** [time - timestamp >= limit] where [timestamp] may be [undefined]
    (the difference is then [NaN], and the comparison false). *)
Definition elapsed (time : Z) (timestamp : option Z) (limit : Z) : bool :=
  match timestamp with
  | Some t => limit <=? time - t
  | None => false
  end.

(** One round of the loop over [this.packets] in the timeout callback, for
    the entry [p] found at index [i]. The packet object of a resent entry
    is shared with the table, so the count of [serialize] shows there. *)
Definition check_pending (time : Z) (i : Z) (p : IPacketPromise) : M unit :=
  c ← this;
  let pkt := packet p in
  if truthy (timestamp (attributes pkt))
     && elapsed time (timestamp (attributes pkt)) (Packet_sent pkt * packetTimeout (options c))
  then
    '(pkt', failure) ← Socket_send crc32 dgram_send pkt false;
    c ← this;
    (if bool_decide (js_get (packets c) i = Some p) then
       modify (with_packets
                 (js_set (packets c) i
                    {| bytes := bytes p; packet := pkt'; promise := promise p |}))
     else mret tt);;
    match failure with
    | Some e => throw e
    | None => mret tt
    end
  else if packetTimeoutThresholded (options c) <=? Packet_sent pkt then
    resolve crc32 dgram_send (reply_with_error (type pkt) ServerTimeout (Packet_sequence pkt));;
    mret tt
  else mret tt.

Fixpoint check_all (time : Z) (i : Z) (entries : list (option IPacketPromise)) : M unit :=
  match entries with
  | [] => mret tt
  | Some p :: entries' => check_pending time i p;; check_all time (i + 1) entries'
  | None :: entries' => check_all time (i + 1) entries'
  end.

(** The callback of the timeout scheduler, at the clock reading [time]. *)
Definition timeout_tick (time : Z) : M unit :=
  try_catch
    (c ← this;
     let last := info_lastPacket c ≫= λ p, timestamp (attributes p) in
     if truthy last && elapsed time last (serverTimeout (options c)) then
       disconnect ServerTimeout
     else
       check_all time 0 (js_values (packets c)))
    (λ err, emit (Emit_error (Some err))).

(** [command(command, resolve)]; the result is the number of the promise
    and, when it was rejected on the spot, the reason. *)
Definition Connection_command (cmd : jsstring) (resolve : bool) : M (nat * option Error) :=
  c ← this;
  if negb (socket_listening c) || negb (connected c) then throw NoConnection
  else
    '(_, failure) ←
      Socket_send crc32 dgram_send
        (new_Packet Command Request
           {| timestamp := None; sent := None; sequence := None; total := None;
              index := None; data := None; password := None; command := Some cmd;
              message := None; login := None; part := None; error := None |})
        resolve;
    mret (promises c, failure).

(** The callback of the keep-alive scheduler: [command('')] with the
    handlers [then] and [catch] on its promise. A promise rejected on the
    spot has the [catch] handler emit [error]; one that waits in the
    pending table is a ping from now on. *)
Definition keepAlive_tick : M unit :=
  c ← this;
  if connected c then
    '(id, failure) ← Connection_command [] true;
    match failure with
    | Some e => defer (Emit_error (Some e))
    | None => c ← this; modify (with_pings ({[id]} ∪ pings c))
    end
  else mret tt.

(** [setup()]: an interval is started for each scheduler that the options
    ask for, and its handle replaces the one in the field, whose interval,
    if there was one, runs on. *)
Definition setup : M unit :=
  c ← this;
  (if keepAlive (options c) then
     handle ← setInterval KeepAlive_scheduler;
     modify (with_keepAlive_timer (Some handle))
   else mret tt);;
  (if timeout (options c) then
     handle ← setInterval Timeout_scheduler;
     modify (with_timeout_timer (Some handle))
   else mret tt).

(** [connect()] *)
Definition connect : M (nat * option Error) :=
  c ← this;
  if negb (socket_listening c) then throw NoConnection
  else
    (if connected c then disconnect ServerDisconnect else mret tt);;
    setup;;
    c ← this;
    '(_, failure) ←
      Socket_send crc32 dgram_send
        (new_Packet Login Request
           {| timestamp := None; sent := None; sequence := None; total := None;
              index := None; data := None; password := Some (info_password c);
              command := None; message := None; login := None; part := None;
              error := None |})
        true;
    mret (promises c, failure).

(** [kill(reason)] *)
Definition kill (reason : Error) : M unit :=
  emit (Emit_error (Some reason));;
  disconnect reason.

(** [Socket.prototype.receive(buffer, info)] for a datagram from the
    address of this connection. [recieve] is an async method: what it
    throws stays in the promise it returns, and [received] is emitted in
    any case. *)
Definition Socket_receive (buffer : Buffer) : M unit :=
  match FROM crc32 buffer with
  | Throw e => emit (Emit_error (Some e))
  | Ok pkt =>
    try_catch (recieve crc32 dgram_send pkt;; mret tt) (fun _ => mret tt);;
    emit (Emit_received pkt buffer)
  end.

(** *** The connection as a transition system *)

Inductive Step : Type :=
| Listening                                   (* the UDP socket is bound *)
| Connect                                     (* [connect()] *)
| Do_command (cmd : jsstring) (resolve : bool) (* [command(cmd, resolve)] *)
| Kill (reason : Error)                       (* [kill(reason)] *)
| Datagram (buffer : Buffer)                  (* an inbound datagram *)
| Timeout_tick (time : Z)                     (* a timeout interval fires *)
| KeepAlive_tick.                             (* a keep-alive interval fires *)

Definition run {A} (m : M A) (c : Connection) : Connection := snd (m c).

(** An interval with the callback [s] is running. *)
Definition running (s : Scheduler) (c : Connection) : bool :=
  bool_decide (s ∈ (map_to_list (intervals c)).*2).

(** One callback of the event loop, run to its end, and the microtasks
    after it. An interval fires only while it runs. *)
Definition step (s : Step) (c : Connection) : Connection :=
  flush
    match s with
    | Listening => with_listening true c
    | Connect => run connect c
    | Do_command cmd resolve => run (Connection_command cmd resolve) c
    | Kill reason => run (kill reason) c
    | Datagram buffer => run (Socket_receive buffer) c
    | Timeout_tick time =>
      if running Timeout_scheduler c then run (timeout_tick time) c else c
    | KeepAlive_tick =>
      if running KeepAlive_scheduler c then run keepAlive_tick c else c
    end.

Definition steps (l : list Step) (c : Connection) : Connection :=
  fold_left (λ c s, step s c) l c.

End Scheduler.

(** ** The earlier connection (src/connection.ts)

    The same class one revision back: the pending table is the pair
    [[login, [commands]]], and the sequence getter compares with [>]. *)
Module Legacy.

Record Pending : Type := {
  login_slot : option IPacketPromise;
  command_slots : JsArray IPacketPromise;
}.

(** [get sequence()], on the counter alone *)
Definition sequence (counter : Z) : Z * Z :=
  let counter := if 255 <? counter then -1 else counter in
  (counter + 1, counter + 1).

(** [store(store)], on the table alone *)
Definition store (st : IPacketPromise) (t : Pending) : Result Pending :=
  match type (packet st) with
  | Login =>
    match login_slot t with
    | Some _ => Throw PacketOverflow
    | None => Ok {| login_slot := Some st; command_slots := command_slots t |}
    end
  | Command =>
    match js_get (command_slots t) (Packet_sequence (packet st)) with
    | Some _ => Throw PacketOverflow
    | None =>
      Ok {| login_slot := login_slot t;
            command_slots := js_set (command_slots t) (Packet_sequence (packet st)) st |}
    end
  | Message => Throw (UnknownPacketType (PacketType_value (type (packet st))))
  end.

Fixpoint reads (n : nat) (counter : Z) : list Z :=
  match n with
  | O => []
  | S n' => let '(v, counter') := sequence counter in v :: reads n' counter'
  end.

End Legacy.

(** ** Notions the properties are stated with *)

(** [n] successive reads of [connection.sequence]. *)
Fixpoint sequence_reads (n : nat) (c : Connection) : list (Result Z) :=
  match n with
  | O => []
  | S n' => let '(v, c') := Connection_sequence c in v :: sequence_reads n' c'
  end.

(** The packets that [serialize] is meant for. *)
Definition login_request (pw : jsstring) : Packet :=
  new_Packet Login Request
    {| timestamp := None; sent := None; sequence := None; total := None;
       index := None; data := None; password := Some pw; command := None;
       message := None; login := None; part := None; error := None |}.

Definition command_request (cmd : jsstring) (s : Z) : Packet :=
  new_Packet Command Request
    {| timestamp := None; sent := None; sequence := Some s; total := None;
       index := None; data := None; password := None; command := Some cmd;
       message := None; login := None; part := None; error := None |}.

Definition message_ack (s : Z) : Packet :=
  new_Packet Message Reply
    {| timestamp := None; sent := None; sequence := Some s; total := None;
       index := None; data := None; password := None; command := None;
       message := None; login := None; part := None; error := None |}.

Definition sendable (p : Packet) : Prop :=
  match type p, direction p with
  | Login, Request => is_Some (password (attributes p))
  | Command, Request =>
    is_Some (command (attributes p)) /\ 0 <= Packet_sequence p <= 255
  | Message, Reply => 0 <= Packet_sequence p <= 255
  | _, _ => False
  end.

(** Equal in type, direction and the payload fields. *)
Definition same_packet (p q : Packet) : Prop :=
  type p = type q /\ direction p = direction q /\
  password (attributes p) = password (attributes q) /\
  command (attributes p) = command (attributes q) /\
  sequence (attributes p) = sequence (attributes q) /\
  data (attributes p) = data (attributes q).

(** [Packet.FROM(p.serialize())] *)
Definition decode_encoded (crc32 : Buffer -> Buffer) (p : Packet) : Result Packet :=
  '(buffer, _) ← serialize crc32 p; FROM crc32 buffer.

(** Decoding the encoding of [p] gives [p] back. *)
Definition round_trip (crc32 : Buffer -> Buffer) (p : Packet) : Prop :=
  exists q, decode_encoded crc32 p = Ok q /\ same_packet p q.

(** A text of ASCII characters only. *)
Definition ascii_text (s : jsstring) : Prop := Forall (λ u, (u < 0x80)%N) s.

(** What the decoder makes of the three sendable packets. *)
Definition login_reply (ok : bool) : Packet :=
  new_Packet Login Reply
    {| timestamp := None; sent := None; sequence := None; total := None;
       index := None; data := None; password := None; command := None;
       message := None; login := Some ok; part := None; error := None |}.

Definition message_reply (s : Z) (text : jsstring) : Packet :=
  new_Packet Message Reply
    {| timestamp := None; sent := None; sequence := Some s; total := None;
       index := None; data := None; password := None; command := None;
       message := Some text; login := None; part := None; error := None |}.

Definition decoded (p : Packet) : Packet :=
  match type p with
  | Login => login_reply (bool_decide (head (default [] (password (attributes p))) = Some 1%N))
  | Command =>
    reply_with_data Command (default [] (command (attributes p))) (Packet_sequence p)
  | Message => message_reply (Packet_sequence p) []
  end.

(** A datagram around a payload, as the server frames it. *)
Definition frame (crc32 : Buffer -> Buffer) (payload : Buffer) : Buffer :=
  match crc32 payload with
  | b0 :: b1 :: b2 :: b3 :: _ => [x42; x45; b3; b2; b1; b0] ++ payload
  | _ => [x42; x45; x00; x00; x00; x00] ++ payload
  end.

(** The fragment [index] of [total] at sequence [s], as [FROM] builds it. *)
Definition fragment (s total index : Z) (bytes : Buffer) : Packet :=
  new_Packet Command Split
    {| timestamp := None; sent := None; sequence := Some s; total := Some total;
       index := Some index; data := None; password := None; command := None;
       message := None; login := None; part := Some bytes; error := None |}.




(** Every byte, for checks that go through all of them. *)
Definition all_bytes : list byte := byte_of_N <$> (N.of_nat <$> seq 0 256).

(** The states a connection gets into. *)
Inductive reachable (crc32 : Buffer -> Buffer) (dgram_send : nat -> Buffer -> option Error)
    : Connection -> Prop :=
| reachable_new listening password opts :
    reachable crc32 dgram_send (new_Connection listening password opts)
| reachable_step c s :
    reachable crc32 dgram_send c -> reachable crc32 dgram_send (step crc32 dgram_send s c).

(** The connection with the fragments [slots] of sequence [s] in the
    reassembly table and [last] as the last packet seen. *)
Definition reassembling (c : Connection) (s : Z) (slots : JsArray Packet) (last : Packet) : Connection :=
  with_multipart (js_set (multipart c) s slots) (with_lastPacket (Some last) c).


(** ** Example runs *)

Definition bytes_of (s : string) : Buffer := byte_of_ascii <$> list_ascii_of_string s.

(** A UDP socket that sends every datagram. *)
Definition dgram_ok : nat -> Buffer -> option Error := λ _ _, None.

(** The datagram of a Login Reply that accepts the password. *)
Definition login_accepted : Buffer := frame crc32_ieee [xff; x00; x01].

(** A connection that has logged in with the default options ... *)
Definition example_connected : Connection :=
  steps crc32_ieee dgram_ok [Connect; Datagram login_accepted]
    (new_Connection true (lit "test") default_options).

(** ... and has then sent four commands, which wait at the sequences 0
    to 3 for their replies (the promises 1 to 4). *)
Definition example_busy : Connection :=
  steps crc32_ieee dgram_ok
    [Do_command (lit "missions") true; Do_command (lit "bans") true;
     Do_command (lit "admins") true; Do_command (lit "players") true]
    example_connected.

(** The options with one attempt per packet. *)
Definition impatient_options : IOptions :=
  {| reconnect := true; reconnectTimeout := 500; keepAlive := true;
     keepAliveInterval := 15000; timeout := true; timeoutInterval := 1000;
     serverTimeout := 30000; packetTimeout := 1000; packetTimeoutThresholded := 1 |}.

(** A new connection with these options after [connect()] ... *)
Definition example_impatient_login : Connection :=
  step crc32_ieee dgram_ok Connect (new_Connection true (lit "test") impatient_options).

(** ... and after the login was accepted and one command was sent. *)
Definition example_impatient_command : Connection :=
  steps crc32_ieee dgram_ok [Datagram login_accepted; Do_command (lit "players") true]
    example_impatient_login.

(** A connection with the default options where the command at sequence
    1 (promise 1) has been serialized five times and carries the timestamp
    that [clear()] meant to give it. *)
Definition example_retried : Connection :=
  with_packets
    (js_set (new_Array 255) 1
       {| bytes := 16; promise := 1;
          packet :=
            new_Packet Command Request
              {| timestamp := Some 1000; sent := Some 5; sequence := Some 1;
                 total := None; index := None; data := None; password := None;
                 command := Some (lit "players"); message := None; login := None;
                 part := None; error := None |} |})
    (with_connected (Some true) (new_Connection true (lit "test") default_options)).

(** ** Reasoning about the methods

    [hoare P m Q E]: from a state that satisfies [P], the computation [m]
    either returns some [a] in a state that satisfies [Q a], or throws in a
    state that satisfies [E]. *)
Definition hoare {A} (P : Connection -> Prop) (m : M A)
    (Q : A -> Connection -> Prop) (E : Connection -> Prop) : Prop :=
  forall c, P c ->
    match m c with
    | (Ok a, c') => Q a c'
    | (Throw _, c') => E c'
    end.

(** [m] keeps the invariant [P], also when it throws. *)
Definition keeps {A} (P : Connection -> Prop) (m : M A) : Prop :=
  hoare P m (fun _ => P) P.

(** A Login request waits in slot 0 only, and only while the connection
    is not connected. *)
Definition login_waits (c : Connection) : Prop :=
  forall i st, js_get (packets c) i = Some st -> type (packet st) = Login ->
    i = 0 /\ connected c = false.

(** The flag is [b], and the pending table is as [login_waits] says. *)
Definition flag_is (b : bool) (c : Connection) : Prop :=
  connected c = b /\ login_waits c.

(** The server has been silent for [serverTimeout] at the time [time]. *)
Definition server_silent (time : Z) (c : Connection) : Prop :=
  exists p t, info_lastPacket c = Some p /\ timestamp (attributes p) = Some t /\
              serverTimeout (options c) <= time - t.


(** ** Further notions: the wire, the tables between two steps, the
    earlier [resolve] *)

(** What [buf.write(s, offset)] leaves in the [s.length] zero bytes that
    [serialize] allocates for a text: the UTF-8 encoding of as many whole
    characters as fit, and zero bytes after them. *)
Definition wire_text (s : jsstring) : Buffer :=
  let written := utf8_fit (utf8_chars s) (length s) in
  written ++ replicate (length s - length written) x00.

(** The packet as [serialize] leaves it: [sent] counted up by one. *)
Definition sent_once_more (p : Packet) : Packet :=
  {| type := type p; direction := direction p;
     attributes := set_sent (Packet_sent p + 1) (attributes p) |}.

(** The packet that [command(cmd)] builds. *)
Definition fresh_command (cmd : jsstring) : Packet :=
  new_Packet Command Request
    {| timestamp := None; sent := None; sequence := None; total := None;
       index := None; data := None; password := None; command := Some cmd;
       message := None; login := None; part := None; error := None |}.

(** A request that has not been sent yet: what [connect()] and
    [command()] hand to [send]. *)
Definition unsent (pkt : Packet) : Prop :=
  direction pkt = Request /\ timestamp (attributes pkt) = None /\
  Packet_sent pkt = 0 /\ error (attributes pkt) = None /\
  (type pkt = Login \/ type pkt = Command /\ sequence (attributes pkt) = None).

(** A request as [connect()] and [command()] leave it in the pending
    table: of the direction Request, serialized once, without a timestamp
    and without an error, a Login in slot 0 or a Command in the slot of its
    sequence. *)
Definition pending_entry (i : Z) (st : IPacketPromise) : Prop :=
  0 <= i <= 255 /\
  direction (packet st) = Request /\
  timestamp (attributes (packet st)) = None /\
  sent (attributes (packet st)) = Some 1 /\
  error (attributes (packet st)) = None /\
  (type (packet st) = Login /\ i = 0 \/
   type (packet st) = Command /\ sequence (attributes (packet st)) = Some i).

(** What holds of the tables and counters of a connection between two
    steps: the pending entries are as above and within the length of the
    array, the last packet seen has no timestamp, the counter is within
    -1 .. 255, and the reassembly table has the slots 0 .. 254. *)
Definition well_kept (c : Connection) : Prop :=
  (forall i st, js_get (packets c) i = Some st ->
     pending_entry i st /\ i < arr_length (packets c)) /\
  (forall p, info_lastPacket c = Some p -> timestamp (attributes p) = None) /\
  -1 <= info_sequence c <= 255 /\
  (forall s, is_Some (js_get (multipart c) s) <-> 0 <= s < 255).

(** The promises among [entries], in the order of the table, on which a
    handler of the keep-alive callback waits: each ping once. *)
Fixpoint caught (waiting : gset nat) (entries : list (option IPacketPromise)) : list nat :=
  match entries with
  | [] => []
  | Some st :: entries' =>
    if bool_decide (promise st ∈ waiting)
    then promise st :: caught (waiting ∖ {[promise st]}) entries'
    else caught waiting entries'
  | None :: entries' => caught waiting entries'
  end.


(** The intervals once [clearTimeout] was called with what a handle field
    holds. *)
Definition cleared (handle : option nat) (running : gmap nat Scheduler)
    : gmap nat Scheduler :=
  match handle with
  | Some h => delete h running
  | None => running
  end.

(** The fields of the connection object agree, the two handles apart;
    what Node holds besides (the intervals, the pings, the microtasks) and
    what has happened may differ. *)
Definition same_object (c c' : Connection) : Prop :=
  socket_listening c' = socket_listening c /\ options c' = options c /\
  info_password c' = info_password c /\ info_sequence c' = info_sequence c /\
  info_connected c' = info_connected c /\ info_lastPacket c' = info_lastPacket c /\
  packets c' = packets c /\ multipart c' = multipart c /\
  promises c' = promises c /\ handles c' = handles c.

(** What holds of the numbers of promises and handles between two steps:
    the promises in the pending table have been made, no two entries carry
    the same promise, the pings have been made, the intervals that run have
    handles that were given out, and a handle is only held for a scheduler
    that the options ask for. *)
Definition tidy (c : Connection) : Prop :=
  (forall i st, js_get (packets c) i = Some st -> (promise st < promises c)%nat) /\
  (forall i j st st', js_get (packets c) i = Some st -> js_get (packets c) j = Some st' ->
     promise st = promise st' -> i = j) /\
  (forall id, id ∈ pings c -> (id < promises c)%nat) /\
  (forall h s, intervals c !! h = Some s -> (h < handles c)%nat) /\
  (keepAlive (options c) = false -> keepAlive_timer c = None) /\
  (timeout (options c) = false -> timeout_timer c = None).

(** What completes the request [st] when the reply text is [d]. *)
Definition completion (st : IPacketPromise) (d : jsstring) (reply : Packet) : Event :=
  if bool_decide (d = lit "Unknown command")
  then Rejected (promise st) (Some (UnknownCommand (command (attributes (packet st)))))
  else Resolved (promise st)
         {| response_command := command (attributes (packet st));
            response_data := Some d; response_connected := None;
            response_bytes := bytes st; response_sent := packet st;
            response_received := Some reply |}.

(** The [command] event of a reply: none for an empty text. *)
Definition command_event (d : jsstring) (resolved : bool) (reply : Packet) : list Event :=
  match d with
  | [] => []
  | _ :: _ => [Emit_command (Some d) resolved reply]
  end.


(** A UDP socket without a route to the server: every [send] reports
    [ENETUNREACH]. *)
Definition dgram_down : nat -> Buffer -> option Error :=
  λ _ _, Some (SystemError "ENETUNREACH").

(** The state in which [connect()] sends the Login request: [setup] has
    started an interval for each scheduler that the options ask for, and
    holds its handle. *)
Definition set_up (c : Connection) : Connection :=
  let c1 :=
    if keepAlive (options c)
    then with_keepAlive_timer (Some (handles c))
           (with_intervals (S (handles c))
              (<[handles c := KeepAlive_scheduler]> (intervals c)) c)
    else c in
  if timeout (options c)
  then with_timeout_timer (Some (handles c1))
         (with_intervals (S (handles c1))
            (<[handles c1 := Timeout_scheduler]> (intervals c1)) c1)
  else c1.

(** The datagram of the fragment [index] of [total] at the sequence [s]. *)
Definition fragment_datagram (crc32 : Buffer -> Buffer) (s total index : Z)
    (bytes : Buffer) : Buffer :=
  frame crc32 ([xff; x01; byte_of_Z s; x00; byte_of_Z total; byte_of_Z index] ++ bytes).


(** [arr.splice(start, 1)]: the element at [start] is taken out and the
    elements after it move down by one, empty slots included; a negative
    [start] counts from the end; the length goes down by the number of
    elements removed. Properties that are no indices stay. *)
Definition js_splice {A} (arr : JsArray A) (start : Z) : JsArray A :=
  let len := arr_length arr in
  let actualStart := if start <? 0 then Z.max (len + start) 0 else Z.min start len in
  let deleteCount := Z.min 1 (len - actualStart) in
  let from (k : Z) := if k <? actualStart then k else k + deleteCount in
  {| elements :=
       filter (λ kv, kv.1 < 0) (elements arr)
       ∪ list_to_map (omap (λ k, (λ v, (k, v)) <$> elements arr !! from k)
                        (seqZ 0 (len - deleteCount)));
     arr_length := len - deleteCount |}.

Module LegacyConnection.

(** The Command arm of [resolve] in src/connection.ts, on the pending
    table alone: what is done to the promise, the [command] event, the
    result, and the table afterwards. *)
Definition resolve_command (pkt : Packet) (t : Legacy.Pending)
    : list Event * bool * Legacy.Pending :=
  match js_get (Legacy.command_slots t) (Packet_sequence pkt) with
  | Some store =>
    ([if bool_decide (data (attributes pkt) = Some (lit "Unknown command"))
      then Rejected (promise store)
             (Some (UnknownCommand (command (attributes (packet store)))))
      else Resolved (promise store)
             {| response_command := command (attributes (packet store));
                response_data := data (attributes pkt);
                response_connected := None;
                response_bytes := bytes store;
                response_sent := packet store;
                response_received := Some pkt |};
      Emit_command (data (attributes pkt)) true pkt],
     true,
     {| Legacy.login_slot := Legacy.login_slot t;
        Legacy.command_slots :=
          js_splice (Legacy.command_slots t) (Packet_sequence pkt) |})
  | None => ([Emit_command (data (attributes pkt)) false pkt], false, t)
  end.

End LegacyConnection.
(** * Properties *)

(** ** Bytes and words *)

Lemma byte_to_Z_range (b : byte) : 0 <= byte_to_Z b < 256.
Proof.
  unfold byte_to_Z. pose proof (Byte.to_N_bounded b). lia.
Qed.

Lemma byte_of_N_to_N (b : byte) : byte_of_N (Byte.to_N b) = b.
Proof.
  unfold byte_of_N. pose proof (Byte.to_N_bounded b).
  rewrite N.mod_small by lia. by rewrite Byte.of_to_N.
Qed.

Lemma to_N_byte_of_N (n : N) : (n < 256)%N -> Byte.to_N (byte_of_N n) = n.
Proof.
  intros Hn. unfold byte_of_N. rewrite N.mod_small by lia.
  destruct (Byte.of_N n) as [b|] eqn:E.
  - by apply Byte.to_of_N.
  - apply Byte.of_N_None_iff in E. lia.
Qed.

Lemma byte_to_Z_of_Z (z : Z) : byte_to_Z (byte_of_Z z) = z mod 256.
Proof.
  unfold byte_to_Z, byte_of_Z.
  assert (0 <= z mod 256 < 256) by (apply Z.mod_pos_bound; lia).
  rewrite to_N_byte_of_N by lia. lia.
Qed.

Lemma to_int32_range (w : Z) : 0 <= w < 2 ^ 32 -> - 2 ^ 31 <= to_int32 w < 2 ^ 31.
Proof. unfold to_int32. intros. case_match; lia. Qed.

Lemma word_of_bytes_range b3 b2 b1 b0 : 0 <= word_of_bytes b3 b2 b1 b0 < 2 ^ 32.
Proof.
  unfold word_of_bytes.
  pose proof (byte_to_Z_range b3). pose proof (byte_to_Z_range b2).
  pose proof (byte_to_Z_range b1). pose proof (byte_to_Z_range b0). lia.
Qed.


Lemma crc32_ieee_length (payload : Buffer) : (4 <= length (crc32_ieee payload))%nat.
Proof. unfold crc32_ieee. simpl. lia. Qed.

(** ** Reading and writing buffers *)

Lemma readUInt8_lookup (buf : Buffer) (i : nat) (b : byte) :
  buf !! i = Some b -> readUInt8 buf (Z.of_nat i) = Ok (byte_to_Z b).
Proof.
  intros Hb. unfold readUInt8, Buffer_length.
  pose proof (lookup_lt_Some _ _ _ Hb).
  rewrite Nat2Z.id, Hb.
  destruct (0 <=? Z.of_nat i) eqn:E1; [|lia].
  destruct (Z.of_nat i <? Z.of_nat (length buf)) eqn:E2; [done|lia].
Qed.

Lemma readUInt8_Ok (buf : Buffer) (z v : Z) :
  readUInt8 buf z = Ok v ->
  0 <= z < Buffer_length buf /\ exists b, buf !! Z.to_nat z = Some b /\ v = byte_to_Z b.
Proof.
  unfold readUInt8. intros H.
  destruct (0 <=? z) eqn:E1; [|done].
  destruct (z <? Buffer_length buf) eqn:E2; [|done].
  simpl in H. destruct (buf !! Z.to_nat z) as [b|] eqn:E; [|done].
  split; [lia|]. exists b. split; [done|congruence].
Qed.

Lemma readUInt8_in_range (buf : Buffer) (z : Z) :
  0 <= z < Buffer_length buf -> exists b, readUInt8 buf z = Ok (byte_to_Z b).
Proof.
  intros Hz. unfold Buffer_length in Hz.
  destruct (lookup_lt_is_Some_2 buf (Z.to_nat z)) as [b Hb]; [lia|].
  exists b. rewrite <- (Z2Nat.id z) by lia. by apply readUInt8_lookup.
Qed.

Lemma readUInt8_Throw (buf : Buffer) (z : Z) (e : Error) :
  readUInt8 buf z = Throw e -> e = RangeError /\ ~ (0 <= z < Buffer_length buf).
Proof.
  intros H. destruct (decide (0 <= z < Buffer_length buf)) as [Hz|Hz].
  - destruct (readUInt8_in_range buf z Hz) as [b Hb]. congruence.
  - split; [|done]. unfold readUInt8 in H.
    destruct (0 <=? z) eqn:E1; destruct (z <? Buffer_length buf) eqn:E2;
      simpl in H; try congruence. lia.
Qed.

Lemma writeUInt8_insert (buf : Buffer) (i : nat) (v : Z) :
  (i < length buf)%nat -> 0 <= v <= 255 ->
  writeUInt8 buf v (Z.of_nat i) = Ok (<[i := byte_of_Z v]> buf).
Proof.
  intros Hi Hv. unfold writeUInt8, Buffer_length. rewrite Nat2Z.id.
  destruct (0 <=? Z.of_nat i) eqn:E1; [|lia].
  destruct (Z.of_nat i <? Z.of_nat (length buf)) eqn:E2; [|lia].
  destruct (0 <=? v) eqn:E3; [|lia].
  destruct (v <=? 255) eqn:E4; [done|lia].
Qed.

Lemma slice_to_end (buf : Buffer) (n : nat) :
  slice buf (Z.of_nat n) (Buffer_length buf) = drop n buf.
Proof.
  unfold slice, Buffer_length. rewrite !Nat2Z.id.
  apply take_ge. rewrite length_drop. lia.
Qed.

Lemma readInt32LE_crc (crc : Buffer) :
  (4 <= length crc)%nat ->
  exists w, readInt32LE crc 0 = Ok w /\ - 2 ^ 31 <= w < 2 ^ 31.
Proof.
  intros Hlen. unfold readInt32LE, Buffer_length.
  destruct crc as [|b0 [|b1 [|b2 [|b3 rest]]]]; simpl in Hlen; try lia.
  assert (E : (0 + 4 <=? Z.of_nat (length (b0 :: b1 :: b2 :: b3 :: rest))) = true)
    by (apply Z.leb_le; cbn [length]; lia).
  rewrite E. simpl. eexists. split; [done|].
  apply to_int32_range, word_of_bytes_range.
Qed.


(** ** ASCII text through UTF-8 *)

Lemma utf8_chars_ascii (s : jsstring) :
  ascii_text s -> utf8_chars s = (fun u => [byte_of_N u]) <$> s.
Proof.
  induction 1 as [|u s Hu _ IH]; [done|]. cbv beta in Hu.
  simpl. unfold is_high_surrogate, is_low_surrogate, utf8_code_point.
  destruct (N.leb_spec 0xD800 u); [lia|].
  destruct (N.leb_spec 0xDC00 u); [lia|].
  destruct (N.ltb_spec u 0x80); [|lia].
  simpl. by rewrite IH.
Qed.

Lemma utf8_fit_bytes {A} (f : A -> byte) (s : list A) (room : nat) :
  (length s <= room)%nat -> utf8_fit ((fun u => [f u]) <$> s) room = f <$> s.
Proof.
  revert room. induction s as [|u s IH]; intros room Hroom; [done|].
  simpl in *. destruct room as [|room]; [lia|].
  simpl. rewrite IH by lia. done.
Qed.

Lemma utf8_decode_ascii (s : jsstring) :
  ascii_text s -> Buffer_toString (byte_of_N <$> s) = s.
Proof.
  unfold Buffer_toString. induction 1 as [|u s Hu _ IH]; [done|]. cbv beta in Hu.
  simpl. rewrite to_N_byte_of_N by lia.
  unfold utf8_step, utf8_lead. simpl.
  destruct (N.ltb_spec u 0x80); [|lia]. simpl. f_equal. exact IH.
Qed.

(** The two header bytes read as text are "BE" only when they are the
    bytes 0x42 0x45. *)
Lemma all_bytes_complete (b : byte) : In b all_bytes.
Proof.
  apply list_elem_of_In. unfold all_bytes.
  apply list_elem_of_fmap. exists (Byte.to_N b). split; [by rewrite byte_of_N_to_N|].
  apply list_elem_of_fmap. exists (N.to_nat (Byte.to_N b)). split; [lia|].
  apply elem_of_seq. pose proof (Byte.to_N_bounded b). lia.
Qed.

Lemma header_text (b0 b1 : byte) :
  Buffer_toString [b0; b1] = lit "BE" <-> b0 = x42 /\ b1 = x45.
Proof.
  split; [|by intros [-> ->]].
  assert (H : forallb (fun b0 => forallb (fun b1 =>
            implb (bool_decide (Buffer_toString [b0; b1] = lit "BE"))
                  (bool_decide (b0 = x42 /\ b1 = x45))) all_bytes) all_bytes = true)
    by (vm_compute; reflexivity).
  rewrite forallb_forall in H. specialize (H b0 (all_bytes_complete b0)).
  rewrite forallb_forall in H. specialize (H b1 (all_bytes_complete b1)).
  intros E. rewrite bool_decide_eq_true_2 in H by done.
  simpl in H. by apply bool_decide_eq_true_1 in H.
Qed.

(** ** The frame: header text and checksum *)

Lemma word_bytes_BE (b3 b2 b1 b0 : byte) :
  int32_bytes_BE (to_int32 (word_of_bytes b3 b2 b1 b0)) = [b3; b2; b1; b0].
Proof.
  pose proof (byte_to_Z_range b3). pose proof (byte_to_Z_range b2).
  pose proof (byte_to_Z_range b1). pose proof (byte_to_Z_range b0).
  pose proof (word_of_bytes_range b3 b2 b1 b0) as Hw.
  unfold int32_bytes_BE. cbv zeta.
  assert (E : to_int32 (word_of_bytes b3 b2 b1 b0) mod 2 ^ 32 = word_of_bytes b3 b2 b1 b0).
  { unfold to_int32. case_match.
    - apply Z.mod_small; lia.
    - symmetry. apply Z.mod_unique with (-1); lia. }
  rewrite E. unfold word_of_bytes in *.
  assert (forall b z, z mod 256 = byte_to_Z b -> byte_of_Z z = b) as Hbyte.
  { intros b z Hz. unfold byte_of_Z. rewrite Hz. unfold byte_to_Z.
    rewrite N2Z.id. apply byte_of_N_to_N. }
  set (W := byte_to_Z b3 * 2 ^ 24 + byte_to_Z b2 * 2 ^ 16 + byte_to_Z b1 * 2 ^ 8 + byte_to_Z b0) in *.
  assert (Q24 : W / 2 ^ 24 = byte_to_Z b3).
  { symmetry. apply Z.div_unique with (byte_to_Z b2 * 2 ^ 16 + byte_to_Z b1 * 2 ^ 8 + byte_to_Z b0); lia. }
  assert (Q16 : W / 2 ^ 16 = byte_to_Z b3 * 2 ^ 8 + byte_to_Z b2).
  { symmetry. apply Z.div_unique with (byte_to_Z b1 * 2 ^ 8 + byte_to_Z b0); lia. }
  assert (Q8 : W / 2 ^ 8 = byte_to_Z b3 * 2 ^ 16 + byte_to_Z b2 * 2 ^ 8 + byte_to_Z b1).
  { symmetry. apply Z.div_unique with (byte_to_Z b0); lia. }
  rewrite Q24, Q16, Q8.
  f_equal; [|f_equal; [|f_equal; [|f_equal]]]; apply Hbyte; symmetry.
  - apply Z.mod_unique with 0; lia.
  - apply Z.mod_unique with (byte_to_Z b3); lia.
  - apply Z.mod_unique with (byte_to_Z b3 * 2 ^ 8 + byte_to_Z b2); lia.
  - apply Z.mod_unique with (byte_to_Z b3 * 2 ^ 16 + byte_to_Z b2 * 2 ^ 8 + byte_to_Z b1); lia.
Qed.

Lemma readInt32LE_4 (b0 b1 b2 b3 : byte) (rest : Buffer) :
  readInt32LE (b0 :: b1 :: b2 :: b3 :: rest) 0 = Ok (to_int32 (word_of_bytes b3 b2 b1 b0)).
Proof.
  unfold readInt32LE, Buffer_length. cbn [length].
  assert (E3 : (0 + 4 <=? Z.of_nat (S (S (S (S (length rest)))))) = true)
    by (apply Z.leb_le; lia).
  rewrite E3. done.
Qed.

Lemma writeInt32BE_header (w : Z) :
  - 2 ^ 31 <= w < 2 ^ 31 ->
  writeInt32BE [x42; x45; x00; x00; x00; x00] w 2 = Ok ([x42; x45] ++ int32_bytes_BE w).
Proof.
  intros Hw. unfold writeInt32BE, Buffer_length. cbn [length].
  assert (E1 : (- 2 ^ 31 <=? w) = true) by (apply Z.leb_le; lia).
  assert (E2 : (w <? 2 ^ 31) = true) by (apply Z.ltb_lt; lia).
  rewrite E1, E2. done.
Qed.

(** [FROM] accepts the frame of a payload of three bytes or more, and goes
    on to the payload. *)
Lemma FROM_frame (crc32 : Buffer -> Buffer) (payload : Buffer) :
  (4 <= length (crc32 payload))%nat -> (3 <= length payload)%nat ->
  FROM crc32 (frame crc32 payload) = FROM_payload payload.
Proof.
  intros Hcrc Hlen. unfold frame.
  destruct (crc32 payload) as [|b0 [|b1 [|b2 [|b3 rest]]]] eqn:E; simpl in Hcrc; try lia.
  unfold FROM.
  assert (E9 : (Buffer_length ([x42; x45; b3; b2; b1; b0] ++ payload) <? 9) = false).
  { apply Z.ltb_ge. unfold Buffer_length. rewrite length_app. cbn [length]. lia. }
  rewrite E9.
  change (slice ([x42; x45; b3; b2; b1; b0] ++ payload) 0 2) with [x42; x45].
  change (bool_decide (Buffer_toString [x42; x45] ≠ lit "BE")) with false. cbv iota.
  change 6 with (Z.of_nat 6). rewrite slice_to_end.
  change (drop 6 ([x42; x45; b3; b2; b1; b0] ++ payload)) with payload.
  rewrite E.
  assert (R1 : readInt32BE ([x42; x45; b3; b2; b1; b0] ++ payload) 2
               = Ok (to_int32 (word_of_bytes b3 b2 b1 b0))).
  { unfold readInt32BE, Buffer_length. rewrite length_app. cbn [length].
    assert (E3 : (2 + 4 <=? Z.of_nat (6 + length payload)) = true) by (apply Z.leb_le; lia).
    rewrite E3. done. }
  assert (R2 : readInt32LE (b0 :: b1 :: b2 :: b3 :: rest) 0
               = Ok (to_int32 (word_of_bytes b3 b2 b1 b0))).
  { unfold readInt32LE, Buffer_length. cbn [length].
    assert (E3 : (0 + 4 <=? Z.of_nat (S (S (S (S (length rest)))))) = true)
      by (apply Z.leb_le; lia).
    rewrite E3. done. }
  rewrite R1, R2. simpl. rewrite bool_decide_eq_false_2 by (intros H; by apply H). done.
Qed.

(** What [serialize] puts around a payload is its frame. *)
Lemma serialize_header (crc32 : Buffer -> Buffer) (payload : Buffer) :
  (4 <= length (crc32 payload))%nat ->
  (word ← readInt32LE (crc32 payload) 0;
   header ← writeInt32BE [x42; x45; x00; x00; x00; x00] word 2;
   Ok (header ++ payload)) = Ok (frame crc32 payload).
Proof.
  intros Hcrc. unfold frame.
  destruct (crc32 payload) as [|b0 [|b1 [|b2 [|b3 rest]]]] eqn:E; simpl in Hcrc; try lia.
  rewrite readInt32LE_4. unfold mbind, Result_bind, bindR.
  rewrite writeInt32BE_header
    by (apply to_int32_range, word_of_bytes_range).
  rewrite word_bytes_BE. done.
Qed.

(** ** What [serialize] writes *)

Lemma writeUInt8_at_0 (a : byte) (r : Buffer) (v : Z) :
  0 <= v <= 255 -> writeUInt8 (a :: r) v 0 = Ok (byte_of_Z v :: r).
Proof. intros. apply (writeUInt8_insert (a :: r) 0); [simpl; lia|done]. Qed.

Lemma writeUInt8_at_1 (a b : byte) (r : Buffer) (v : Z) :
  0 <= v <= 255 -> writeUInt8 (a :: b :: r) v 1 = Ok (a :: byte_of_Z v :: r).
Proof. intros. apply (writeUInt8_insert (a :: b :: r) 1); [simpl; lia|done]. Qed.

Lemma writeUInt8_at_2 (a b c : byte) (r : Buffer) (v : Z) :
  0 <= v <= 255 -> writeUInt8 (a :: b :: c :: r) v 2 = Ok (a :: b :: byte_of_Z v :: r).
Proof. intros. apply (writeUInt8_insert (a :: b :: c :: r) 2); [simpl; lia|done]. Qed.

Lemma Buffer_alloc_plus (s : jsstring) (k : nat) (z : Z) :
  z = Z.of_nat k ->
  Buffer_alloc (str_length s + z) = replicate k x00 ++ replicate (length s) x00.
Proof.
  intros ->. unfold Buffer_alloc, str_length.
  replace (Z.to_nat (Z.of_nat (length s) + Z.of_nat k)) with (k + length s)%nat by lia.
  apply replicate_add.
Qed.

Lemma Buffer_write_ascii (prefix : Buffer) (s : jsstring) (offset : Z) :
  offset = Z.of_nat (length prefix) ->
  ascii_text s ->
  Buffer_write (prefix ++ replicate (length s) x00) s offset
  = Ok (prefix ++ (byte_of_N <$> s)).
Proof.
  intros -> Hs. unfold Buffer_write, Buffer_length.
  rewrite length_app, length_replicate, Nat2Z.id.
  assert (E : (0 <=? Z.of_nat (length prefix))
              && (Z.of_nat (length prefix) <=? Z.of_nat (length prefix + length s)) = true).
  { apply andb_true_intro. split; apply Z.leb_le; lia. }
  rewrite E. f_equal. unfold blit.
  rewrite utf8_chars_ascii by done.
  rewrite utf8_fit_bytes by lia.
  rewrite take_app_length. f_equal.
  rewrite length_fmap, drop_ge; [by rewrite app_nil_r|].
  rewrite length_app, length_replicate. lia.
Qed.

Lemma serialize_login (crc32 : Buffer -> Buffer) (p : Packet) (pw : jsstring) :
  (forall b, (4 <= length (crc32 b))%nat) ->
  type p = Login -> password (attributes p) = Some pw -> ascii_text pw ->
  exists p', serialize crc32 p = Ok (frame crc32 ([xff; x00] ++ (byte_of_N <$> pw)), p').
Proof.
  intros Hcrc Ht Hpw Hascii. unfold serialize. rewrite Ht, Hpw.
  cbv beta iota zeta.
  rewrite (Buffer_alloc_plus pw 2) by done.
  cbn [replicate app PacketType_value].
  rewrite writeUInt8_at_0 by lia. cbn [mbind Result_bind bindR].
  rewrite writeUInt8_at_1 by lia. cbn [mbind Result_bind bindR].
  change (byte_of_Z 255 :: byte_of_Z 0 :: replicate (length pw) x00)
    with ([xff; x00] ++ replicate (length pw) x00).
  rewrite (Buffer_write_ascii [xff; x00]) by done. cbn [mbind Result_bind bindR].
  pose proof (serialize_header crc32 ([xff; x00] ++ (byte_of_N <$> pw)) (Hcrc _)) as Hh.
  unfold mbind, Result_bind, bindR in Hh.
  unfold mbind, Result_bind, bindR.
  destruct (readInt32LE _ 0) as [w|]; [|done].
  destruct (writeInt32BE _ w 2) as [h|]; [|done].
  injection Hh as Hh. eexists. rewrite <- Hh. reflexivity.
Qed.

Lemma serialize_command (crc32 : Buffer -> Buffer) (p : Packet) (cmd : jsstring) :
  (forall b, (4 <= length (crc32 b))%nat) ->
  type p = Command -> command (attributes p) = Some cmd -> ascii_text cmd ->
  0 <= Packet_sequence p <= 255 ->
  exists p', serialize crc32 p
             = Ok (frame crc32 ([xff; x01; byte_of_Z (Packet_sequence p)]
                                ++ (byte_of_N <$> cmd)), p').
Proof.
  intros Hcrc Ht Hcmd Hascii Hseq. unfold serialize. rewrite Ht, Hcmd.
  cbv beta iota zeta.
  rewrite (Buffer_alloc_plus cmd 3) by done.
  cbn [replicate app PacketType_value].
  rewrite writeUInt8_at_0 by lia. cbn [mbind Result_bind bindR].
  rewrite writeUInt8_at_1 by lia. cbn [mbind Result_bind bindR].
  rewrite writeUInt8_at_2 by lia. cbn [mbind Result_bind bindR].
  change (byte_of_Z 255 :: byte_of_Z 1 :: byte_of_Z (Packet_sequence p)
            :: replicate (length cmd) x00)
    with ([xff; x01; byte_of_Z (Packet_sequence p)] ++ replicate (length cmd) x00).
  rewrite (Buffer_write_ascii [xff; x01; byte_of_Z (Packet_sequence p)]) by done.
  cbn [mbind Result_bind bindR].
  pose proof (serialize_header crc32
                ([xff; x01; byte_of_Z (Packet_sequence p)] ++ (byte_of_N <$> cmd))
                (Hcrc _)) as Hh.
  unfold mbind, Result_bind, bindR in Hh |- *.
  destruct (readInt32LE _ 0) as [w|]; [|done].
  destruct (writeInt32BE _ w 2) as [h|]; [|done].
  injection Hh as Hh. eexists. rewrite <- Hh. reflexivity.
Qed.

Lemma serialize_ack (crc32 : Buffer -> Buffer) (p : Packet) :
  (forall b, (4 <= length (crc32 b))%nat) ->
  type p = Message -> 0 <= Packet_sequence p <= 255 ->
  exists p', serialize crc32 p
             = Ok (frame crc32 [xff; x02; byte_of_Z (Packet_sequence p)], p').
Proof.
  intros Hcrc Ht Hseq. unfold serialize. rewrite Ht.
  cbv beta iota zeta.
  change (Buffer_alloc 3) with [x00; x00; x00]. cbn [PacketType_value].
  rewrite writeUInt8_at_0 by lia. cbn [mbind Result_bind bindR].
  rewrite writeUInt8_at_1 by lia. cbn [mbind Result_bind bindR].
  rewrite writeUInt8_at_2 by lia. cbn [mbind Result_bind bindR].
  change (byte_of_Z 255) with xff. change (byte_of_Z 2) with x02.
  pose proof (serialize_header crc32 [xff; x02; byte_of_Z (Packet_sequence p)] (Hcrc _)) as Hh.
  unfold mbind, Result_bind, bindR in Hh |- *.
  destruct (readInt32LE _ 0) as [w|]; [|done].
  destruct (writeInt32BE _ w 2) as [h|]; [|done].
  injection Hh as Hh. eexists. rewrite <- Hh. reflexivity.
Qed.

(** ** What [FROM] reads in the payload *)

Lemma FROM_payload_login (b : byte) (rest : Buffer) :
  FROM_payload (xff :: x00 :: b :: rest) = Ok (login_reply (byte_to_Z b =? 1)).
Proof.
  unfold FROM_payload.
  rewrite (readUInt8_lookup _ 0 xff) by done. cbn [mbind Result_bind bindR].
  rewrite (readUInt8_lookup _ 1 x00) by done. cbn [mbind Result_bind bindR].
  rewrite (readUInt8_lookup _ 2 b) by done. done.
Qed.

Lemma FROM_payload_message (s : byte) (rest : Buffer) :
  FROM_payload (xff :: x02 :: s :: rest)
  = Ok (message_reply (byte_to_Z s) (Buffer_toString rest)).
Proof.
  unfold FROM_payload.
  rewrite (readUInt8_lookup _ 0 xff) by done. cbn [mbind Result_bind bindR].
  rewrite (readUInt8_lookup _ 1 x02) by done. cbn [mbind Result_bind bindR].
  rewrite (readUInt8_lookup _ 2 s) by done.
  change 3 with (Z.of_nat 3). rewrite slice_to_end. done.
Qed.

(** A command payload is a plain reply when it has at most four bytes or
    its byte 3 is not zero ... *)
Lemma FROM_payload_data (s : byte) (rest : Buffer) :
  (forall b rest', rest <> x00 :: b :: rest') ->
  FROM_payload (xff :: x01 :: s :: rest)
  = Ok (reply_with_data Command (Buffer_toString rest) (byte_to_Z s)).
Proof.
  intros Hrest. unfold FROM_payload.
  rewrite (readUInt8_lookup _ 0 xff) by done. cbn [mbind Result_bind bindR].
  rewrite (readUInt8_lookup _ 1 x01) by done. cbn [mbind Result_bind bindR].
  rewrite (readUInt8_lookup _ 2 s) by done. cbn [mbind Result_bind bindR].
  change (1 =? 0) with false. change (1 =? 1) with true. cbv iota.
  assert (E : (if 4 <? Buffer_length (xff :: x01 :: s :: rest)
               then b ← readUInt8 (xff :: x01 :: s :: rest) 3; Ok (b =? 0)
               else Ok false) = Ok false).
  { unfold Buffer_length.
    destruct rest as [|r0 [|r1 rest']]; cbn [length].
    - done.
    - done.
    - assert (E4 : (4 <? Z.of_nat (S (S (S (S (S (length rest'))))))) = true)
        by (apply Z.ltb_lt; lia).
      rewrite E4. rewrite (readUInt8_lookup _ 3 r0) by done.
      cbn [mbind Result_bind bindR]. f_equal.
      apply Z.eqb_neq. intros E0. apply (Hrest r1 rest'). f_equal.
      rewrite <- (byte_of_N_to_N r0). unfold byte_to_Z in E0.
      by replace (Byte.to_N r0) with 0%N by lia. }
  rewrite E. cbn [mbind Result_bind bindR].
  change 3 with (Z.of_nat 3). rewrite slice_to_end. done.
Qed.

(** ... a fragment when it has six bytes or more and byte 3 is zero ... *)
Lemma FROM_payload_fragment (s t i : byte) (rest : Buffer) :
  FROM_payload (xff :: x01 :: s :: x00 :: t :: i :: rest)
  = Ok (fragment (byte_to_Z s) (byte_to_Z t) (byte_to_Z i) rest).
Proof.
  unfold FROM_payload.
  rewrite (readUInt8_lookup _ 0 xff) by done. cbn [mbind Result_bind bindR].
  rewrite (readUInt8_lookup _ 1 x01) by done. cbn [mbind Result_bind bindR].
  rewrite (readUInt8_lookup _ 2 s) by done. cbn [mbind Result_bind bindR].
  change (1 =? 0) with false. change (1 =? 1) with true. cbv iota.
  assert (E4 : (4 <? Buffer_length (xff :: x01 :: s :: x00 :: t :: i :: rest)) = true)
    by (apply Z.ltb_lt; unfold Buffer_length; cbn [length]; lia).
  rewrite E4. rewrite (readUInt8_lookup _ 3 x00) by done. cbn [mbind Result_bind bindR].
  rewrite (readUInt8_lookup _ 4 t) by done. cbn [mbind Result_bind bindR].
  rewrite (readUInt8_lookup _ 5 i) by done. cbn [mbind Result_bind bindR].
  change 6 with (Z.of_nat 6). rewrite slice_to_end. done.
Qed.

(** ... and with exactly five bytes and byte 3 zero, the read of byte 5
    is out of range. *)
Lemma FROM_payload_short_fragment (s t : byte) :
  FROM_payload [xff; x01; s; x00; t] = Throw RangeError.
Proof.
  unfold FROM_payload.
  rewrite (readUInt8_lookup _ 0 xff) by done. cbn [mbind Result_bind bindR].
  rewrite (readUInt8_lookup _ 1 x01) by done. cbn [mbind Result_bind bindR].
  rewrite (readUInt8_lookup _ 2 s) by done. done.
Qed.

(** ** The codec: claims *)

Lemma sequence_in_range (p : Packet) :
  0 <= Packet_sequence p <= 255 -> sequence (attributes p) = Some (Packet_sequence p).
Proof.
  unfold Packet_sequence. destruct (sequence (attributes p)); simpl; [done|lia].
Qed.

(** C1, as the code has it. For a sendable packet whose text is ASCII (a
    Login Request with a non-empty password, a Command Request whose
    command does not begin with a NUL character followed by another
    character, a Message-Reply ack), [FROM] accepts what [serialize] wrote
    and returns the packet [decoded p]: the type is that of [p]; the
    direction is Reply whatever the direction of [p] was; the sequence of a
    Command or Message is that of [p]; the command text comes back as
    [data]; and neither [password] nor [command] is set (a Login carries
    the flag [login] instead). *)
Theorem decode_serialize (crc32 : Buffer -> Buffer) (p : Packet) :
  (forall b, (4 <= length (crc32 b))%nat) ->
  sendable p ->
  ascii_text (default [] (password (attributes p))) ->
  ascii_text (default [] (command (attributes p))) ->
  (type p = Login -> password (attributes p) <> Some []) ->
  (type p = Command ->
   forall u rest, command (attributes p) <> Some (0%N :: u :: rest)) ->
  decode_encoded crc32 p = Ok (decoded p) /\
  type (decoded p) = type p /\
  direction (decoded p) = Reply /\
  (type p <> Login -> sequence (attributes (decoded p)) = sequence (attributes p)) /\
  (type p = Command -> data (attributes (decoded p)) = command (attributes p)) /\
  password (attributes (decoded p)) = None /\
  command (attributes (decoded p)) = None.
Proof.
  intros Hcrc Hsend Hpw Hcmd Hnonempty Hplain.
  unfold sendable in Hsend. unfold decode_encoded, decoded.
  destruct (type p) eqn:Ht.
  - (* Login *)
    destruct (direction p); try done.
    destruct Hsend as [pw Epw]. rewrite Epw in *. simpl in Hpw.
    destruct (serialize_login crc32 p pw Hcrc Ht Epw Hpw) as [p' ->].
    cbn [mbind Result_bind bindR].
    destruct pw as [|u pw]; [by destruct Hnonempty|].
    rewrite FROM_frame by (try apply Hcrc; simpl; lia).
    cbn [fmap list_fmap app]. rewrite FROM_payload_login.
    repeat split; try done.
    do 2 f_equal. inversion Hpw as [|? ? Hu _]; subst. cbv beta in Hu.
    unfold byte_to_Z. rewrite to_N_byte_of_N by lia. simpl.
    destruct (Z.eqb_spec (Z.of_N u) 1) as [E|E].
    + rewrite bool_decide_eq_true_2; [done|]. f_equal. lia.
    + rewrite bool_decide_eq_false_2; [done|]. intros [= ->]. done.
  - (* Command *)
    destruct (direction p); try done.
    destruct Hsend as [[cmd Ecmd] Hseq]. rewrite Ecmd in *. simpl in Hcmd.
    destruct (serialize_command crc32 p cmd Hcrc Ht Ecmd Hcmd Hseq) as [p' ->].
    cbn [mbind Result_bind bindR].
    rewrite FROM_frame by (try apply Hcrc; simpl; lia).
    cbn [app]. rewrite FROM_payload_data.
    + rewrite utf8_decode_ascii by done.
      rewrite byte_to_Z_of_Z, Z.mod_small by lia.
      repeat split; try done. intros _. simpl. by rewrite sequence_in_range.
    + intros b rest' E. destruct cmd as [|u0 [|u1 cmd]]; try done.
      injection E as E0 _ _. apply (Hplain eq_refl u1 cmd). do 2 f_equal.
      inversion Hcmd as [|? ? Hu _]; subst. cbv beta in Hu.
      rewrite <- (to_N_byte_of_N u0) by lia. by rewrite E0.
  - (* Message *)
    destruct (direction p); try done.
    destruct (serialize_ack crc32 p Hcrc Ht Hsend) as [p' ->].
    cbn [mbind Result_bind bindR].
    rewrite FROM_frame by (try apply Hcrc; simpl; lia).
    rewrite FROM_payload_message.
    rewrite byte_to_Z_of_Z, Z.mod_small by lia.
    repeat split; try done. intros _. simpl. by rewrite sequence_in_range.
Qed.

Lemma decode_serialize_witness :
  decode_encoded crc32_ieee (command_request (lit "players") 0)
  = Ok (reply_with_data Command (lit "players") 0).
Proof.
  apply (decode_serialize crc32_ieee (command_request (lit "players") 0)).
  - apply crc32_ieee_length.
  - simpl. split; [by eexists|]. unfold Packet_sequence. simpl. lia.
  - simpl. constructor.
  - simpl. unfold lit. simpl. repeat constructor.
  - simpl. discriminate.
  - simpl. discriminate.
Defined.

(** C1 as stated fails: the Login Request with password "test" is
    sendable, and what [FROM] makes of its encoding is a Reply that carries
    no password. *)
Lemma round_trip_login_fails :
  sendable (login_request (lit "test")) /\
  ~ round_trip crc32_ieee (login_request (lit "test")).
Proof.
  split.
  - simpl. by eexists.
  - intros (q & Hq & Hsame).
    assert (E : decode_encoded crc32_ieee (login_request (lit "test"))
                = Ok (login_reply false)) by (vm_compute; reflexivity).
    rewrite E in Hq. injection Hq as <-.
    destruct Hsame as (_ & Hdir & _). discriminate Hdir.
Qed.

Lemma frame_length (crc32 : Buffer -> Buffer) (payload : Buffer) :
  length (frame crc32 payload) = (6 + length payload)%nat.
Proof.
  unfold frame. destruct (crc32 payload) as [|b0 [|b1 [|b2 [|b3 rest]]]]; done.
Qed.

(** C10. A Login Request whose password is the empty string is
    serialized: the buffer is the frame of the payload FF 00, that is the
    header [BE], the four bytes of the checksum of the payload (most
    significant first) and the payload, 8 bytes in all, and the packet
    comes out with its [sent] count one up. [FROM] rejects that buffer
    with the PacketError for buffers under 9 bytes. *)
Theorem empty_password_not_decodable (crc32 : Buffer -> Buffer) (p : Packet) :
  (forall b, (4 <= length (crc32 b))%nat) ->
  type p = Login -> direction p = Request -> password (attributes p) = Some [] ->
  sendable p /\
  exists buffer b0 b1 b2 b3,
    serialize crc32 p = Ok (buffer, sent_once_more p) /\
    buffer = frame crc32 [xff; x00] /\
    take 4 (crc32 [xff; x00]) = [b0; b1; b2; b3] /\
    buffer = [x42; x45; b3; b2; b1; b0; xff; x00] /\
    length buffer = 8%nat /\
    FROM crc32 buffer = Throw (PacketError "Packet must contain at least 9 bytes").
Proof.
  intros Hcrc Ht Hd Hpw. split.
  { unfold sendable. rewrite Ht, Hd, Hpw. by eexists. }
  destruct (serialize_login crc32 p [] Hcrc Ht Hpw) as [p' Hs]; [constructor|].
  assert (Hp' : p' = sent_once_more p).
  { pose proof Hs as Hs'. unfold serialize, mbind, Result_bind in Hs'.
    repeat match type of Hs' with
           | bindR ?r _ = _ => destruct r; cbn [bindR] in Hs'; [|done]
           end.
    injection Hs' as _ <-.
    unfold sent_once_more, Packet_sent. f_equal. f_equal.
    destruct (sent (attributes p)) as [n|]; [|done]. simpl.
    destruct (Z.eqb_spec n 0) as [E|E]; [by rewrite E|done]. }
  subst p'. simpl in Hs.
  pose proof (Hcrc [xff; x00]) as Hlen.
  destruct (crc32 [xff; x00]) as [|b0 [|b1 [|b2 [|b3 rest]]]] eqn:Hc;
    try (simpl in Hlen; lia).
  exists (frame crc32 [xff; x00]), b0, b1, b2, b3.
  split; [exact Hs|]. split; [done|]. split; [done|].
  assert (Hf : frame crc32 [xff; x00] = [x42; x45; b3; b2; b1; b0; xff; x00])
    by (unfold frame; by rewrite Hc).
  split; [exact Hf|]. rewrite Hf. split; [done|]. done.
Qed.

Lemma empty_password_not_decodable_witness :
  exists buffer b0 b1 b2 b3,
    serialize crc32_ieee (login_request []) = Ok (buffer, sent_once_more (login_request [])) /\
    buffer = frame crc32_ieee [xff; x00] /\
    take 4 (crc32_ieee [xff; x00]) = [b0; b1; b2; b3] /\
    buffer = [x42; x45; b3; b2; b1; b0; xff; x00] /\
    length buffer = 8%nat /\
    FROM crc32_ieee buffer = Throw (PacketError "Packet must contain at least 9 bytes").
Proof.
  apply (empty_password_not_decodable crc32_ieee (login_request [])).
  - apply crc32_ieee_length.
  - reflexivity.
  - reflexivity.
  - reflexivity.
Defined.

(** C9. A packet that [FROM] returns is a Reply or a Split, never a
    Request, and it is a Split exactly when it is a Command whose payload
    is longer than 4 bytes and has 0x00 as byte 3. *)
Theorem FROM_direction (crc32 : Buffer -> Buffer) (buffer : Buffer) (p : Packet) :
  FROM crc32 buffer = Ok p ->
  let payload := slice buffer 6 (Buffer_length buffer) in
  (direction p = Reply \/ direction p = Split) /\
  direction p <> Request /\
  (direction p = Split <->
   type p = Command /\ 4 < Buffer_length payload /\ readUInt8 payload 3 = Ok 0).
Proof.
  intros H payload. unfold FROM in H.
  destruct (Buffer_length buffer <? 9); [done|].
  destruct (bool_decide _); [done|].
  destruct (readInt32BE buffer 2) as [checksum|]; [|done].
  cbn [mbind Result_bind bindR] in H.
  destruct (readInt32LE _ 0) as [crc|]; [|done].
  cbn [mbind Result_bind bindR] in H.
  destruct (bool_decide _); [done|].
  fold payload in H. unfold FROM_payload in H.
  destruct (readUInt8 payload 0) as [flag|]; [|done].
  cbn [mbind Result_bind bindR] in H.
  destruct (bool_decide _); [done|].
  destruct (readUInt8 payload 1) as [t|]; [|done].
  cbn [mbind Result_bind bindR] in H.
  destruct (t =? 0).
  { destruct (readUInt8 payload 2); [|done]. injection H as <-. simpl.
    split; [by left|]. split; [done|]. split; [done|]. by intros [? _]. }
  destruct (t =? 1).
  { destruct (readUInt8 payload 2) as [s|]; [|done].
    cbn [mbind Result_bind bindR] in H.
    destruct (Z.ltb_spec 4 (Buffer_length payload)) as [Hlen|Hlen].
    - destruct (readUInt8 payload 3) as [b|]; [|done].
      cbn [mbind Result_bind bindR] in H.
      destruct (Z.eqb_spec b 0) as [Eb|Hb].
      + rewrite Eb. destruct (readUInt8 payload 4); [|done].
        cbn [mbind Result_bind bindR] in H.
        destruct (readUInt8 payload 5); [|done]. injection H as <-. simpl.
        split; [by right|]. split; [done|]. done.
      + injection H as <-. simpl.
        split; [by left|]. split; [done|]. split; [done|].
        intros (_ & _ & [= ?]). done.
    - cbn [mbind Result_bind bindR] in H. injection H as <-. simpl.
      split; [by left|]. split; [done|]. split; [done|].
      intros (_ & ? & _). lia. }
  destruct (t =? 2); [|done].
  destruct (readUInt8 payload 2); [|done]. injection H as <-. simpl.
  split; [by left|]. split; [done|]. split; [done|]. by intros [? _].
Qed.

Lemma FROM_direction_witness :
  direction (fragment 3 2 0 [x68; x69]) = Split <->
  type (fragment 3 2 0 [x68; x69]) = Command /\
  4 < Buffer_length [xff; x01; x03; x00; x02; x00; x68; x69] /\
  readUInt8 [xff; x01; x03; x00; x02; x00; x68; x69] 3 = Ok 0.
Proof.
  apply (FROM_direction crc32_ieee
           (frame crc32_ieee [xff; x01; x03; x00; x02; x00; x68; x69])
           (fragment 3 2 0 [x68; x69])).
  vm_compute. reflexivity.
Defined.

(** C8 fails on the code for a datagram whose payload is a Command of
    exactly five bytes with 0x00 as byte 3: it has 11 bytes, the header
    text, a matching checksum, the 0xFF flag and a known type, and [FROM]
    neither returns a packet nor throws a PacketError or UnknownPacketType:
    reading byte 5 of the payload is out of range. *)
Theorem FROM_short_fragment_out_of_range :
  let payload := [xff; x01; x00; x00; x02] in
  let buffer := frame crc32_ieee payload in
  Buffer_length buffer = 11 /\
  Buffer_toString (slice buffer 0 2) = lit "BE" /\
  slice buffer 6 (Buffer_length buffer) = payload /\
  readInt32BE buffer 2 = readInt32LE (crc32_ieee payload) 0 /\
  readUInt8 payload 0 = Ok 0xFF /\
  readUInt8 payload 1 = Ok (PacketType_value Command) /\
  FROM crc32_ieee buffer = Throw RangeError.
Proof. vm_compute. repeat split; reflexivity. Qed.

(** The same for every checksum function and every such payload. *)
Lemma FROM_short_fragment (crc32 : Buffer -> Buffer) (s t : byte) :
  (forall b, (4 <= length (crc32 b))%nat) ->
  FROM crc32 (frame crc32 [xff; x01; s; x00; t]) = Throw RangeError.
Proof.
  intros Hcrc. rewrite FROM_frame by (try apply Hcrc; simpl; lia).
  apply FROM_payload_short_fragment.
Qed.

(** Apart from that case, C8 is what the code does. With
    [framed] for "at least 9 bytes, header text BE, matching checksum, flag
    0xFF" and [short] for "a Command payload of exactly five bytes with
    0x00 as byte 3": [FROM] throws a PacketError exactly when the buffer is
    not framed, UnknownPacketType exactly when it is framed with a type
    byte other than 0, 1, 2, a RangeError exactly when it is framed and
    short, and returns a packet of the type of the type byte otherwise. *)
Lemma FROM_outcome (crc32 : Buffer -> Buffer) (buffer : Buffer) :
  (forall b, (4 <= length (crc32 b))%nat) ->
  let payload := slice buffer 6 (Buffer_length buffer) in
  let framed :=
    9 <= Buffer_length buffer /\ take 2 buffer = [x42; x45] /\
    readInt32BE buffer 2 = readInt32LE (crc32 payload) 0 /\
    readUInt8 payload 0 = Ok 0xFF in
  let short :=
    readUInt8 payload 1 = Ok 1 /\ Buffer_length payload = 5 /\
    readUInt8 payload 3 = Ok 0 in
  match FROM crc32 buffer with
  | Ok p => framed /\ readUInt8 payload 1 = Ok (PacketType_value (type p)) /\ ~ short
  | Throw (PacketError _) => ~ framed
  | Throw (UnknownPacketType t) =>
    framed /\ readUInt8 payload 1 = Ok t /\ t <> 0 /\ t <> 1 /\ t <> 2
  | Throw RangeError => framed /\ short
  | Throw _ => False
  end.
Proof.
  intros Hcrc payload framed short. unfold FROM.
  destruct (Z.ltb_spec (Buffer_length buffer) 9) as [Hlen|Hlen].
  { intros (? & _). lia. }
  destruct buffer as [|b0 [|b1 [|h1 [|h2 [|h3 [|h4 [|f [|t [|x rest]]]]]]]]];
    try (unfold Buffer_length in Hlen; simpl in Hlen; lia).
  change (slice (b0 :: b1 :: h1 :: h2 :: h3 :: h4 :: f :: t :: x :: rest) 0 2)
    with [b0; b1].
  assert (Epay : payload = f :: t :: x :: rest).
  { unfold payload. change 6 with (Z.of_nat 6). by rewrite slice_to_end. }
  fold payload. clearbody payload. subst payload.
  destruct (readInt32LE_crc (crc32 (f :: t :: x :: rest)) (Hcrc _)) as (w & Hw & _).
  assert (Hsum : readInt32BE (b0 :: b1 :: h1 :: h2 :: h3 :: h4 :: f :: t :: x :: rest) 2
                 = Ok (to_int32 (word_of_bytes h1 h2 h3 h4))).
  { unfold readInt32BE, Buffer_length. cbn [length].
    assert (E : (2 + 4 <=? Z.of_nat (S (S (S (S (S (S (S (S (S (length rest))))))))))) = true)
      by (apply Z.leb_le; lia).
    by rewrite E. }
  assert (Hf : readUInt8 (f :: t :: x :: rest) 0 = Ok (byte_to_Z f))
    by (apply (readUInt8_lookup _ 0 f); done).
  assert (Ht : readUInt8 (f :: t :: x :: rest) 1 = Ok (byte_to_Z t))
    by (apply (readUInt8_lookup _ 1 t); done).
  assert (Hx : readUInt8 (f :: t :: x :: rest) 2 = Ok (byte_to_Z x))
    by (apply (readUInt8_lookup _ 2 x); done).
  subst framed short. cbv zeta.
  rewrite Hsum, Hw, Hf, Ht. cbn [mbind Result_bind bindR take].
  case_bool_decide as Hhead.
  { intros (_ & E & _). apply Hhead, header_text. by injection E as -> ->. }
  apply header_text in Hhead as [-> ->].
  case_bool_decide as Hcheck.
  { intros (_ & _ & E & _). congruence. }
  unfold FROM_payload. rewrite Hf, Ht. cbn [mbind Result_bind bindR].
  case_bool_decide as Hflag.
  { intros (_ & _ & _ & E). congruence. }
  assert (Hframed : 9 <= Buffer_length (x42 :: x45 :: h1 :: h2 :: h3 :: h4 :: f :: t :: x :: rest)
                    /\ [x42; x45] = [x42; x45]
                    /\ Ok (to_int32 (word_of_bytes h1 h2 h3 h4)) = Ok w
                    /\ Ok (byte_to_Z f) = Ok 255)
    by (repeat split; [done|congruence|congruence]).
  destruct (Z.eqb_spec (byte_to_Z t) 0) as [E0|E0].
  { rewrite Hx. cbn [mbind Result_bind bindR]. simpl type. rewrite E0.
    split; [done|]. split; [done|]. by intros [[= ?] _]. }
  destruct (Z.eqb_spec (byte_to_Z t) 1) as [E1|E1].
  { rewrite Hx. cbn [mbind Result_bind bindR]. rewrite E1.
    unfold Buffer_length. cbn [length].
    destruct rest as [|r0 [|r1 [|r2 rest]]]; cbn [length].
    - simpl. split; [done|]. split; [done|]. by intros (_ & ? & _).
    - simpl. split; [done|]. split; [done|]. by intros (_ & ? & _).
    - change (4 <? Z.of_nat 5) with true. cbv iota.
      rewrite (readUInt8_lookup _ 3 r0) by done. cbn [mbind Result_bind bindR].
      destruct (Z.eqb_spec (byte_to_Z r0) 0) as [Er|Er].
      + rewrite (readUInt8_lookup _ 4 r1) by done. simpl. rewrite Er. done.
      + simpl. split; [done|]. split; [done|]. intros (_ & _ & [= ?]). done.
    - assert (E4 : (4 <? Z.of_nat (S (S (S (S (S (S (length rest))))))))= true)
        by (apply Z.ltb_lt; lia).
      rewrite E4.
      rewrite (readUInt8_lookup _ 3 r0) by done. cbn [mbind Result_bind bindR].
      destruct (Z.eqb_spec (byte_to_Z r0) 0) as [Er|Er].
      + rewrite (readUInt8_lookup _ 4 r1) by done. cbn [mbind Result_bind bindR].
        rewrite (readUInt8_lookup _ 5 r2) by done. simpl.
        split; [done|]. split; [done|]. intros (_ & ? & _). lia.
      + simpl. split; [done|]. split; [done|]. intros (_ & _ & [= ?]). done. }
  destruct (Z.eqb_spec (byte_to_Z t) 2) as [E2|E2].
  { rewrite Hx. cbn [mbind Result_bind bindR]. simpl type. rewrite E2.
    split; [done|]. split; [done|]. by intros [[= ?] _]. }
  done.
Qed.

(** ** The sequence counter *)

Lemma Connection_sequence_next (c : Connection) :
  -1 <= info_sequence c <= 255 ->
  Connection_sequence c
  = (Ok ((info_sequence c + 1) mod 256),
     with_sequence ((info_sequence c + 1) mod 256) c).
Proof.
  intros Hs. unfold Connection_sequence, mbind, M_bind, this, modify, mret, M_ret.
  destruct (Z.leb_spec 255 (info_sequence c)) as [H|H]; simpl.
  - replace (info_sequence c) with 255 by lia. done.
  - rewrite Z.mod_small by lia. by destruct c.
Qed.

Lemma sequence_reads_from (n : nat) (c : Connection) :
  -1 <= info_sequence c <= 255 ->
  sequence_reads n c
  = (fun k => Ok ((info_sequence c + 1 + k) mod 256)) <$> seqZ 0 (Z.of_nat n).
Proof.
  revert c. induction n as [|n IH]; intros c Hs; [done|].
  cbn [sequence_reads]. rewrite Connection_sequence_next by done.
  rewrite seqZ_cons by lia. cbn [fmap list_fmap].
  rewrite Z.add_0_r. f_equal.
  rewrite IH.
  - replace (Z.pred (Z.of_nat (S n))) with (Z.of_nat n) by lia.
    change (Z.succ 0) with (1 + 0). rewrite <- (fmap_add_seqZ 1 0).
    rewrite <- list_fmap_compose. apply list_fmap_ext. intros _ k _. simpl.
    f_equal. rewrite <- Z.add_assoc, Zplus_mod_idemp_l. f_equal; lia.
  - simpl. pose proof (Z.mod_pos_bound (info_sequence c + 1) 256). lia.
Qed.

(** The getter of the current connection wraps. On a connection whose
    counter is at its start value -1 (a new connection, or one that
    [cleanup] has reset), 256 reads of [sequence] give 0, 1, ..., 255 and
    the 257th gives 0; the [n] first reads are the numbers [k mod 256] for
    [k] below [n]; and in whatever state the counter is, a read gives
    (previous + 1) mod 256 and stores it. *)
Lemma sequence_wraps (c : Connection) :
  info_sequence c = -1 ->
  sequence_reads 257 c = (Ok <$> seqZ 0 256) ++ [Ok 0] /\
  (forall n, sequence_reads n c = (fun k => Ok (k mod 256)) <$> seqZ 0 (Z.of_nat n)) /\
  (forall c', -1 <= info_sequence c' <= 255 ->
     Connection_sequence c'
     = (Ok ((info_sequence c' + 1) mod 256),
        with_sequence ((info_sequence c' + 1) mod 256) c')).
Proof.
  intros Hc.
  assert (Hn : forall n, sequence_reads n c
                         = (fun k => Ok (k mod 256)) <$> seqZ 0 (Z.of_nat n)).
  { intros n. rewrite sequence_reads_from by lia. apply list_fmap_ext.
    intros _ k _. simpl. f_equal. f_equal. lia. }
  split; [|split; [exact Hn|apply Connection_sequence_next]].
  rewrite Hn. vm_compute. reflexivity.
Qed.

Lemma sequence_wraps_witness :
  sequence_reads 257 (new_Connection true (lit "test") default_options)
  = (Ok <$> seqZ 0 256) ++ [Ok 0].
Proof.
  apply (sequence_wraps (new_Connection true (lit "test") default_options)).
  reflexivity.
Defined.

(** C4 fails on the earlier getter. The getter of src/connection.ts
    resets the counter when it is above 255, where the current one resets it
    at 255: from the start value -1 its 256 first reads give 0, 1, ..., 255,
    the 257th gives 256 and only the 258th gives 0. The read after 255 is
    not (255 + 1) mod 256, and what it gives is no sequence number: the
    setter of [Packet] refuses it. The current getter gives 0 there. *)
Theorem legacy_sequence_overshoots :
  Legacy.reads 258 (-1) = seqZ 0 256 ++ [256; 0] /\
  Legacy.reads 257 (-1) !! 256%nat = Some 256 /\
  Legacy.sequence 255 = (256, 256) /\
  (255 + 1) mod 256 = 0 /\
  Packet_set_sequence (command_request [] 0) 256 = Throw (InvalidSequence 256) /\
  sequence_reads 257 (new_Connection true (lit "test") default_options) !! 256%nat
  = Some (Ok 0).
Proof. repeat split; vm_compute; reflexivity. Qed.

(** ** The pending table *)

Lemma store_occupied (c : Connection) (st st' : IPacketPromise) :
  type (packet st') = Command ->
  js_get (packets c) (Packet_sequence (packet st')) = Some st ->
  store st' c = (Throw PacketOverflow, c).
Proof.
  intros Ht Hget. unfold store, mbind, M_bind, this. by rewrite Ht, Hget.
Qed.


Lemma js_get_set {A} (arr : JsArray A) (i : Z) (v : A) :
  js_get (js_set arr i v) i = Some v.
Proof. unfold js_get, js_set. simpl. apply lookup_insert_eq. Qed.



(** ** Promises, intervals and [cleanup] *)

Lemma promise_reject_run (id : nat) (reason : option Error) (c : Connection) :
  promise_reject id reason c
  = (Ok tt,
     if bool_decide (id ∈ pings c)
     then with_microtask (Emit_error reason)
            (with_pings (pings c ∖ {[id]}) (with_event (Rejected id reason) c))
     else with_event (Rejected id reason) c).
Proof.
  unfold promise_reject, emit, defer, mbind, M_bind, modify, this, mret, M_ret.
  simpl. by destruct (bool_decide (id ∈ pings c)).
Qed.

Lemma promise_resolve_run (id : nat) (value : IPacketResponse) (c : Connection) :
  promise_resolve id value c
  = (Ok tt,
     if bool_decide (id ∈ pings c)
     then (if truthy (response_received value ≫= λ p, timestamp (attributes p))
              && truthy (timestamp (attributes (response_sent value)))
           then with_microtask Emit_debug else (fun c => c))
            (with_pings (pings c ∖ {[id]}) (with_event (Resolved id value) c))
     else with_event (Resolved id value) c).
Proof.
  unfold promise_resolve, emit, defer, mbind, M_bind, modify, this, mret, M_ret.
  simpl. destruct (bool_decide (id ∈ pings c)); [|done].
  by destruct (truthy _ && truthy _).
Qed.

Lemma same_object_refl (c : Connection) : same_object c c.
Proof. by repeat split. Qed.

Lemma same_object_trans (c c' c'' : Connection) :
  same_object c c' -> same_object c' c'' -> same_object c c''.
Proof.
  unfold same_object. intros H H'.
  destruct H as (?&?&?&?&?&?&?&?&?&?), H' as (?&?&?&?&?&?&?&?&?&?).
  repeat split; congruence.
Qed.

(** A call of [resolve] or [reject] leaves the connection object alone: an
    event is recorded, the promise is no ping any more, and if it was one,
    what its handler emits waits in the microtasks. *)
Lemma promise_resolve_state (id : nat) (value : IPacketResponse) (c : Connection) :
  exists c', promise_resolve id value c = (Ok tt, c') /\
    same_object c c' /\
    keepAlive_timer c' = keepAlive_timer c /\ timeout_timer c' = timeout_timer c /\
    intervals c' = intervals c /\
    events c' = events c ++ [Resolved id value] /\
    microtasks c'
    = microtasks c
      ++ (if bool_decide (id ∈ pings c)
             && truthy (response_received value ≫= λ p, timestamp (attributes p))
             && truthy (timestamp (attributes (response_sent value)))
          then [Emit_debug] else []) /\
    pings c' = pings c ∖ {[id]}.
Proof.
  rewrite promise_resolve_run. eexists. split; [reflexivity|].
  case_bool_decide as Hin.
  - destruct (truthy _ && truthy _) eqn:E; rewrite andb_true_l, E; simpl;
      rewrite ?app_nil_r; repeat split.
  - simpl. rewrite app_nil_r. repeat split. apply set_eq. intros x.
    rewrite elem_of_difference, elem_of_singleton.
    split; [intros Hx; split; [done|by intros ->]|by intros [? _]].
Qed.

Lemma promise_reject_state (id : nat) (reason : option Error) (c : Connection) :
  exists c', promise_reject id reason c = (Ok tt, c') /\
    same_object c c' /\
    keepAlive_timer c' = keepAlive_timer c /\ timeout_timer c' = timeout_timer c /\
    intervals c' = intervals c /\
    events c' = events c ++ [Rejected id reason] /\
    microtasks c'
    = microtasks c ++ (if bool_decide (id ∈ pings c) then [Emit_error reason] else []) /\
    pings c' = pings c ∖ {[id]}.
Proof.
  rewrite promise_reject_run. eexists. split; [reflexivity|].
  case_bool_decide as Hin.
  - simpl. repeat split.
  - simpl. rewrite app_nil_r. repeat split. apply set_eq. intros x.
    rewrite elem_of_difference, elem_of_singleton.
    split; [intros Hx; split; [done|by intros ->]|by intros [? _]].
Qed.

(** The call of [resolve] or [reject] in the goal is run: the state after
    it is a new variable, with what is known of it. *)
Ltac settle c' H :=
  match goal with
  | |- context [promise_resolve ?id ?v ?c] =>
    destruct (promise_resolve_state id v c) as (c' & -> & H)
  | |- context [promise_reject ?id ?r ?c] =>
    destruct (promise_reject_state id r c) as (c' & -> & H)
  end.

(** The loop of [cleanup]: every entry is rejected, and each ping among
    them has its handler wait in the microtasks. *)
Lemma reject_each_run (reason : Error) (entries : list (option IPacketPromise))
    (c : Connection) :
  exists c', reject_each reason entries c = (Ok tt, c') /\
    same_object c c' /\
    keepAlive_timer c' = keepAlive_timer c /\ timeout_timer c' = timeout_timer c /\
    intervals c' = intervals c /\
    events c' = events c ++ reject_all reason entries /\
    microtasks c'
    = microtasks c ++ ((fun _ => Emit_error (Some reason)) <$> caught (pings c) entries) /\
    pings c' = pings c ∖ list_to_set (caught (pings c) entries).
Proof.
  revert c. induction entries as [|[st|] entries IH]; intros c.
  - exists c. simpl. rewrite !app_nil_r. split; [done|].
    split; [apply same_object_refl|]. repeat split. by rewrite difference_empty_L.
  - cbn [reject_each]. unfold mbind at 1, M_bind at 1.
    rewrite promise_reject_run.
    destruct (bool_decide (promise st ∈ pings c)) eqn:Hin.
    + destruct (IH (with_microtask (Emit_error (Some reason))
                      (with_pings (pings c ∖ {[promise st]})
                         (with_event (Rejected (promise st) (Some reason)) c))))
        as (c' & -> & Hsame & Hk & Ht & Hi & He & Hm & Hp).
      exists c'. split; [done|]. simpl in *. rewrite Hin.
      split; [exact Hsame|]. split; [done|]. split; [done|]. split; [done|].
      split; [by rewrite He, <- app_assoc|].
      split; [by rewrite Hm, <- app_assoc|].
      rewrite Hp. by rewrite difference_difference_l_L.
    + destruct (IH (with_event (Rejected (promise st) (Some reason)) c))
        as (c' & -> & Hsame & Hk & Ht & Hi & He & Hm & Hp).
      exists c'. split; [done|]. simpl in *. rewrite Hin.
      split; [exact Hsame|]. split; [done|]. split; [done|]. split; [done|].
      split; [by rewrite He, <- app_assoc|]. done.
  - cbn [reject_each]. destruct (IH c) as (c' & -> & H). by exists c'.
Qed.

(** [cleanup]: what it leaves. *)
Lemma cleanup_run (reason : Error) (c : Connection) :
  exists c', cleanup reason c = (Ok tt, c') /\
    socket_listening c' = socket_listening c /\ options c' = options c /\
    info_password c' = info_password c /\ info_lastPacket c' = info_lastPacket c /\
    promises c' = promises c /\ handles c' = handles c /\
    info_sequence c' = -1 /\ info_connected c' = Some false /\
    packets c' = new_Array 255 /\ multipart c' = fresh_multipart /\
    keepAlive_timer c' = None /\ timeout_timer c' = None /\
    intervals c' = cleared (keepAlive_timer c) (cleared (timeout_timer c) (intervals c)) /\
    events c' = events c ++ reject_all reason (js_values (packets c)) /\
    microtasks c'
    = microtasks c
      ++ ((fun _ => Emit_error (Some reason))
            <$> caught (pings c) (js_values (packets c))) /\
    pings c' = pings c ∖ list_to_set (caught (pings c) (js_values (packets c))).
Proof.
  destruct (timeout_timer c) as [t|] eqn:Et; destruct (keepAlive_timer c) as [k|] eqn:Ek;
    unfold cleanup; cbv [mbind M_bind this clearTimeout modify mret M_ret];
    rewrite ?Et; cbn [keepAlive_timer with_timeout_timer with_intervals]; rewrite ?Ek;
    cbn [packets with_keepAlive_timer with_timeout_timer with_intervals];
    match goal with
    | |- context [reject_each reason ?es ?c2] =>
      destruct (reject_each_run reason es c2)
        as (c3 & -> & Hsame & Hk & Ht & Hi & He & Hm & Hp)
    end;
    exists (with_reset c3); (split; [done|]);
    destruct Hsame as (Hl & Ho & Hpw & Hs & Hc & Hlp & Hpk & Hmp & Hpr & Hh);
    simpl in *; rewrite Hl, Ho, Hpw, Hlp, Hpr, Hh, Hk, Ht, Hi, He, Hm, Hp; done.
Qed.

(** [cleanup] puts the counter back to its start value. *)
Lemma cleanup_resets_sequence (reason : Error) (c : Connection) :
  info_sequence (snd (cleanup reason c)) = -1.
Proof.
  destruct (cleanup_run reason c) as (c' & -> & H). simpl. tauto.
Qed.

(** ** Multipart reassembly *)




#[local] Arguments js_get : simpl never.
#[local] Arguments js_set : simpl never.
#[local] Arguments js_clear : simpl never.
#[local] Arguments js_values : simpl never.
#[local] Arguments new_Array : simpl never.
#[local] Arguments resolve : simpl never.
#[local] Arguments Socket_send : simpl never.
#[local] Arguments Buffer_toString : simpl never.
#[local] Arguments promise_resolve : simpl never.
#[local] Arguments promise_reject : simpl never.

Section Reassembly.

Variable crc32 : Buffer -> Buffer.
Variable dgram_send : nat -> Buffer -> option Error.
Variable s : Z.
Variable parts : list Buffer.

Let t : Z := Z.of_nat (length parts).
Let frag (i : nat) : Packet := fragment s t (Z.of_nat i) (default [] (parts !! i)).












End Reassembly.




(** Closed statements about the example runs, by evaluation. *)
Ltac evaluate :=
  repeat match goal with |- _ /\ _ => split end;
  vm_compute; first [reflexivity | discriminate].

(** Membership in a list of events that is known in full. *)
Ltac no_such_event H :=
  repeat (apply elem_of_cons in H as [H|H]; [discriminate H|]);
  by apply not_elem_of_nil in H.


(** The reassembly table has the slots 0 to 254: a fragment at sequence
    255 makes [recieve] throw. *)
Lemma multipart_sequence_255_throws (crc32 : Buffer -> Buffer)
    (dgram_send : nat -> Buffer -> option Error) (c : Connection)
    (total index : Z) (bytes : Buffer) :
  multipart c = fresh_multipart ->
  fst (recieve crc32 dgram_send (fragment 255 total index bytes) c) = Throw TypeError.
Proof.
  intros Hm. unfold recieve, mbind, M_bind, modify, this, throw. simpl.
  change (Packet_sequence _) with 255. rewrite Hm.
  assert (E : js_get fresh_multipart 255 = None) by (vm_compute; reflexivity).
  by rewrite E.
Qed.

(** ** The timeout scheduler and the Login slot *)

(** C3 fails on the code. A connection configured with one attempt per
    packet has logged in and sent the command "players" (promise 1, at
    sequence 0, serialized once). At the next tick of the timeout scheduler
    the request is past the threshold and is not due for a resend, and it
    is completed, but with [undefined] as the reason, not with
    ServerTimeout. With the Login request (promise 0) in that position, the
    promise is rejected with InvalidPassword and the connection is torn
    down: [disconnected] is emitted and the schedulers are stopped (no
    interval is left running). *)
Theorem timeout_completes_without_ServerTimeout :
  let c := example_impatient_command in
  let c' := step crc32_ieee dgram_ok (Timeout_tick 5000) c in
  let l := example_impatient_login in
  let l' := step crc32_ieee dgram_ok (Timeout_tick 5000) l in
  (* the command is pending, past the threshold, and not due for a resend *)
  promise <$> js_get (packets c) 0 = Some 1%nat /\
  (fun p => type (packet p)) <$> js_get (packets c) 0 = Some Command /\
  (fun p => Packet_sent (packet p)) <$> js_get (packets c) 0 = Some 1 /\
  (fun p => timestamp (attributes (packet p))) <$> js_get (packets c) 0 = Some None /\
  packetTimeoutThresholded (options c) = 1 /\
  (* the tick completes it, without a reason *)
  events c' = events c ++ [Rejected 1 None] /\
  ~ Rejected 1 (Some ServerTimeout) ∈ events c' /\
  js_get (packets c') 0 = None /\
  (* the Login request in the same position *)
  promise <$> js_get (packets l) 0 = Some 0%nat /\
  (fun p => type (packet p)) <$> js_get (packets l) 0 = Some Login /\
  events l' = events l ++ [Rejected 0 (Some InvalidPassword);
                           Emit_disconnected InvalidPassword] /\
  timeout_timer l = Some 1%nat /\ running Timeout_scheduler l = true /\
  keepAlive_timer l' = None /\ timeout_timer l' = None /\ intervals l' = ∅.
Proof.
  intros c c' l l'.
  assert (Hev : events c' = events c ++ [Rejected 1 None]) by (vm_compute; reflexivity).
  do 5 (split; [vm_compute; reflexivity|]).
  split; [exact Hev|].
  split; [rewrite Hev; vm_compute; intros Hin; no_such_event Hin|].
  evaluate.
Qed.

(** The same branch of the callback with the default options, on a table
    put together by hand, where a request has been serialized five times
    and is not due for a sixth. *)
Lemma timeout_after_five_attempts :
  events (run (timeout_tick crc32_ieee dgram_ok 5500) example_retried) = [Rejected 1 None].
Proof. vm_compute. reflexivity. Qed.

(** The reason is read from the packet that was sent, which has none. *)
Lemma resolve_error_reason (crc32 : Buffer -> Buffer)
    (dgram_send : nat -> Buffer -> option Error) (c : Connection)
    (st : IPacketPromise) (e : Error) (s : Z) :
  js_get (packets c) s = Some st ->
  events (snd (resolve crc32 dgram_send (reply_with_error Command e s) c))
  = events c ++ [Rejected (promise st) (error (attributes (packet st)))].
Proof.
  intros Hst. unfold resolve. cbn [type reply_with_error new_Packet].
  unfold mbind, M_bind, modify, this, emit, mret, M_ret. simpl.
  change (Packet_sequence _) with s. rewrite Hst. simpl.
  settle c1 H1. simpl. tauto.
Qed.

(** C6 fails on the code. After [connect()] the Login request waits in
    slot 0 of the pending table, and storing a Command request with
    sequence 0 throws PacketOverflow. And with a Command request waiting at
    sequence 0 (promise 1), a Login Reply completes that request (with
    [connected: true]) and removes it. *)
Theorem login_slot_is_sequence_0 :
  let c := step crc32_ieee dgram_ok Connect (new_Connection true (lit "test") default_options) in
  let second := {| bytes := 9; packet := command_request [] 0; promise := 1 |} in
  let b := step crc32_ieee dgram_ok (Do_command (lit "players") true) example_connected in
  let b' := step crc32_ieee dgram_ok (Datagram login_accepted) b in
  (* the Login request is pending, and the store of a Command at 0 fails *)
  (fun p => type (packet p)) <$> js_get (packets c) 0 = Some Login /\
  store second c = (Throw PacketOverflow, c) /\
  (* a Command at 0 is pending, and a Login Reply completes it *)
  (fun p => type (packet p)) <$> js_get (packets b) 0 = Some Command /\
  promise <$> js_get (packets b) 0 = Some 1%nat /\
  omap (fun e => match e with
                 | Resolved id r => Some (id, response_connected r, response_received r)
                 | _ => None
                 end) (drop (length (events b)) (events b'))
  = [(1%nat, Some true, Some (login_reply true))] /\
  js_get (packets b') 0 = None.
Proof. intros c second b b'. evaluate. Qed.

(** In any state: a Login entry in the table blocks sequence 0. *)
Lemma store_command_0_blocked (c : Connection) (st second : IPacketPromise) :
  js_get (packets c) 0 = Some st -> type (packet st) = Login ->
  type (packet second) = Command -> Packet_sequence (packet second) = 0 ->
  store second c = (Throw PacketOverflow, c).
Proof.
  intros Hst _ Ht Hs. apply (store_occupied c st second Ht). by rewrite Hs.
Qed.

(** The earlier table kept the Login entry apart: there the same store
    succeeds. *)
Lemma legacy_store_command_0 (st second : IPacketPromise) :
  type (packet second) = Command -> Packet_sequence (packet second) = 0 ->
  Legacy.store second {| Legacy.login_slot := Some st; Legacy.command_slots := new_Array 0 |}
  = Ok {| Legacy.login_slot := Some st;
          Legacy.command_slots := js_set (new_Array 0) 0 second |}.
Proof.
  intros Ht Hs. unfold Legacy.store. rewrite Ht, Hs. reflexivity.
Qed.

(** ** The [connected] flag *)

Section Hoare.

Context {A B : Type}.

Lemma hoare_ret (P : Connection -> Prop) (E : Connection -> Prop) (a : A) :
  hoare P (mret a) (fun _ => P) E.
Proof. intros c Hc. exact Hc. Qed.

Lemma hoare_bind (P : Connection -> Prop) (m : M A) (k : A -> M B)
    (Q : A -> Connection -> Prop) (R : B -> Connection -> Prop) (E : Connection -> Prop) :
  hoare P m Q E -> (forall a, hoare (Q a) (k a) R E) -> hoare P (m ≫= k) R E.
Proof.
  intros Hm Hk c Hc. specialize (Hm c Hc). unfold mbind, M_bind.
  destruct (m c) as [[a|e] c']; [|exact Hm]. exact (Hk a c' Hm).
Qed.

Lemma hoare_consequence (P P' : Connection -> Prop) (m : M A)
    (Q Q' : A -> Connection -> Prop) (E E' : Connection -> Prop) :
  hoare P' m Q' E' ->
  (forall c, P c -> P' c) -> (forall a c, Q' a c -> Q a c) -> (forall c, E' c -> E c) ->
  hoare P m Q E.
Proof.
  intros Hm HP HQ HE c Hc. specialize (Hm c (HP c Hc)).
  destruct (m c) as [[a|e] c']; auto.
Qed.

Lemma hoare_try_catch (P : Connection -> Prop) (body : M A) (handler : Error -> M A)
    (Q : A -> Connection -> Prop) (E E' : Connection -> Prop) :
  hoare P body Q E' -> (forall e, hoare E' (handler e) Q E) ->
  hoare P (try_catch body handler) Q E.
Proof.
  intros Hb Hh c Hc. specialize (Hb c Hc). unfold try_catch.
  destruct (body c) as [[a|e] c']; [exact Hb|]. exact (Hh e c' Hb).
Qed.

End Hoare.

Lemma hoare_this (P : Connection -> Prop) (E : Connection -> Prop) :
  hoare P this (fun a c => a = c /\ P c) E.
Proof. intros c Hc. by split. Qed.

Lemma hoare_modify (P Q : Connection -> Prop) (E : Connection -> Prop)
    (f : Connection -> Connection) :
  (forall c, P c -> Q (f c)) -> hoare P (modify f) (fun _ => Q) E.
Proof. intros Hf c Hc. by apply Hf. Qed.

Lemma hoare_throw {A} (P : Connection -> Prop) (Q : A -> Connection -> Prop) (e : Error) :
  hoare P (throw e) Q P.
Proof. intros c Hc. exact Hc. Qed.

(** The flag and the pending table are all that [flag_is] looks at. *)
Lemma flag_is_same (b : bool) (c c' : Connection) :
  info_connected c' = info_connected c -> packets c' = packets c ->
  flag_is b c -> flag_is b c'.
Proof.
  unfold flag_is, login_waits, connected. intros -> ->. done.
Qed.

Lemma keeps_emit (b : bool) (e : Event) : keeps (flag_is b) (emit e).
Proof. apply hoare_modify. intros c. by apply flag_is_same. Qed.

Lemma keeps_ret {A} (P : Connection -> Prop) (a : A) : keeps P (mret a).
Proof. apply hoare_ret. Qed.

Lemma keeps_bind {A B} (P : Connection -> Prop) (m : M A) (k : A -> M B) :
  keeps P m -> (forall a, keeps P (k a)) -> keeps P (m ≫= k).
Proof. intros Hm Hk. by apply hoare_bind with (Q := fun _ => P). Qed.

Lemma hoare_this_bind {A} (P : Connection -> Prop) (k : Connection -> M A)
    (Q : A -> Connection -> Prop) (E : Connection -> Prop) :
  (forall c, P c -> hoare (fun c' => c' = c) (k c) Q E) ->
  hoare P (this ≫= k) Q E.
Proof.
  intros Hk c Hc. unfold mbind, M_bind, this. exact (Hk c Hc c eq_refl).
Qed.

(** Once the state that was read is no longer needed. *)
Lemma hoare_forget {A} (P : Connection -> Prop) (c : Connection) (m : M A)
    (Q : A -> Connection -> Prop) (E : Connection -> Prop) :
  P c -> hoare P m Q E -> hoare (fun c' => c' = c) m Q E.
Proof. intros Hc Hm c' ->. by apply Hm. Qed.

Lemma keeps_modify (b : bool) (f : Connection -> Connection) :
  (forall c, info_connected (f c) = info_connected c) ->
  (forall c, packets (f c) = packets c) ->
  keeps (flag_is b) (modify f).
Proof. intros Hi Hp. apply hoare_modify. intros c. by apply flag_is_same. Qed.

Lemma keeps_lift {A} (P : Connection -> Prop) (r : Result A) : keeps P (lift r).
Proof. destruct r; [apply hoare_ret|apply hoare_throw]. Qed.

(** After [c ← this] the continuation runs in the state [c]. *)
Lemma keeps_this {A} (P : Connection -> Prop) (k : Connection -> M A) :
  (forall c, P c -> hoare (fun c' => c' = c) (k c) (fun _ => P) P) ->
  keeps P (this ≫= k).
Proof.
  intros Hk c Hc. unfold mbind, M_bind, this. exact (Hk c Hc c eq_refl).
Qed.

(** What holds of the connection object whoever waits on its promises
    is kept by the calls of [resolve] and [reject]. *)
Lemma keeps_promise_resolve (P : Connection -> Prop) (id : nat) (value : IPacketResponse) :
  (forall c c', same_object c c' -> P c -> P c') -> keeps P (promise_resolve id value).
Proof.
  intros HP c Hc. destruct (promise_resolve_state id value c) as (c' & -> & Hsame & _).
  by apply (HP c).
Qed.

Lemma keeps_promise_reject (P : Connection -> Prop) (id : nat) (reason : option Error) :
  (forall c c', same_object c c' -> P c -> P c') -> keeps P (promise_reject id reason).
Proof.
  intros HP c Hc. destruct (promise_reject_state id reason c) as (c' & -> & Hsame & _).
  by apply (HP c).
Qed.

Lemma hoare_promise_resolve_object (c : Connection) (id : nat) (value : IPacketResponse) :
  hoare (fun c' => c' = c) (promise_resolve id value)
    (fun _ c' => same_object c c') (fun _ => False).
Proof.
  intros c' ->. by destruct (promise_resolve_state id value c) as (c' & -> & Hsame & _).
Qed.

Lemma hoare_promise_reject_object (c : Connection) (id : nat) (reason : option Error) :
  hoare (fun c' => c' = c) (promise_reject id reason)
    (fun _ c' => same_object c c') (fun _ => False).
Proof.
  intros c' ->. by destruct (promise_reject_state id reason c) as (c' & -> & Hsame & _).
Qed.

Lemma keeps_defer (P : Connection -> Prop) (e : Event) :
  (forall c c', same_object c c' -> P c -> P c') -> keeps P (defer e).
Proof. intros HP c Hc. apply (HP c); [by repeat split|done]. Qed.

Lemma flag_is_object (b : bool) (c c' : Connection) :
  same_object c c' -> flag_is b c -> flag_is b c'.
Proof.
  intros (_ & _ & _ & _ & Hi & _ & Hp & _). by apply flag_is_same.
Qed.

Lemma keeps_Connection_sequence (b : bool) : keeps (flag_is b) Connection_sequence.
Proof.
  intros c Hc. unfold Connection_sequence, mbind, M_bind, this, modify, mret, M_ret.
  destruct (255 <=? info_sequence c); simpl; revert Hc; by apply flag_is_same.
Qed.

(** A store keeps the invariant when a Login request is only stored
    while the flag is off. *)
Lemma flag_is_set (b : bool) (c c' : Connection) (i : Z) (st : IPacketPromise) :
  (type (packet st) = Login -> i = 0 /\ b = false) ->
  info_connected c' = info_connected c ->
  packets c' = js_set (packets c) i st ->
  flag_is b c -> flag_is b c'.
Proof.
  intros Hst Hi Hp [Hb Hw].
  assert (Hb' : connected c' = b) by (unfold connected in *; by rewrite Hi).
  split; [exact Hb'|].
  intros j st' Hj Ht. rewrite Hp in Hj. unfold js_get, js_set in Hj. simpl in Hj.
  destruct (decide (i = j)) as [<-|Hne].
  - rewrite lookup_insert_eq in Hj. injection Hj as <-.
    destruct (Hst Ht) as [-> ->]. split; [done|]. exact Hb'.
  - rewrite lookup_insert_ne in Hj by done.
    destruct (Hw j st' Hj Ht) as [-> Hf]. split; [done|]. congruence.
Qed.

Lemma flag_is_clear (b : bool) (c c' : Connection) (i : Z) :
  info_connected c' = info_connected c ->
  packets c' = js_clear (packets c) i ->
  flag_is b c -> flag_is b c'.
Proof.
  intros Hi Hp [Hb Hw].
  assert (Hb' : connected c' = b) by (unfold connected in *; by rewrite Hi).
  split; [exact Hb'|].
  intros j st' Hj Ht. rewrite Hp in Hj. unfold js_get, js_clear in Hj. simpl in Hj.
  apply lookup_delete_Some in Hj as [_ Hj].
  destruct (Hw j st' Hj Ht) as [-> Hf]. split; [done|]. congruence.
Qed.

Lemma keeps_store (b : bool) (st : IPacketPromise) :
  (type (packet st) = Login -> b = false) -> keeps (flag_is b) (store st).
Proof.
  intros Hst c Hc. unfold store, mbind, M_bind, this, modify, throw.
  destruct (type (packet st)) eqn:Ht.
  - destruct (js_get (packets c) 0); [exact Hc|].
    apply (flag_is_set b c _ 0 st); [|done|done|exact Hc].
    intros _. split; [done|]. by apply Hst.
  - destruct (js_get (packets c) _); [exact Hc|].
    apply (flag_is_set b c _ (Packet_sequence (packet st)) st); [|done|done|exact Hc].
    rewrite Ht. done.
  - exact Hc.
Qed.

Lemma serialize_type (crc32 : Buffer -> Buffer) (p p' : Packet) (buffer : Buffer) :
  serialize crc32 p = Ok (buffer, p') -> type p' = type p.
Proof.
  unfold serialize, mbind, Result_bind, bindR. intros H.
  destruct (match type p with Login => _ | Command => _ | Message => _ end); [|done].
  destruct (readInt32LE _ 0); [|done].
  destruct (writeInt32BE _ _ 2); [|done].
  by injection H as _ <-.
Qed.

Lemma Packet_set_sequence_type (p p' : Packet) (s : Z) :
  Packet_set_sequence p s = Ok p' -> type p' = type p.
Proof.
  unfold Packet_set_sequence. destruct ((s <? 0) || (255 <? s)); [done|].
  by intros [= <-].
Qed.

Section Flag.

Variable crc32 : Buffer -> Buffer.
Variable dgram_send : nat -> Buffer -> option Error.

(** [Socket.send] keeps the invariant when a Login request is only stored
    while the flag is off; the packet it hands back has the type of the
    packet it was given. *)
Lemma hoare_Socket_send (b : bool) (pkt : Packet) (resolve : bool) :
  (resolve = true -> type pkt = Login -> b = false) ->
  hoare (flag_is b) (Socket_send crc32 dgram_send pkt resolve)
    (fun r c' => flag_is b c' /\ type (fst r) = type pkt) (flag_is b).
Proof using Type.
  intros Hlogin c Hc.
  unfold Socket_send, mbind at 1, M_bind at 1, this.
  unfold mbind at 1, M_bind at 1, modify at 1.
  set (c1 := with_promises (S (promises c)) c).
  assert (Hc1 : flag_is b c1) by (revert Hc; by apply flag_is_same).
  clearbody c1.
  assert (Hassigned :
    hoare (flag_is b)
      (if bool_decide (type pkt = Command) && (Packet_sequence pkt <? 0)
       then s ← Connection_sequence; mret (Packet_set_sequence pkt s)
       else mret (Ok pkt))
      (fun r c' => flag_is b c' /\
                   match r with Ok p => type p = type pkt | Throw _ => True end)
      (flag_is b)).
  { destruct (bool_decide (type pkt = Command) && (Packet_sequence pkt <? 0)).
    - eapply hoare_bind; [apply keeps_Connection_sequence|].
      intros s c2 Hc2. simpl. split; [done|].
      destruct (Packet_set_sequence pkt s) eqn:E; [|done].
      by apply Packet_set_sequence_type in E.
    - intros c2 Hc2. simpl. done. }
  unfold mbind at 1, M_bind at 1.
  specialize (Hassigned c1 Hc1).
  destruct (_ c1) as [[assigned|e] c2]; [|exact Hassigned].
  destruct Hassigned as [Hc2 Hty].
  destruct assigned as [pkt1|e].
  { destruct (serialize crc32 pkt1) as [[buffer pkt2]|e] eqn:Hser.
    - apply serialize_type in Hser.
      destruct (dgram_send (promises c) buffer) as [err|].
      { simpl. split; [|congruence]. revert Hc2. by apply flag_is_same. }
      unfold mbind at 1, M_bind at 1, emit at 1, modify at 1.
      set (c3 := with_event _ c2).
      assert (Hc3 : flag_is b c3) by (revert Hc2; by apply flag_is_same).
      clearbody c3.
      destruct resolve.
      + unfold try_catch.
        pose proof (keeps_store b {| bytes := Buffer_length buffer; packet := pkt2;
                                    promise := promises c |}) as Hstore.
        unfold mbind at 1, M_bind at 1.
        specialize (Hstore ltac:(simpl; intros Ht; apply Hlogin; congruence) c3 Hc3).
        destruct (store _ c3) as [[[]|e] c4].
        * simpl. split; [done|congruence].
        * simpl. split; [|congruence]. revert Hstore. by apply flag_is_same.
      + simpl. split; [|congruence]. revert Hc3. by apply flag_is_same.
    - simpl. split; [|done]. revert Hc2. by apply flag_is_same. }
  simpl. split; [|done]. revert Hc2. by apply flag_is_same.
Qed.

Lemma keeps_Socket_send (b : bool) (pkt : Packet) (resolve : bool) :
  (resolve = true -> type pkt = Login -> b = false) ->
  keeps (flag_is b) (Socket_send crc32 dgram_send pkt resolve).
Proof using Type.
  intros H. eapply hoare_consequence; [by apply hoare_Socket_send|done|by intros ? ? []|done].
Qed.

Lemma keeps_send_and_report (b : bool) (pkt : Packet) :
  keeps (flag_is b) (send_and_report crc32 dgram_send pkt).
Proof using Type.
  unfold send_and_report. apply keeps_bind; [by apply keeps_Socket_send|].
  intros [pkt' [e|]]; [apply keeps_defer, flag_is_object|apply keeps_ret].
Qed.

(** [cleanup] and [disconnect] leave the flag off and the table empty. *)
Lemma flag_is_cleaned (c : Connection) :
  connected c = false -> packets c = new_Array 255 -> flag_is false c.
Proof.
  intros Hc Hp. split; [exact Hc|]. intros i st Hi _. rewrite Hp in Hi. done.
Qed.

Lemma hoare_disconnect (P : Connection -> Prop) (reason : Error) :
  hoare P (disconnect reason) (fun _ => flag_is false) (fun _ => False).
Proof using Type.
  intros c _. unfold disconnect. unfold mbind at 1, M_bind at 1.
  destruct (cleanup_run reason c)
    as (c' & -> & _ & _ & _ & _ & _ & _ & _ & Hi & Hp & _).
  unfold mbind, M_bind, modify, this, emit, mret, M_ret. simpl.
  destruct (reconnect (options c') && _); simpl; apply flag_is_cleaned; simpl;
    unfold connected; simpl; by rewrite ?Hi, ?Hp.
Qed.

(** A reply that is not a Login leaves the flag alone. *)
Lemma keeps_resolve (b : bool) (pkt : Packet) :
  type pkt <> Login -> keeps (flag_is b) (resolve crc32 dgram_send pkt).
Proof using Type.
  intros Ht. unfold resolve. destruct (type pkt); [done| |].
  - apply keeps_this. intros c Hc.
    eapply hoare_bind with (Q := fun _ => flag_is b).
    + intros c' ->.
      destruct (js_get (packets c) (Packet_sequence pkt)) as [st|]; [|exact Hc].
      set (m := if bool_decide (is_Some (error (attributes pkt))) then _ else _).
      assert (Hsettle : hoare (fun c' => c' = c) m
                          (fun _ c1 => same_object c c1) (fun _ => False)).
      { subst m. repeat case_bool_decide;
          first [apply hoare_promise_reject_object|apply hoare_promise_resolve_object]. }
      specialize (Hsettle c eq_refl). unfold mbind at 1, M_bind at 1.
      destruct (m c) as [[[]|e] c1]; [|done].
      destruct Hsettle as (_ & _ & _ & _ & Hi & _ & Hp & _).
      unfold mbind, M_bind, modify, mret, M_ret.
      apply (flag_is_clear b c _ (Packet_sequence pkt)); [exact Hi|done|exact Hc].
    + intros resolved. apply keeps_bind; [|intros; apply keeps_ret].
      destruct (data (attributes pkt)) as [[|]|]; try apply keeps_ret. apply keeps_emit.
  - apply keeps_bind; [apply keeps_emit|]. intros _.
    apply keeps_bind; [apply keeps_send_and_report|]. intros; apply keeps_ret.
Qed.

(** A Login reply sets the flag to what it says, and takes the entry of
    slot 0 out of the table. *)
Lemma hoare_resolve_Login (b : bool) (pkt : Packet) :
  type pkt = Login ->
  hoare (flag_is b) (resolve crc32 dgram_send pkt)
    (fun _ => flag_is (bool_decide (login (attributes pkt) = Some true)))
    (fun _ => False).
Proof using Type.
  intros Ht c [_ Hw]. unfold resolve. rewrite Ht.
  unfold mbind at 1, M_bind at 1, this.
  unfold mbind at 1, M_bind at 1, modify at 1.
  set (c1 := with_connected (login (attributes pkt)) c).
  unfold mbind at 1, M_bind at 1.
  assert (Hflag : connected c1 = bool_decide (login (attributes pkt) = Some true)).
  { unfold connected, c1. simpl. destruct (login (attributes pkt)) as [[|]|]; done. }
  destruct (connected c1) eqn:Hconn.
  - (* accepted *)
    rewrite <- Hflag.
    assert (Hdone : forall c2 : Connection,
              info_connected c2 = info_connected c1 ->
              (packets c2 = packets c /\ js_get (packets c) 0 = None) \/
              packets c2 = js_clear (packets c) 0 ->
              flag_is true c2).
    { intros c2 Hi Hp. split; [unfold connected in *; by rewrite Hi|].
      intros j st Hj Hty. exfalso.
      destruct Hp as [[Hp Hnone]|Hp]; rewrite Hp in Hj.
      - destruct (Hw j st Hj Hty) as [-> _]. congruence.
      - unfold js_get, js_clear in Hj. simpl in Hj.
        apply lookup_delete_Some in Hj as [Hne Hj].
        destruct (Hw j st Hj Hty) as [-> _]. done. }
    destruct (js_get (packets c) 0) as [st|] eqn:Hst.
    + unfold mbind at 1, M_bind at 1. unfold mbind at 1, M_bind at 1.
      settle c2 H2. destruct H2 as ((_ & _ & _ & _ & Hi & _ & Hp & _) & _).
      unfold mbind, M_bind, modify, emit, this, mret, M_ret. simpl.
      apply Hdone; [done|right; simpl; by rewrite Hp].
    + unfold mbind, M_bind, modify, emit, this, mret, M_ret. simpl.
      apply Hdone; [done|by left].
  - (* refused *)
    rewrite <- Hflag.
    assert (Hrest : forall (r : bool) (c2 : Connection),
              match (disconnect InvalidPassword;; mret r) c2 with
              | (Ok _, c') => flag_is false c'
              | (Throw _, c') => False
              end).
    { intros r c2. unfold mbind, M_bind.
      pose proof (hoare_disconnect (fun _ => True) InvalidPassword c2 I) as Hd.
      destruct (disconnect InvalidPassword c2) as [[[]|e] c3]; exact Hd. }
    destruct (js_get (packets c) 0) as [st|]; [|simpl; apply Hrest].
    unfold mbind at 1, M_bind at 1. unfold mbind at 1, M_bind at 1.
    unfold mbind at 1, M_bind at 1.
    settle c2 H2.
    unfold mbind at 1, M_bind at 1, modify at 1. unfold mret at 1, M_ret at 1.
    apply Hrest.
Qed.

(** A fragment leaves the flag alone, whatever [recieve] does with it. *)
Lemma keeps_recieve_Split (b : bool) (pkt : Packet) :
  direction pkt = Split -> keeps (flag_is b) (recieve crc32 dgram_send pkt).
Proof using Type.
  intros Hd. unfold recieve.
  apply keeps_bind; [by apply keeps_modify|]. intros _.
  rewrite bool_decide_eq_true_2 by done.
  apply keeps_this. intros c Hc. apply (hoare_forget _ _ _ _ _ Hc).
  destruct (js_get (multipart c) (Packet_sequence pkt)) as [slots|]; [|apply hoare_throw].
  apply keeps_bind.
  { destruct (arr_length slots =? 0); [apply keeps_lift|apply keeps_ret]. }
  intros slots'. apply keeps_bind; [by apply keeps_modify|]. intros _.
  destruct (is_last_index pkt); [|apply keeps_ret].
  apply keeps_bind; [|intros; apply keeps_ret].
  apply hoare_try_catch with (E' := flag_is b).
  - apply keeps_bind; [apply keeps_lift|]. intros [buff|].
    + apply keeps_this. intros c2 Hc2. apply (hoare_forget _ _ _ _ _ Hc2).
      apply keeps_bind; [by apply keeps_modify|]. intros _.
      apply keeps_bind; [by apply keeps_resolve|]. intros; apply keeps_ret.
    + apply keeps_this. intros c2 Hc2.
      destruct (js_get (packets c2) (Packet_sequence pkt)) as [resend|] eqn:Hre;
        [|apply (hoare_forget _ _ _ _ _ Hc2); apply keeps_ret].
      apply (hoare_forget _ _ _ _ _ Hc2).
      destruct (5 <=? Packet_sent (packet resend)).
      * eapply hoare_bind; [by apply (hoare_Socket_send b (packet resend) false)|].
        intros [pkt' failure]. simpl.
        apply hoare_this_bind. intros c3 [Hc3 Hty].
        apply hoare_bind with (Q := fun _ => flag_is b).
        { apply hoare_modify. intros c4 ->.
          apply (flag_is_set b c3 _ (Packet_sequence pkt)
                   {| bytes := bytes resend; packet := pkt'; promise := promise resend |});
            [|done|done|done].
          simpl. rewrite Hty. intros Hlogin.
          destruct Hc2 as [Hb2 Hw2]. destruct (Hw2 _ _ Hre Hlogin) as [-> Hf].
          split; [done|congruence]. }
        intros _. destruct failure; [apply hoare_throw|apply keeps_ret].
      * apply keeps_bind; [by apply keeps_resolve|]. intros; apply keeps_ret.
  - intros err. apply keeps_bind; [by apply keeps_resolve|]. intros; apply keeps_ret.
Qed.

Lemma js_values_get {T} (arr : JsArray T) (x : T) :
  Some x ∈ js_values arr -> exists i, js_get arr i = Some x.
Proof using Type.
  unfold js_values. intros (i & Hi & _)%list_elem_of_fmap. by exists i.
Qed.

(** One round of the timeout loop, for an entry that is a Login request
    only while the flag is off. *)
Lemma keeps_check_pending (b : bool) (time i : Z) (p : IPacketPromise) :
  (type (packet p) = Login -> b = false) ->
  keeps (flag_is b) (check_pending crc32 dgram_send time i p).
Proof using Type.
  intros Hlogin. unfold check_pending.
  apply keeps_this. intros c Hc. apply (hoare_forget _ _ _ _ _ Hc).
  destruct (truthy _ && elapsed _ _ _).
  - eapply hoare_bind; [by apply (hoare_Socket_send b (packet p) false)|].
    intros [pkt' failure]. simpl.
    apply hoare_this_bind. intros c3 [Hc3 Hty].
    apply hoare_bind with (Q := fun _ => flag_is b).
    { case_bool_decide as Hget; [|intros c4 ->; exact Hc3].
      apply hoare_modify. intros c4 ->.
      apply (flag_is_set b c3 _ i
               {| bytes := bytes p; packet := pkt'; promise := promise p |});
        [|done|done|done].
      simpl. rewrite Hty. intros Hl.
      destruct Hc3 as [Hb3 Hw3]. destruct (Hw3 _ _ Hget Hl) as [-> Hf].
      split; [done|congruence]. }
    intros _. destruct failure; [apply hoare_throw|apply keeps_ret].
  - destruct (packetTimeoutThresholded (options c) <=? Packet_sent (packet p));
      [|apply keeps_ret].
    apply keeps_bind; [|intros; apply keeps_ret].
    destruct (type (packet p)) eqn:Ht.
    + rewrite (Hlogin eq_refl).
      eapply hoare_consequence;
        [apply (hoare_resolve_Login false (reply_with_error Login ServerTimeout _) eq_refl)
        |done|done|done].
    + by apply keeps_resolve.
    + by apply keeps_resolve.
Qed.

Lemma keeps_check_all (b : bool) (time : Z) (entries : list (option IPacketPromise)) (i : Z) :
  (forall p, Some p ∈ entries -> type (packet p) = Login -> b = false) ->
  keeps (flag_is b) (check_all crc32 dgram_send time i entries).
Proof using Type.
  revert i. induction entries as [|[p|] entries IH]; intros i Hentries; simpl.
  - apply keeps_ret.
  - apply keeps_bind.
    + apply keeps_check_pending. apply Hentries. left.
    + intros _. apply IH. intros q Hq. apply Hentries. by right.
  - apply IH. intros q Hq. apply Hentries. by right.
Qed.

Lemma timeout_tick_flag (b : bool) (time : Z) (c : Connection) :
  flag_is b c ->
  flag_is b (snd (timeout_tick crc32 dgram_send time c)) \/
  (flag_is false (snd (timeout_tick crc32 dgram_send time c)) /\ server_silent time c).
Proof using Type.
  intros Hc.
  change (timeout_tick crc32 dgram_send time c)
    with (try_catch
            (if truthy (info_lastPacket c ≫= fun p => timestamp (attributes p))
                && elapsed time (info_lastPacket c ≫= fun p => timestamp (attributes p))
                     (serverTimeout (options c))
             then disconnect ServerTimeout
             else check_all crc32 dgram_send time 0 (js_values (packets c)))
            (fun err => emit (Emit_error (Some err))) c).
  unfold try_catch.
  destruct (truthy _ && elapsed _ _ _) eqn:Hsilent.
  - right. pose proof (hoare_disconnect (fun _ => True) ServerTimeout c I) as Hd.
    destruct (disconnect ServerTimeout c) as [[[]|e] c']; [|done].
    split; [exact Hd|].
    apply andb_prop in Hsilent as [_ Helapsed]. unfold server_silent.
    destruct (info_lastPacket c) as [p|]; [|done]. simpl in Helapsed.
    destruct (timestamp (attributes p)) as [t|] eqn:Ht; [|done]. simpl in Helapsed.
    exists p, t. split; [done|]. split; [done|]. lia.
  - left.
    pose proof (keeps_check_all b time (js_values (packets c)) 0) as Hall.
    assert (Hentries : forall p, Some p ∈ js_values (packets c) ->
                                 type (packet p) = Login -> b = false).
    { intros p [i Hi]%js_values_get Hl. destruct Hc as [Hb Hw].
      destruct (Hw i p Hi Hl) as [_ Hf]. congruence. }
    specialize (Hall Hentries c Hc).
    destruct (check_all crc32 dgram_send time 0 (js_values (packets c)) c) as [[[]|e] c']; [done|].
    revert Hall. by apply flag_is_same.
Qed.

Lemma keeps_Connection_command (b : bool) (cmd : jsstring) (resolve : bool) :
  keeps (flag_is b) (Connection_command crc32 dgram_send cmd resolve).
Proof using Type.
  unfold Connection_command.
  apply keeps_this. intros c Hc. apply (hoare_forget _ _ _ _ _ Hc).
  destruct (negb (socket_listening c) || negb (connected c)); [apply hoare_throw|].
  apply keeps_bind; [by apply keeps_Socket_send|].
  intros [pkt' failure]. apply keeps_ret.
Qed.

Lemma keeps_keepAlive_tick (b : bool) : keeps (flag_is b) (keepAlive_tick crc32 dgram_send).
Proof using Type.
  unfold keepAlive_tick.
  apply keeps_this. intros c Hc. apply (hoare_forget _ _ _ _ _ Hc).
  destruct (connected c); [|apply keeps_ret].
  apply keeps_bind; [apply keeps_Connection_command|].
  intros [id [e|]]; [apply keeps_defer, flag_is_object|].
  apply keeps_this. intros c1 Hc1. apply (hoare_forget _ _ _ _ _ Hc1).
  by apply keeps_modify.
Qed.

Lemma keeps_setup (b : bool) : keeps (flag_is b) setup.
Proof using Type.
  unfold setup. apply keeps_this. intros c Hc. apply (hoare_forget _ _ _ _ _ Hc).
  apply keeps_bind; [|intros _].
  - destruct (keepAlive (options c)); [|apply keeps_ret].
    intros c1 Hc1. unfold setInterval, mbind, M_bind, this, modify, mret, M_ret.
    revert Hc1. by apply flag_is_same.
  - destruct (timeout (options c)); [|apply keeps_ret].
    intros c1 Hc1. unfold setInterval, mbind, M_bind, this, modify, mret, M_ret.
    revert Hc1. by apply flag_is_same.
Qed.

(** [connect()] leaves the flag off, unless it throws at once. *)
Lemma connect_flag (b : bool) (c : Connection) :
  flag_is b c ->
  flag_is b (snd (connect crc32 dgram_send c)) \/ flag_is false (snd (connect crc32 dgram_send c)).
Proof using Type.
  intros Hc.
  assert (H : hoare (flag_is b) (connect crc32 dgram_send)
                (fun _ c' => flag_is b c' \/ flag_is false c')
                (fun c' => flag_is b c' \/ flag_is false c')).
  { unfold connect.
    apply hoare_this_bind. intros c0 Hc0.
    destruct (negb (socket_listening c0)).
    { intros c' ->. simpl. by left. }
    apply hoare_bind with (Q := fun _ => flag_is false).
    { destruct (connected c0) eqn:Hconn.
      - eapply hoare_consequence; [apply (hoare_disconnect (fun _ => True))|done|done|done].
      - intros c' ->. simpl. destruct Hc0 as [Hb Hw]. split; [done|exact Hw]. }
    intros _.
    eapply hoare_consequence with (E' := flag_is false) (Q' := fun _ => flag_is false);
      [|done|by right|by right].
    apply keeps_bind; [apply keeps_setup|].
    intros _. apply keeps_this. intros c1 Hc1. apply (hoare_forget _ _ _ _ _ Hc1).
    apply keeps_bind; [by apply keeps_Socket_send|].
    intros [pkt' failure]. apply keeps_ret. }
  specialize (H c Hc). destruct (connect crc32 dgram_send c) as [[a|e] c']; exact H.
Qed.

Lemma kill_flag (reason : Error) (c : Connection) :
  flag_is false (snd (kill reason c)).
Proof using Type.
  unfold kill, mbind, M_bind, emit, modify.
  pose proof (hoare_disconnect (fun _ => True) reason
                (with_event (Emit_error (Some reason)) c) I) as Hd.
  destruct (disconnect reason _) as [[[]|e] c']; [exact Hd|done].
Qed.

(** A Login packet out of [FROM] says whether the password was accepted. *)
Lemma FROM_login (buffer : Buffer) (p : Packet) :
  FROM crc32 buffer = Ok p -> type p = Login -> exists ok, p = login_reply ok.
Proof using Type.
  unfold FROM. intros H Ht.
  destruct (Buffer_length buffer <? 9); [done|].
  destruct (bool_decide _); [done|].
  destruct (readInt32BE buffer 2) as [checksum|]; [|done].
  cbn [mbind Result_bind bindR] in H.
  destruct (readInt32LE _ 0) as [crc|]; [|done].
  cbn [mbind Result_bind bindR] in H.
  destruct (bool_decide _); [done|].
  unfold FROM_payload in H.
  destruct (readUInt8 _ 0) as [flag|]; [|done].
  cbn [mbind Result_bind bindR] in H.
  destruct (bool_decide _); [done|].
  destruct (readUInt8 _ 1) as [t|]; [|done].
  cbn [mbind Result_bind bindR] in H.
  destruct (t =? 0).
  { destruct (readUInt8 _ 2) as [l|]; [|done]. injection H as <-. by eexists. }
  destruct (t =? 1).
  { destruct (readUInt8 _ 2) as [s|]; [|done].
    cbn [mbind Result_bind bindR] in H.
    destruct (if 4 <? _ then _ else _) as [[|]|]; [| |done].
    - cbn [mbind Result_bind bindR] in H.
      destruct (readUInt8 _ 4); [|done]. cbn [mbind Result_bind bindR] in H.
      destruct (readUInt8 _ 5); [|done]. by injection H as <-.
    - by injection H as <-. }
  destruct (t =? 2); [|done].
  destruct (readUInt8 _ 2); [|done]. by injection H as <-.
Qed.

(** An inbound datagram changes the flag only when it is a Login Reply,
    and then to what the reply says. *)
Lemma Socket_receive_flag (b : bool) (buffer : Buffer) (c : Connection) :
  flag_is b c ->
  flag_is b (snd (Socket_receive crc32 dgram_send buffer c)) \/
  exists ok, FROM crc32 buffer = Ok (login_reply ok) /\
             flag_is ok (snd (Socket_receive crc32 dgram_send buffer c)).
Proof using Type.
  intros Hc. unfold Socket_receive.
  destruct (FROM crc32 buffer) as [pkt|e] eqn:Hfrom.
  2:{ left. revert Hc. by apply flag_is_same. }
  assert (Hwrap : forall (b' : bool) (m : M bool),
            hoare (flag_is b) m (fun _ => flag_is b') (flag_is b') ->
            flag_is b' (snd ((try_catch (m;; mret tt) (fun _ => mret tt);;
                              emit (Emit_received pkt buffer)) c))).
  { intros b' m Hm.
    assert (H : hoare (flag_is b)
                  (try_catch (m;; mret tt) (fun _ => mret tt);;
                   emit (Emit_received pkt buffer))
                  (fun _ => flag_is b') (flag_is b')).
    { apply hoare_bind with (Q := fun _ => flag_is b'); [|intros; apply keeps_emit].
      apply hoare_try_catch with (E' := flag_is b'); [|intros; apply keeps_ret].
      apply hoare_bind with (Q := fun _ => flag_is b'); [exact Hm|intros; apply keeps_ret]. }
    specialize (H c Hc).
    destruct ((try_catch (m;; mret tt) (fun _ => mret tt);;
               emit (Emit_received pkt buffer)) c) as [[a|e] c']; exact H. }
  destruct (decide (direction pkt = Split)) as [Hsplit|Hsplit].
  { left. apply Hwrap. by apply keeps_recieve_Split. }
  destruct (decide (type pkt = Login)) as [Hlogin|Hlogin].
  - right. destruct (FROM_login buffer pkt Hfrom Hlogin) as [ok ->].
    exists ok. split; [done|]. apply Hwrap.
    unfold recieve. rewrite bool_decide_eq_false_2 by done.
    apply hoare_bind with (Q := fun _ => flag_is b).
    { apply hoare_modify. intros c'. by apply flag_is_same. }
    intros _.
    eapply hoare_consequence;
      [apply (hoare_resolve_Login b (login_reply ok) eq_refl)|done| |done].
    intros ? c'. simpl. by destruct ok.
  - left. apply Hwrap.
    unfold recieve. rewrite bool_decide_eq_false_2 by done.
    apply keeps_bind; [by apply keeps_modify|]. intros _. by apply keeps_resolve.
Qed.

(** What a step does to the flag: nothing, or one of the changes below. *)
Lemma step_flag (b : bool) (s : Step) (c : Connection) :
  flag_is b c ->
  flag_is b (step crc32 dgram_send s c) \/
  (flag_is false (step crc32 dgram_send s c) /\
   (s = Connect \/ (exists reason, s = Kill reason) \/
    (exists time, s = Timeout_tick time /\ server_silent time c) \/
    (exists buffer, s = Datagram buffer /\ FROM crc32 buffer = Ok (login_reply false)))) \/
  (flag_is true (step crc32 dgram_send s c) /\
   exists buffer, s = Datagram buffer /\ FROM crc32 buffer = Ok (login_reply true)).
Proof using Type.
  intros Hc.
  assert (Hflush : forall b' c', flag_is b' c' -> flag_is b' (flush c'))
    by (intros b' c'; by apply flag_is_same).
  destruct s as [| |cmd resolve|reason|buffer|time|]; unfold step, run.
  - left. apply Hflush. revert Hc. by apply flag_is_same.
  - destruct (connect_flag b c Hc) as [H|H]; [left; by apply Hflush|].
    right. left. split; [by apply Hflush|by left].
  - left. apply Hflush. pose proof (keeps_Connection_command b cmd resolve c Hc) as H.
    destruct (Connection_command crc32 dgram_send cmd resolve c) as [[a|e] c']; exact H.
  - right. left. split; [apply Hflush, kill_flag|]. right. left. by eexists.
  - destruct (Socket_receive_flag b buffer c Hc) as [H|([|] & Hfrom & H)].
    + left. by apply Hflush.
    + right. right. split; [by apply Hflush|]. by exists buffer.
    + right. left. split; [by apply Hflush|]. do 3 right. by exists buffer.
  - destruct (running Timeout_scheduler c); [|left; by apply Hflush].
    destruct (timeout_tick_flag b time c Hc) as [H|[H Hsilent]]; [left; by apply Hflush|].
    right. left. split; [by apply Hflush|]. right. right. left. by exists time.
  - destruct (running KeepAlive_scheduler c); [|left; by apply Hflush].
    left. apply Hflush. pose proof (keeps_keepAlive_tick b c Hc) as H.
    destruct (keepAlive_tick crc32 dgram_send c) as [[a|e] c']; exact H.
Qed.

(** In every state the connection gets into, a Login request waits in
    slot 0 only, and only while the flag is off. *)
Lemma reachable_login_waits (c : Connection) : reachable crc32 dgram_send c -> login_waits c.
Proof using Type.
  induction 1 as [listening password opts|c s _ IH].
  - intros i st Hi _. done.
  - destruct (step_flag (connected c) s c (conj eq_refl IH)) as [H|[[H _]|[H _]]];
      apply H.
Qed.

(** C7. In a state the connection gets into, a step turns the flag on
    only when it is an inbound datagram that [FROM] decodes to a Login
    Reply with [login = true]; and a step turns the flag off only when it
    is [connect()] (which disconnects first) or [kill(reason)], a tick of
    the timeout scheduler at which the server has been silent for
    [serverTimeout], or an inbound Login Reply with [login = false]. *)
Theorem connected_changes (c : Connection) (s : Step) :
  reachable crc32 dgram_send c ->
  (connected c = false -> connected (step crc32 dgram_send s c) = true ->
   exists buffer p,
     s = Datagram buffer /\ FROM crc32 buffer = Ok p /\ type p = Login /\
     direction p = Reply /\ login (attributes p) = Some true) /\
  (connected c = true -> connected (step crc32 dgram_send s c) = false ->
   s = Connect \/
   (exists reason, s = Kill reason) \/
   (exists time, s = Timeout_tick time /\ server_silent time c) \/
   (exists buffer p,
      s = Datagram buffer /\ FROM crc32 buffer = Ok p /\ type p = Login /\
      direction p = Reply /\ login (attributes p) = Some false)).
Proof using Type.
  intros Hreach. pose proof (reachable_login_waits c Hreach) as Hw.
  destruct (step_flag (connected c) s c (conj eq_refl Hw))
    as [[H _]|[[[H _] Hcause]|[[H _] Hcause]]].
  - split; intros H0 H1; congruence.
  - split; [intros _ H1; congruence|]. intros _ _.
    destruct Hcause as [->|[[reason ->]|[(time & -> & Hsilent)|(buffer & -> & Hfrom)]]].
    + by left.
    + right. left. by eexists.
    + right. right. left. by eexists.
    + do 3 right. by exists buffer, (login_reply false).
  - split; [|intros _ H1; congruence]. intros _ _.
    destruct Hcause as (buffer & -> & Hfrom). by exists buffer, (login_reply true).
Qed.

End Flag.

Lemma connected_changes_witness :
  exists buffer p,
    Datagram login_accepted = Datagram buffer /\ FROM crc32_ieee buffer = Ok p /\
    type p = Login /\ direction p = Reply /\ login (attributes p) = Some true.
Proof.
  refine (proj1 (connected_changes crc32_ieee dgram_ok
                   (step crc32_ieee dgram_ok Connect (new_Connection true (lit "test") default_options))
                   (Datagram login_accepted) _) _ _).
  - apply reachable_step, reachable_new.
  - vm_compute. reflexivity.
  - vm_compute. reflexivity.
Defined.
(** ** [serialize] and [FROM] on every input *)

Lemma utf8_fit_length (chars : list Buffer) (room : nat) :
  (length (utf8_fit chars room) <= room)%nat.
Proof.
  revert room. induction chars as [|c chars IH]; intros room; simpl; [lia|].
  destruct (Nat.leb_spec (length c) room); simpl; [|lia].
  rewrite length_app. specialize (IH (room - length c)%nat). lia.
Qed.

Lemma utf8_fit_all (chars : list Buffer) (room : nat) :
  (length (concat chars) <= room)%nat -> utf8_fit chars room = concat chars.
Proof.
  revert room. induction chars as [|c chars IH]; intros room; simpl; [done|].
  rewrite length_app. intros H.
  destruct (Nat.leb_spec (length c) room); [|lia].
  rewrite IH by lia. done.
Qed.

Lemma wire_text_length (s : jsstring) : length (wire_text s) = length s.
Proof.
  unfold wire_text. cbv zeta. rewrite length_app, length_replicate.
  pose proof (utf8_fit_length (utf8_chars s) (length s)). lia.
Qed.

Lemma utf8_code_point_length (c : N) :
  (1 <= length (utf8_code_point c))%nat /\
  (length (utf8_code_point c) = 1%nat -> (c < 0x80)%N) /\
  ((0x10000 <= c)%N -> length (utf8_code_point c) = 4%nat).
Proof.
  unfold utf8_code_point.
  destruct (N.ltb_spec c 0x80); [simpl; repeat split; try lia|].
  destruct (N.ltb_spec c 0x800); [simpl; repeat split; try lia|].
  destruct (N.ltb_spec c 0x10000); simpl; repeat split; lia.
Qed.

(** The encoding has at least as many bytes as the string has code units,
    and as many only when the string is ASCII. *)
Lemma utf8_chars_length (s : jsstring) :
  (length s <= length (concat (utf8_chars s)))%nat /\
  (length (concat (utf8_chars s)) = length s -> ascii_text s).
Proof.
  remember (length s) as n eqn:Hn.
  revert s Hn. induction n as [n IH] using lt_wf_ind. intros s ->.
  destruct s as [|u s]; [split; [simpl; lia|constructor]|].
  cbn [utf8_chars].
  destruct (is_high_surrogate u) eqn:Hh.
  { destruct s as [|v s].
    - simpl. split; [lia|lia].
    - destruct (is_low_surrogate v) eqn:Hl.
      + destruct (IH (length s) ltac:(simpl; lia) s eq_refl) as [IH1 _].
        cbn [concat length]. rewrite length_app.
        destruct (utf8_code_point_length
                    (0x10000 + N.shiftl (u - 0xD800) 10 + (v - 0xDC00))%N) as (_ & _ & H4).
        rewrite H4 by lia. split; lia.
      + destruct (IH (length (v :: s)) ltac:(simpl; lia) (v :: s) eq_refl) as [IH1 _].
        cbn [concat]. rewrite length_app. cbn [length utf8_replacement] in *.
        split; lia. }
  destruct (IH (length s) ltac:(simpl; lia) s eq_refl) as [IH1 IH2].
  destruct (is_low_surrogate u) eqn:Hl.
  { cbn [concat]. rewrite length_app. cbn [length utf8_replacement]. split; lia. }
  cbn [concat]. rewrite length_app. cbn [length].
  destruct (utf8_code_point_length u) as (H1 & Hone & _).
  split; [lia|]. intros E. constructor.
  - apply Hone. lia.
  - apply IH2. lia.
Qed.

Lemma utf8_chars_ascii_length (s : jsstring) :
  ascii_text s -> length (concat (utf8_chars s)) = length s.
Proof.
  intros Hs. rewrite utf8_chars_ascii by done.
  induction s as [|u s IH]; [done|]. simpl. f_equal. apply IH. by inversion Hs.
Qed.

(** The text is on the wire in full exactly when it is ASCII. *)
Lemma wire_text_complete (s : jsstring) :
  wire_text s = concat (utf8_chars s) <-> ascii_text s.
Proof.
  split.
  - intros E. apply utf8_chars_length. rewrite <- E. apply wire_text_length.
  - intros Hs. unfold wire_text. cbv zeta.
    rewrite utf8_fit_all by (rewrite utf8_chars_ascii_length by done; lia).
    rewrite utf8_chars_ascii_length by done.
    rewrite Nat.sub_diag. apply app_nil_r.
Qed.

Lemma Buffer_write_text (prefix : Buffer) (s : jsstring) (offset : Z) :
  offset = Z.of_nat (length prefix) ->
  Buffer_write (prefix ++ replicate (length s) x00) s offset
  = Ok (prefix ++ wire_text s).
Proof.
  intros ->. unfold Buffer_write, Buffer_length.
  rewrite length_app, length_replicate, Nat2Z.id.
  assert (E : (0 <=? Z.of_nat (length prefix))
              && (Z.of_nat (length prefix) <=? Z.of_nat (length prefix + length s)) = true).
  { apply andb_true_intro. split; apply Z.leb_le; lia. }
  rewrite E. f_equal. unfold blit, wire_text. cbv zeta.
  replace (length prefix + length s - length prefix)%nat with (length s) by lia.
  pose proof (utf8_fit_length (utf8_chars s) (length s)) as Hfit.
  set (written := utf8_fit (utf8_chars s) (length s)) in *.
  rewrite take_app_length. f_equal. f_equal.
  rewrite drop_app_ge by lia. rewrite drop_replicate. f_equal. lia.
Qed.

Lemma sent_counted (p : Packet) :
  match sent (attributes p) with
  | Some n => if n =? 0 then 1 else n + 1
  | None => 1
  end = Packet_sent p + 1.
Proof.
  unfold Packet_sent. destruct (sent (attributes p)) as [n|]; simpl; [|done].
  destruct (Z.eqb_spec n 0); lia.
Qed.

(** The three arms of [serialize], for any text. *)
Lemma serialize_login_text (crc32 : Buffer -> Buffer) (p : Packet) (pw : jsstring) :
  type p = Login -> password (attributes p) = Some pw ->
  (4 <= length (crc32 ([xff; x00] ++ wire_text pw)))%nat ->
  serialize crc32 p = Ok (frame crc32 ([xff; x00] ++ wire_text pw), sent_once_more p).
Proof.
  intros Ht Hpw Hcrc. unfold serialize. rewrite Ht, Hpw.
  cbv beta iota zeta.
  rewrite (Buffer_alloc_plus pw 2) by done.
  cbn [replicate app PacketType_value].
  rewrite writeUInt8_at_0 by lia. cbn [mbind Result_bind bindR].
  rewrite writeUInt8_at_1 by lia. cbn [mbind Result_bind bindR].
  change (byte_of_Z 255 :: byte_of_Z 0 :: replicate (length pw) x00)
    with ([xff; x00] ++ replicate (length pw) x00).
  rewrite (Buffer_write_text [xff; x00]) by done. cbn [mbind Result_bind bindR].
  pose proof (serialize_header crc32 ([xff; x00] ++ wire_text pw) Hcrc) as Hh.
  unfold mbind, Result_bind, bindR in Hh |- *.
  destruct (readInt32LE _ 0) as [w|]; [|done].
  destruct (writeInt32BE _ w 2) as [h|]; [|done].
  injection Hh as Hh. rewrite sent_counted. f_equal. f_equal; [exact Hh|].
  unfold sent_once_more. by rewrite Ht.
Qed.

Lemma serialize_command_text (crc32 : Buffer -> Buffer) (p : Packet) (cmd : jsstring) :
  type p = Command -> command (attributes p) = Some cmd ->
  0 <= Packet_sequence p <= 255 ->
  (4 <= length (crc32 ([xff; x01; byte_of_Z (Packet_sequence p)] ++ wire_text cmd)))%nat ->
  serialize crc32 p
  = Ok (frame crc32 ([xff; x01; byte_of_Z (Packet_sequence p)] ++ wire_text cmd),
        sent_once_more p).
Proof.
  intros Ht Hcmd Hseq Hcrc. unfold serialize. rewrite Ht, Hcmd.
  cbv beta iota zeta.
  rewrite (Buffer_alloc_plus cmd 3) by done.
  cbn [replicate app PacketType_value].
  rewrite writeUInt8_at_0 by lia. cbn [mbind Result_bind bindR].
  rewrite writeUInt8_at_1 by lia. cbn [mbind Result_bind bindR].
  rewrite writeUInt8_at_2 by lia. cbn [mbind Result_bind bindR].
  change (byte_of_Z 255 :: byte_of_Z 1 :: byte_of_Z (Packet_sequence p)
            :: replicate (length cmd) x00)
    with ([xff; x01; byte_of_Z (Packet_sequence p)] ++ replicate (length cmd) x00).
  rewrite (Buffer_write_text [xff; x01; byte_of_Z (Packet_sequence p)]) by done.
  cbn [mbind Result_bind bindR].
  pose proof (serialize_header crc32
                ([xff; x01; byte_of_Z (Packet_sequence p)] ++ wire_text cmd) Hcrc) as Hh.
  unfold mbind, Result_bind, bindR in Hh |- *.
  destruct (readInt32LE _ 0) as [w|]; [|done].
  destruct (writeInt32BE _ w 2) as [h|]; [|done].
  injection Hh as Hh. rewrite sent_counted. f_equal. f_equal; [exact Hh|].
  unfold sent_once_more. by rewrite Ht.
Qed.

Lemma serialize_message_text (crc32 : Buffer -> Buffer) (p : Packet) :
  type p = Message -> 0 <= Packet_sequence p <= 255 ->
  (4 <= length (crc32 [xff; x02; byte_of_Z (Packet_sequence p)]))%nat ->
  serialize crc32 p
  = Ok (frame crc32 [xff; x02; byte_of_Z (Packet_sequence p)], sent_once_more p).
Proof.
  intros Ht Hseq Hcrc. unfold serialize. rewrite Ht.
  cbv beta iota zeta.
  change (Buffer_alloc 3) with [x00; x00; x00]. cbn [PacketType_value].
  rewrite writeUInt8_at_0 by lia. cbn [mbind Result_bind bindR].
  rewrite writeUInt8_at_1 by lia. cbn [mbind Result_bind bindR].
  rewrite writeUInt8_at_2 by lia. cbn [mbind Result_bind bindR].
  change (byte_of_Z 255) with xff. change (byte_of_Z 2) with x02.
  pose proof (serialize_header crc32 [xff; x02; byte_of_Z (Packet_sequence p)] Hcrc) as Hh.
  unfold mbind, Result_bind, bindR in Hh |- *.
  destruct (readInt32LE _ 0) as [w|]; [|done].
  destruct (writeInt32BE _ w 2) as [h|]; [|done].
  injection Hh as Hh. rewrite sent_counted. f_equal. f_equal; [exact Hh|].
  unfold sent_once_more. by rewrite Ht.
Qed.

(** A sequence outside 0 .. 255 stops [serialize] at [writeUInt8]. *)
Lemma writeUInt8_out_of_range (buf : Buffer) (v offset : Z) :
  ~ (0 <= v <= 255) -> writeUInt8 buf v offset = Throw RangeError.
Proof.
  intros Hv. unfold writeUInt8.
  destruct ((0 <=? offset) && (offset <? Buffer_length buf)); [|done].
  destruct (Z.leb_spec 0 v), (Z.leb_spec v 255); simpl; try done. lia.
Qed.

Lemma serialize_sequence_out_of_range (crc32 : Buffer -> Buffer) (p : Packet) :
  type p = Message \/ (type p = Command /\ is_Some (command (attributes p))) ->
  ~ (0 <= Packet_sequence p <= 255) ->
  serialize crc32 p = Throw RangeError.
Proof.
  intros Ht Hseq. unfold serialize.
  destruct Ht as [Ht|[Ht [cmd Hcmd]]]; rewrite Ht; [|rewrite Hcmd]; cbv beta iota zeta.
  - change (Buffer_alloc 3) with [x00; x00; x00]. cbn [PacketType_value].
    rewrite writeUInt8_at_0 by lia. cbn [mbind Result_bind bindR].
    rewrite writeUInt8_at_1 by lia. cbn [mbind Result_bind bindR].
    by rewrite writeUInt8_out_of_range.
  - rewrite (Buffer_alloc_plus cmd 3) by done.
    cbn [replicate app PacketType_value].
    rewrite writeUInt8_at_0 by lia. cbn [mbind Result_bind bindR].
    rewrite writeUInt8_at_1 by lia. cbn [mbind Result_bind bindR].
    by rewrite writeUInt8_out_of_range.
Qed.

(** X1. What [serialize] does with any packet.  It returns or it throws one
    of three errors, and each outcome says why: [NoPassword] for a Login packet
    without a password, [NoCommand] for a Command packet without a command,
    [RangeError] (from [writeUInt8]) for a Command or Message packet whose
    sequence is not in 0..255 (among them the -1 of a packet that has none).
    When it returns, the buffer is the frame of 0xFF, the type byte, the
    sequence byte (not for Login) and the text as [Buffer.write] leaves it in
    the space allocated for it, and the packet is the same with one more on
    its [sent] count. *)
Theorem serialize_outcome (crc32 : Buffer -> Buffer) (p : Packet) :
  (forall b, (4 <= length (crc32 b))%nat) ->
  let s := Packet_sequence p in
  match serialize crc32 p with
  | Ok (buffer, q) =>
    q = sent_once_more p /\
    match type p with
    | Login =>
      exists pw, password (attributes p) = Some pw /\
                 buffer = frame crc32 ([xff; x00] ++ wire_text pw)
    | Command =>
      exists cmd, command (attributes p) = Some cmd /\ 0 <= s <= 255 /\
                  buffer = frame crc32 ([xff; x01; byte_of_Z s] ++ wire_text cmd)
    | Message =>
      0 <= s <= 255 /\ buffer = frame crc32 [xff; x02; byte_of_Z s]
    end
  | Throw NoPassword => type p = Login /\ password (attributes p) = None
  | Throw NoCommand => type p = Command /\ command (attributes p) = None
  | Throw RangeError =>
    ~ (0 <= s <= 255) /\
    (type p = Message \/ type p = Command /\ is_Some (command (attributes p)))
  | Throw _ => False
  end.
Proof.
  intros Hcrc s. subst s.
  destruct (type p) eqn:Ht.
  - destruct (password (attributes p)) as [pw|] eqn:Hpw.
    + rewrite (serialize_login_text crc32 p pw) by done. split; [done|]. by exists pw.
    + unfold serialize. by rewrite Ht, Hpw.
  - destruct (command (attributes p)) as [cmd|] eqn:Hcmd.
    + destruct (decide (0 <= Packet_sequence p <= 255)) as [Hs|Hs].
      * rewrite (serialize_command_text crc32 p cmd) by done. split; [done|]. by exists cmd.
      * rewrite serialize_sequence_out_of_range; [|right; split; [done|by rewrite Hcmd]|done].
        split; [done|]. right. split; [done|]. by eexists.
    + unfold serialize. by rewrite Ht, Hcmd.
  - destruct (decide (0 <= Packet_sequence p <= 255)) as [Hs|Hs].
    + rewrite (serialize_message_text crc32 p) by done. done.
    + rewrite serialize_sequence_out_of_range; [|by left|done]. split; [done|by left].
Qed.

Lemma frame_payload (crc32 : Buffer -> Buffer) (payload : Buffer) :
  drop 6 (frame crc32 payload) = payload.
Proof.
  unfold frame. destruct (crc32 payload) as [|b0 [|b1 [|b2 [|b3 rest]]]]; done.
Qed.

(** What a successful [serialize] returns, by the type of the packet. *)
Lemma serialize_Ok (crc32 : Buffer -> Buffer) (p q : Packet) (buffer : Buffer) :
  (forall b, (4 <= length (crc32 b))%nat) ->
  serialize crc32 p = Ok (buffer, q) ->
  q = sent_once_more p /\
  match type p with
  | Login =>
    exists pw, password (attributes p) = Some pw /\
               buffer = frame crc32 ([xff; x00] ++ wire_text pw)
  | Command =>
    exists cmd, command (attributes p) = Some cmd /\ 0 <= Packet_sequence p <= 255 /\
                buffer = frame crc32 ([xff; x01; byte_of_Z (Packet_sequence p)]
                                      ++ wire_text cmd)
  | Message =>
    0 <= Packet_sequence p <= 255 /\
    buffer = frame crc32 [xff; x02; byte_of_Z (Packet_sequence p)]
  end.
Proof.
  intros Hcrc H.
  destruct (type p) eqn:Ht.
  - destruct (password (attributes p)) as [pw|] eqn:Hpw.
    + rewrite (serialize_login_text crc32 p pw) in H by done.
      injection H as <- <-. split; [done|]. by exists pw.
    + unfold serialize in H. by rewrite Ht, Hpw in H.
  - destruct (command (attributes p)) as [cmd|] eqn:Hcmd.
    + destruct (decide (0 <= Packet_sequence p <= 255)) as [Hs|Hs].
      * rewrite (serialize_command_text crc32 p cmd) in H by done.
        injection H as <- <-. split; [done|]. by exists cmd.
      * rewrite serialize_sequence_out_of_range in H;
          [done|right; split; [done|by rewrite Hcmd]|done].
    + unfold serialize in H. by rewrite Ht, Hcmd in H.
  - destruct (decide (0 <= Packet_sequence p <= 255)) as [Hs|Hs].
    + rewrite (serialize_message_text crc32 p) in H by done.
      by injection H as <- <-.
    + rewrite serialize_sequence_out_of_range in H; [done|by left|done].
Qed.

(** X2. The length of what [serialize] returns: 8 bytes and the length of the
    password for Login, 9 bytes and the length of the command for Command, 9
    bytes for Message; the length of a text being its [length] in JavaScript,
    the number of its UTF-16 units. *)
Theorem serialize_length (crc32 : Buffer -> Buffer) (p q : Packet) (buffer : Buffer) :
  (forall b, (4 <= length (crc32 b))%nat) ->
  serialize crc32 p = Ok (buffer, q) ->
  Buffer_length buffer
  = match type p with
    | Login => 8 + str_length (default [] (password (attributes p)))
    | Command => 9 + str_length (default [] (command (attributes p)))
    | Message => 9
    end.
Proof.
  intros Hcrc H. destruct (serialize_Ok crc32 p q buffer Hcrc H) as [_ Hb].
  unfold Buffer_length, str_length.
  destruct (type p).
  - destruct Hb as (pw & -> & ->). rewrite frame_length, length_app, wire_text_length.
    simpl. lia.
  - destruct Hb as (cmd & -> & _ & ->).
    rewrite frame_length, length_app, wire_text_length. simpl. lia.
  - destruct Hb as (_ & ->). by rewrite frame_length.
Qed.

(** X3. [serialize] allocates [text.length] bytes for the password or the
    command and writes it in UTF-8: the bytes after the header of the payload
    are the UTF-8 encoding of the text exactly when every unit of the text is
    below 0x80.  Any other text is cut short (and padded with 0x00). *)
Theorem serialize_text_complete (crc32 : Buffer -> Buffer) (p q : Packet)
    (buffer : Buffer) (text : jsstring) :
  (forall b, (4 <= length (crc32 b))%nat) ->
  serialize crc32 p = Ok (buffer, q) ->
  (type p = Login /\ password (attributes p) = Some text ->
   (drop 8 buffer = concat (utf8_chars text) <-> ascii_text text)) /\
  (type p = Command /\ command (attributes p) = Some text ->
   (drop 9 buffer = concat (utf8_chars text) <-> ascii_text text)).
Proof.
  intros Hcrc H. destruct (serialize_Ok crc32 p q buffer Hcrc H) as [_ Hb].
  split; intros [Ht Htext]; rewrite Ht in Hb.
  - destruct Hb as (pw & Hpw & ->). assert (pw = text) as -> by congruence.
    change 8%nat with (6 + 2)%nat. rewrite <- drop_drop, frame_payload.
    apply wire_text_complete.
  - destruct Hb as (cmd & Hcmd & _ & ->). assert (cmd = text) as -> by congruence.
    change 9%nat with (6 + 3)%nat. rewrite <- drop_drop, frame_payload.
    apply wire_text_complete.
Qed.

Lemma byte_to_Z_inj (a b : byte) : byte_to_Z a = byte_to_Z b -> a = b.
Proof.
  unfold byte_to_Z. intros E.
  rewrite <- (byte_of_N_to_N a), <- (byte_of_N_to_N b). f_equal. lia.
Qed.

(** X4. The datagrams that [FROM] accepts.  [FROM] returns a packet exactly for
    a buffer of at least 9 bytes that starts with [BE], carries the checksum of
    its payload, has 0xFF first in the payload and a type byte of 0, 1 or 2,
    apart from one shape: a Command payload of 5 bytes whose fourth byte is
    0x00 passes the test for a fragment and has no sixth byte for the index,
    so [readUInt8] throws. *)
Theorem FROM_returns_iff (crc32 : Buffer -> Buffer) (buffer : Buffer) :
  (forall b, (4 <= length (crc32 b))%nat) ->
  let payload := slice buffer 6 (Buffer_length buffer) in
  (exists p, FROM crc32 buffer = Ok p) <->
  9 <= Buffer_length buffer /\ take 2 buffer = [x42; x45] /\
  readInt32BE buffer 2 = readInt32LE (crc32 payload) 0 /\
  readUInt8 payload 0 = Ok 0xFF /\
  (exists t, readUInt8 payload 1 = Ok t /\ 0 <= t <= 2) /\
  ~ (readUInt8 payload 1 = Ok 1 /\ Buffer_length payload = 5 /\
     readUInt8 payload 3 = Ok 0).
Proof.
  intros Hcrc payload. pose proof (FROM_outcome crc32 buffer Hcrc) as H.
  cbv zeta in H. fold payload in H.
  destruct (FROM crc32 buffer) as [p|e].
  - destruct H as ((H1 & H2 & H3 & H4) & Ht & Hshort).
    split; [|by eexists]. intros _. repeat split; try done.
    exists (PacketType_value (type p)). split; [done|]. destruct (type p); simpl; lia.
  - split; [by intros [p ?]|]. intros (H1 & H2 & H3 & H4 & (t & Ht & Hr) & Hshort).
    exfalso. destruct e; try done.
    + destruct H as (_ & Ht' & ? & ? & ?). rewrite Ht in Ht'. injection Ht' as ->. lia.
    + by apply H.
    + by apply Hshort, H.
Qed.

(** X5. The packet [FROM] returns, from the bytes of the payload: a Login reply
    whose [login] is whether the third byte is 1; for Command, a fragment with
    the sequence, [total], [index] and [part] of the bytes when the fourth byte
    is 0x00 and more follows, else a reply whose data is the text from the
    fourth byte on; for Message, the sequence and the text.  In every case the
    packet carries just these attributes: no timestamp, no [sent] count. *)
Theorem FROM_fields (crc32 : Buffer -> Buffer) (buffer : Buffer) (p : Packet) :
  FROM crc32 buffer = Ok p ->
  exists t s rest,
    drop 6 buffer = xff :: t :: s :: rest /\
    match type p with
    | Login => t = x00 /\ p = login_reply (byte_to_Z s =? 1)
    | Command =>
      t = x01 /\
      match rest with
      | x00 :: total :: index :: part =>
        p = fragment (byte_to_Z s) (byte_to_Z total) (byte_to_Z index) part
      | _ => p = reply_with_data Command (Buffer_toString rest) (byte_to_Z s)
      end
    | Message => t = x02 /\ p = message_reply (byte_to_Z s) (Buffer_toString rest)
    end.
Proof.
  unfold FROM. intros H.
  destruct (Z.ltb_spec (Buffer_length buffer) 9) as [Hlen|Hlen]; [done|].
  destruct buffer as [|b0 [|b1 [|h1 [|h2 [|h3 [|h4 [|f [|t [|s rest]]]]]]]]];
    try (unfold Buffer_length in Hlen; simpl in Hlen; lia).
  destruct (bool_decide _); [done|].
  destruct (readInt32BE _ 2) as [checksum|]; [|done].
  cbn [mbind Result_bind bindR] in H.
  destruct (readInt32LE _ 0) as [crc|]; [|done].
  cbn [mbind Result_bind bindR] in H.
  destruct (bool_decide _); [done|].
  change 6 with (Z.of_nat 6) in H. rewrite slice_to_end in H.
  cbn [drop] in H |- *.
  exists t, s, rest.
  assert (Hf : f = xff).
  { unfold FROM_payload in H.
    rewrite (readUInt8_lookup _ 0 f) in H by done. cbn [mbind Result_bind bindR] in H.
    case_bool_decide as Hflag; [done|].
    apply byte_to_Z_inj. by destruct (decide (byte_to_Z f = 255)). }
  subst f. split; [done|].
  assert (Ht : byte_to_Z t = 0 \/ byte_to_Z t = 1 \/ byte_to_Z t = 2).
  { unfold FROM_payload in H.
    rewrite (readUInt8_lookup _ 0 xff) in H by done. cbn [mbind Result_bind bindR] in H.
    rewrite bool_decide_eq_false_2 in H by (intros E; by apply E).
    rewrite (readUInt8_lookup _ 1 t) in H by done. cbn [mbind Result_bind bindR] in H.
    destruct (Z.eqb_spec (byte_to_Z t) 0); [by left|].
    destruct (Z.eqb_spec (byte_to_Z t) 1); [by right; left|].
    destruct (Z.eqb_spec (byte_to_Z t) 2); [by right; right|done]. }
  destruct Ht as [Ht|[Ht|Ht]].
  - assert (t = x00) as -> by (by apply byte_to_Z_inj).
    rewrite FROM_payload_login in H. by injection H as <-.
  - assert (t = x01) as -> by (by apply byte_to_Z_inj).
    destruct rest as [|r0 [|r1 rest]].
    + rewrite FROM_payload_data in H by done. by injection H as <-.
    + rewrite FROM_payload_data in H by done. injection H as <-. simpl.
      split; [done|]. by destruct r0.
    + destruct (decide (r0 = x00)) as [->|Hr].
      * destruct rest as [|r2 rest].
        { by rewrite FROM_payload_short_fragment in H. }
        rewrite FROM_payload_fragment in H. by injection H as <-.
      * rewrite FROM_payload_data in H by (intros b rest' [= ? _]; done).
        injection H as <-. simpl. split; [done|]. by destruct r0.
  - assert (t = x02) as -> by (by apply byte_to_Z_inj).
    rewrite FROM_payload_message in H. by injection H as <-.
Qed.

(** Instances, with the CRC-32 of the specification. *)

Lemma serialize_outcome_witness :
  let p := command_request (lit "players") 7 in
  match serialize crc32_ieee p with
  | Ok (buffer, q) =>
    q = sent_once_more p /\
    exists cmd, command (attributes p) = Some cmd /\ 0 <= 7 <= 255 /\
                buffer = frame crc32_ieee ([xff; x01; byte_of_Z 7] ++ wire_text cmd)
  | Throw NoPassword => type p = Login /\ password (attributes p) = None
  | Throw NoCommand => type p = Command /\ command (attributes p) = None
  | Throw RangeError =>
    ~ (0 <= 7 <= 255) /\
    (type p = Message \/ type p = Command /\ is_Some (command (attributes p)))
  | Throw _ => False
  end.
Proof.
  exact (serialize_outcome crc32_ieee (command_request (lit "players") 7) crc32_ieee_length).
Defined.

Lemma serialize_length_witness :
  Buffer_length (frame crc32_ieee ([xff; x01; x07] ++ bytes_of "players"))
  = 9 + str_length (lit "players").
Proof.
  apply (serialize_length crc32_ieee (command_request (lit "players") 7)
           (sent_once_more (command_request (lit "players") 7))).
  - apply crc32_ieee_length.
  - vm_compute. reflexivity.
Defined.

Lemma serialize_text_complete_witness :
  drop 9 (frame crc32_ieee ([xff; x01; x07] ++ bytes_of "players"))
  = concat (utf8_chars (lit "players")) <-> ascii_text (lit "players").
Proof.
  refine (proj2 (serialize_text_complete crc32_ieee (command_request (lit "players") 7)
                   (sent_once_more (command_request (lit "players") 7))
                   (frame crc32_ieee ([xff; x01; x07] ++ bytes_of "players"))
                   (lit "players") crc32_ieee_length _) _).
  - vm_compute. reflexivity.
  - split; reflexivity.
Defined.

Lemma FROM_returns_iff_witness : exists p, FROM crc32_ieee login_accepted = Ok p.
Proof.
  apply (FROM_returns_iff crc32_ieee login_accepted crc32_ieee_length).
  split; [vm_compute; discriminate|]. split; [reflexivity|].
  split; [vm_compute; reflexivity|]. split; [reflexivity|].
  split; [exists 0; split; [reflexivity|lia]|].
  intros (H & _). vm_compute in H. discriminate H.
Defined.

Lemma FROM_fields_witness :
  exists t s rest,
    drop 6 login_accepted = xff :: t :: s :: rest /\
    t = x00 /\ login_reply true = login_reply (byte_to_Z s =? 1).
Proof.
  apply (FROM_fields crc32_ieee login_accepted (login_reply true)).
  vm_compute. reflexivity.
Defined.

(** ** The tables of the connection between two steps *)

Lemma well_kept_same (c c' : Connection) :
  packets c' = packets c -> info_lastPacket c' = info_lastPacket c ->
  info_sequence c' = info_sequence c -> multipart c' = multipart c ->
  well_kept c -> well_kept c'.
Proof. unfold well_kept. intros -> -> -> ->. done. Qed.

Lemma well_kept_object (c c' : Connection) :
  same_object c c' -> well_kept c -> well_kept c'.
Proof.
  intros (_ & _ & _ & Hs & _ & Hl & Hp & Hm & _). by apply well_kept_same.
Qed.

Lemma kept_emit (e : Event) : keeps well_kept (emit e).
Proof. apply hoare_modify. intros c. by apply well_kept_same. Qed.

Lemma kept_modify (f : Connection -> Connection) :
  (forall c, packets (f c) = packets c) ->
  (forall c, info_lastPacket (f c) = info_lastPacket c) ->
  (forall c, info_sequence (f c) = info_sequence c) ->
  (forall c, multipart (f c) = multipart c) ->
  keeps well_kept (modify f).
Proof. intros H1 H2 H3 H4. apply hoare_modify. intros c. by apply well_kept_same. Qed.

Lemma js_extend_bounds (len i : Z) :
  len <= js_extend len i /\ (0 <= i -> i < js_extend len i).
Proof.
  unfold js_extend. destruct (Z.leb_spec 0 i), (Z.leb_spec len i); simpl; lia.
Qed.

Lemma js_get_set_ne {A} (arr : JsArray A) (i j : Z) (v : A) :
  i <> j -> js_get (js_set arr i v) j = js_get arr j.
Proof. intros H. unfold js_get, js_set. simpl. by apply lookup_insert_ne. Qed.

Lemma js_get_clear {A} (arr : JsArray A) (i j : Z) (v : A) :
  js_get (js_clear arr i) j = Some v -> i <> j /\ js_get arr j = Some v.
Proof.
  unfold js_get, js_clear. simpl. intros H. by apply lookup_delete_Some in H.
Qed.

(** A new entry in its slot, and an entry less, keep the table in order. *)
Lemma well_kept_set (c c' : Connection) (i : Z) (st : IPacketPromise) :
  pending_entry i st ->
  packets c' = js_set (packets c) i st -> info_lastPacket c' = info_lastPacket c ->
  info_sequence c' = info_sequence c -> multipart c' = multipart c ->
  well_kept c -> well_kept c'.
Proof.
  intros Hst Hp Hl Hs Hm (Hpend & Hlast & Hseq & Hmulti).
  unfold well_kept. rewrite Hp, Hl, Hs, Hm.
  split; [|done]. intros j st' Hj.
  pose proof (js_extend_bounds (arr_length (packets c)) i) as [Hlen Hi].
  change (arr_length (js_set (packets c) i st)) with (js_extend (arr_length (packets c)) i).
  destruct (decide (i = j)) as [<-|Hne].
  - rewrite js_get_set in Hj. injection Hj as <-. split; [done|].
    apply Hi. destruct Hst as [? _]. lia.
  - rewrite js_get_set_ne in Hj by done. destruct (Hpend j st' Hj). split; [done|lia].
Qed.

Lemma well_kept_clear (c c' : Connection) (i : Z) :
  packets c' = js_clear (packets c) i -> info_lastPacket c' = info_lastPacket c ->
  info_sequence c' = info_sequence c -> multipart c' = multipart c ->
  well_kept c -> well_kept c'.
Proof.
  intros Hp Hl Hs Hm (Hpend & Hlast & Hseq & Hmulti).
  unfold well_kept. rewrite Hp, Hl, Hs, Hm.
  split; [|done]. intros j st' Hj. apply js_get_clear in Hj as [_ Hj].
  pose proof (js_extend_bounds (arr_length (packets c)) i) as [Hlen _].
  change (arr_length (js_clear (packets c) i)) with (js_extend (arr_length (packets c)) i).
  destruct (Hpend j st' Hj). split; [done|lia].
Qed.

Lemma fresh_multipart_get (s : Z) :
  js_get fresh_multipart s = if decide (0 <= s < 255) then Some (new_Array 0) else None.
Proof.
  unfold js_get, fresh_multipart. cbn [elements].
  destruct (decide (0 <= s < 255)) as [Hs|Hs].
  - apply elem_of_list_to_map.
    + rewrite <- list_fmap_compose.
      replace (_ <$> seqZ 0 255) with (seqZ 0 255); [apply NoDup_seqZ|].
      etrans; [symmetry; apply list_fmap_id|]. by apply list_fmap_ext.
    + apply list_elem_of_fmap. exists s. split; [done|]. apply elem_of_seqZ. lia.
  - apply not_elem_of_list_to_map. rewrite <- list_fmap_compose.
    intros (x & -> & Hx%elem_of_seqZ)%list_elem_of_fmap. simpl in Hs. lia.
Qed.

Lemma well_kept_cleaned (c c' : Connection) :
  packets c' = new_Array 255 -> info_lastPacket c' = info_lastPacket c ->
  info_sequence c' = -1 -> multipart c' = fresh_multipart ->
  well_kept c -> well_kept c'.
Proof.
  intros Hp Hl Hs Hm (_ & Hlast & _ & _).
  unfold well_kept. rewrite Hp, Hl, Hs, Hm.
  split; [by intros i st|]. split; [done|]. split; [lia|].
  intros s. rewrite fresh_multipart_get. destruct (decide (0 <= s < 255)).
  - split; [done|by eexists].
  - split; [by intros []|done].
Qed.

Lemma serialize_packet (crc32 : Buffer -> Buffer) (p q : Packet) (buffer : Buffer) :
  serialize crc32 p = Ok (buffer, q) -> q = sent_once_more p.
Proof.
  unfold serialize, mbind, Result_bind, bindR. intros H.
  destruct (match type p with Login => _ | Command => _ | Message => _ end); [|done].
  destruct (readInt32LE _ 0); [|done].
  destruct (writeInt32BE _ _ 2); [|done].
  injection H as _ <-. by rewrite sent_counted.
Qed.

Lemma Packet_set_sequence_Ok (p q : Packet) (s : Z) :
  Packet_set_sequence p s = Ok q ->
  0 <= s <= 255 /\
  q = {| type := type p; direction := direction p;
         attributes := set_sequence s (attributes p) |}.
Proof.
  unfold Packet_set_sequence.
  destruct (Z.ltb_spec s 0), (Z.ltb_spec 255 s); simpl; try done.
  intros [= <-]. split; [lia|done].
Qed.

Lemma kept_Connection_sequence :
  hoare well_kept Connection_sequence
    (fun s c' => well_kept c' /\ 0 <= s <= 255) (fun _ => False).
Proof.
  intros c (Hpend & Hlast & Hseq & Hmulti).
  rewrite Connection_sequence_next by done.
  pose proof (Z.mod_pos_bound (info_sequence c + 1) 256 ltac:(lia)).
  split; [|lia]. split; [done|]. split; [done|]. split; [simpl; lia|done].
Qed.

(** [store] of an entry that is fit for its slot. *)
Lemma kept_store (st : IPacketPromise) :
  (type (packet st) = Login -> pending_entry 0 st) ->
  (type (packet st) = Command -> pending_entry (Packet_sequence (packet st)) st) ->
  keeps well_kept (store st).
Proof.
  intros Hlogin Hcommand c Hc. unfold store, mbind, M_bind, this, modify, throw.
  destruct (type (packet st)) eqn:Ht.
  - destruct (js_get (packets c) 0); [exact Hc|].
    apply (well_kept_set c _ 0 st); auto.
  - destruct (js_get (packets c) _); [exact Hc|].
    apply (well_kept_set c _ (Packet_sequence (packet st)) st); auto.
  - exact Hc.
Qed.

Section Kept.

Variable crc32 : Buffer -> Buffer.
Variable dgram_send : nat -> Buffer -> option Error.

Lemma kept_Socket_send (pkt : Packet) (resolve : bool) :
  (resolve = true -> unsent pkt) ->
  keeps well_kept (Socket_send crc32 dgram_send pkt resolve).
Proof using Type.
  intros Hpkt c Hc.
  unfold Socket_send, mbind at 1, M_bind at 1, this.
  unfold mbind at 1, M_bind at 1, modify at 1.
  set (c1 := with_promises (S (promises c)) c).
  assert (Hc1 : well_kept c1) by (revert Hc; by apply well_kept_same).
  clearbody c1.
  assert (Hassigned :
    hoare well_kept
      (if bool_decide (type pkt = Command) && (Packet_sequence pkt <? 0)
       then s ← Connection_sequence; mret (Packet_set_sequence pkt s)
       else mret (Ok pkt))
      (fun r c' => well_kept c' /\
                   forall p, r = Ok p -> resolve = true ->
                     direction p = Request /\ timestamp (attributes p) = None /\
                     Packet_sent p = 0 /\ error (attributes p) = None /\
                     (type p = Login \/
                      type p = Command /\ 0 <= Packet_sequence p <= 255 /\
                      sequence (attributes p) = Some (Packet_sequence p)))
      (fun _ => False)).
  { destruct (bool_decide (type pkt = Command) && (Packet_sequence pkt <? 0)) eqn:E.
    - eapply hoare_bind; [apply kept_Connection_sequence|].
      intros s c2 [Hc2 Hs]. simpl. split; [done|].
      intros p Hp Hr. apply Packet_set_sequence_Ok in Hp as [_ ->].
      destruct (Hpkt Hr) as (Hd & Hts & Hsent & Herr & Hty). simpl.
      split; [done|]. split; [done|]. split; [done|]. split; [done|].
      right. apply andb_prop in E as [E%bool_decide_eq_true _].
      unfold Packet_sequence. simpl. done.
    - intros c2 Hc2. simpl. split; [done|]. intros p [= <-] Hr.
      destruct (Hpkt Hr) as (Hd & Hts & Hsent & Herr & Hty).
      split; [done|]. split; [done|]. split; [done|]. split; [done|].
      destruct Hty as [Hty|[Hty Hnone]]; [by left|].
      exfalso. apply andb_false_iff in E as [E|E].
      + by apply bool_decide_eq_false in E.
      + unfold Packet_sequence in E. rewrite Hnone in E. done. }
  unfold mbind at 1, M_bind at 1.
  specialize (Hassigned c1 Hc1).
  destruct (_ c1) as [[assigned|e] c2]; [|done].
  destruct Hassigned as [Hc2 Hty].
  destruct assigned as [pkt1|e].
  { destruct (serialize crc32 pkt1) as [[buffer pkt2]|e] eqn:Hser.
    - apply serialize_packet in Hser.
      destruct (dgram_send (promises c) buffer) as [err|].
      { simpl. revert Hc2. by apply well_kept_same. }
      unfold mbind at 1, M_bind at 1, emit at 1, modify at 1.
      set (c3 := with_event _ c2).
      assert (Hc3 : well_kept c3) by (revert Hc2; by apply well_kept_same).
      clearbody c3.
      destruct resolve.
      + unfold try_catch.
        destruct (Hty pkt1 eq_refl eq_refl) as (Hd & Hts & Hsent & Herr & Htype).
        assert (Hentry : forall i,
                  (type pkt1 = Login /\ i = 0) \/
                  (type pkt1 = Command /\ i = Packet_sequence pkt1) ->
                  0 <= i <= 255 ->
                  pending_entry i {| bytes := Buffer_length buffer; packet := pkt2;
                                     promise := promises c |}).
        { intros i Hi Hrange. subst pkt2. unfold pending_entry. simpl.
          rewrite Hsent. split; [done|]. split; [done|]. split; [done|]. split; [done|].
          split; [done|].
          destruct Hi as [[Hl ->]|[Hcmd ->]]; [by left|right].
          split; [done|]. destruct Htype as [?|(_ & _ & ?)]; [congruence|done]. }
        pose proof (kept_store {| bytes := Buffer_length buffer; packet := pkt2;
                                  promise := promises c |}) as Hstore.
        unfold mbind at 1, M_bind at 1.
        assert (Ht2 : type pkt2 = type pkt1) by (by subst pkt2).
        assert (Hs2 : Packet_sequence pkt2 = Packet_sequence pkt1) by (by subst pkt2).
        cbn [packet] in Hstore. rewrite Ht2, Hs2 in Hstore.
        specialize (Hstore ltac:(intros Hl; apply Hentry; [by left|lia])
                           ltac:(intros Hcmd; apply Hentry; [by right|];
                                 destruct Htype as [?|(_ & ? & _)]; [congruence|done])
                           c3 Hc3).
        destruct (store _ c3) as [[[]|e] c4].
        * simpl. done.
        * simpl. revert Hstore. by apply well_kept_same.
      + simpl. revert Hc3. by apply well_kept_same.
    - simpl. revert Hc2. by apply well_kept_same. }
  simpl. revert Hc2. by apply well_kept_same.
Qed.

Lemma kept_send_and_report (pkt : Packet) :
  keeps well_kept (send_and_report crc32 dgram_send pkt).
Proof using Type.
  unfold send_and_report. apply keeps_bind; [by apply kept_Socket_send|].
  intros [pkt' [e|]]; [apply keeps_defer, well_kept_object|apply keeps_ret].
Qed.

Lemma kept_disconnect (reason : Error) :
  hoare well_kept (disconnect reason) (fun _ => well_kept) (fun _ => False).
Proof using Type.
  intros c Hc. unfold disconnect. unfold mbind at 1, M_bind at 1.
  destruct (cleanup_run reason c)
    as (c' & -> & _ & _ & _ & Hl & _ & _ & Hs & _ & Hp & Hm & _).
  unfold mbind, M_bind, modify, this, emit, mret, M_ret. simpl.
  destruct (reconnect (options c') && _); simpl;
    by apply (well_kept_cleaned c).
Qed.

Lemma kept_resolve (pkt : Packet) : keeps well_kept (resolve crc32 dgram_send pkt).
Proof using Type.
  unfold resolve. destruct (type pkt).
  - apply keeps_this. intros c Hc. apply (hoare_forget _ _ _ _ _ Hc).
    apply keeps_bind; [by apply kept_modify|]. intros _.
    apply keeps_this. intros c1 Hc1. apply (hoare_forget _ _ _ _ _ Hc1).
    apply keeps_bind.
    + destruct (js_get (packets c) 0) as [st|]; [|apply keeps_ret].
      apply keeps_bind;
        [destruct (connected c1);
           [apply keeps_promise_resolve|apply keeps_promise_reject];
           apply well_kept_object|].
      intros _.
      apply keeps_this. intros c2 Hc2.
      apply hoare_bind with (Q := fun _ => well_kept); [|intros; apply keeps_ret].
      apply hoare_modify. intros c3 ->. by apply (well_kept_clear c2 _ 0).
    + intros resolved. apply keeps_bind; [|intros; apply keeps_ret].
      destruct (connected c1); [apply kept_emit|].
      eapply hoare_consequence; [apply kept_disconnect|done|done|done].
  - apply keeps_this. intros c Hc.
    eapply hoare_bind with (Q := fun _ => well_kept).
    + intros c' ->.
      destruct (js_get (packets c) (Packet_sequence pkt)) as [st|]; [|exact Hc].
      set (m := if bool_decide (is_Some (error (attributes pkt))) then _ else _).
      assert (Hsettle : hoare (fun c' => c' = c) m
                          (fun _ c1 => same_object c c1) (fun _ => False)).
      { subst m. repeat case_bool_decide;
          first [apply hoare_promise_reject_object|apply hoare_promise_resolve_object]. }
      specialize (Hsettle c eq_refl). unfold mbind at 1, M_bind at 1.
      destruct (m c) as [[[]|e] c1]; [|done].
      destruct Hsettle as (_ & _ & _ & Hs & _ & Hl & Hp & Hm & _).
      unfold mbind, M_bind, modify, mret, M_ret.
      by apply (well_kept_clear c _ (Packet_sequence pkt)).
    + intros resolved. apply keeps_bind; [|intros; apply keeps_ret].
      destruct (data (attributes pkt)) as [[|]|]; try apply keeps_ret. apply kept_emit.
  - apply keeps_bind; [apply kept_emit|]. intros _.
    apply keeps_bind; [apply kept_send_and_report|]. intros; apply keeps_ret.
Qed.


(** A fragment is put away in a slot that the table has; with a request
    pending that was sent once, an incomplete group is not asked for
    again. *)
Lemma kept_recieve (pkt : Packet) :
  timestamp (attributes pkt) = None -> keeps well_kept (recieve crc32 dgram_send pkt).
Proof using Type.
  intros Hts. unfold recieve.
  apply hoare_bind with (Q := fun _ => well_kept).
  { apply hoare_modify. intros c (Hpend & Hlast & Hseq & Hmulti).
    split; [done|]. split; [|done]. simpl. by intros p [= <-]. }
  intros _. case_bool_decide as Hd; [|apply kept_resolve].
  apply keeps_this. intros c Hc. apply (hoare_forget _ _ _ _ _ Hc).
  destruct (js_get (multipart c) (Packet_sequence pkt)) as [slots|] eqn:Hslot;
    [|apply hoare_throw].
  assert (Hput : forall (c0 : Connection) (slots' : JsArray Packet),
            well_kept c0 ->
            well_kept (with_multipart (js_set (multipart c0) (Packet_sequence pkt) slots') c0)).
  { intros c0 slots' (Hpend & Hlast & Hseq & Hmulti).
    split; [done|]. split; [done|]. split; [done|]. simpl.
    intros s. rewrite <- Hmulti.
    destruct (decide (Packet_sequence pkt = s)) as [<-|Hne].
    - rewrite js_get_set. split; [|by eexists].
      intros _. apply Hmulti. destruct Hc as (_ & _ & _ & Hm). apply Hm. by eexists.
    - by rewrite js_get_set_ne. }
  apply keeps_bind.
  { destruct (arr_length slots =? 0); [apply keeps_lift|apply keeps_ret]. }
  intros slots'.
  apply hoare_bind with (Q := fun _ => well_kept).
  { apply hoare_modify. intros c1 Hc1.
    destruct Hc as (Hpend & Hlast & Hseq & Hmulti).
    destruct Hc1 as (Hpend1 & Hlast1 & Hseq1 & Hmulti1).
    split; [done|]. split; [done|]. split; [done|]. simpl.
    intros s. rewrite <- Hmulti.
    destruct (decide (Packet_sequence pkt = s)) as [<-|Hne].
    - rewrite js_get_set, Hslot. split; by eexists.
    - by rewrite js_get_set_ne. }
  intros _.
  destruct (is_last_index pkt); [|apply keeps_ret].
  apply keeps_bind; [|intros; apply keeps_ret].
  apply hoare_try_catch with (E' := well_kept).
  - apply keeps_bind; [apply keeps_lift|]. intros [buff|].
    + apply keeps_this. intros c2 Hc2.
      apply hoare_bind with (Q := fun _ => well_kept).
      { apply hoare_modify. intros c3 ->. by apply Hput. }
      intros _. apply keeps_bind; [by apply kept_resolve|]. intros; apply keeps_ret.
    + apply keeps_this. intros c2 Hc2.
      destruct (js_get (packets c2) (Packet_sequence pkt)) as [resend|] eqn:Hre;
        [|apply (hoare_forget _ _ _ _ _ Hc2); apply keeps_ret].
      apply (hoare_forget _ _ _ _ _ Hc2).
      destruct Hc2 as (Hpend & _). destruct (Hpend _ _ Hre) as [(_ & _ & _ & Hsent & _) _].
      unfold Packet_sent. rewrite Hsent. simpl.
      apply keeps_bind; [by apply kept_resolve|]. intros; apply keeps_ret.
  - intros err. apply keeps_bind; [by apply kept_resolve|]. intros; apply keeps_ret.
Qed.

(** A pending request without a timestamp is not sent again by the
    timeout loop. *)
Lemma kept_check_pending (time i : Z) (p : IPacketPromise) :
  timestamp (attributes (packet p)) = None ->
  keeps well_kept (check_pending crc32 dgram_send time i p).
Proof using Type.
  intros Hts. unfold check_pending.
  apply keeps_this. intros c Hc. apply (hoare_forget _ _ _ _ _ Hc).
  rewrite Hts. simpl.
  destruct (packetTimeoutThresholded (options c) <=? Packet_sent (packet p));
    [|apply keeps_ret].
  apply keeps_bind; [apply kept_resolve|]. intros; apply keeps_ret.
Qed.

Lemma kept_check_all (time : Z) (entries : list (option IPacketPromise)) (i : Z) :
  (forall p, Some p ∈ entries -> timestamp (attributes (packet p)) = None) ->
  keeps well_kept (check_all crc32 dgram_send time i entries).
Proof using Type.
  revert i. induction entries as [|[p|] entries IH]; intros i Hentries; simpl.
  - apply keeps_ret.
  - apply keeps_bind.
    + apply kept_check_pending. apply Hentries. left.
    + intros _. apply IH. intros q Hq. apply Hentries. by right.
  - apply IH. intros q Hq. apply Hentries. by right.
Qed.

Lemma pending_untimed (c : Connection) (p : IPacketPromise) :
  well_kept c -> Some p ∈ js_values (packets c) ->
  timestamp (attributes (packet p)) = None /\ sent (attributes (packet p)) = Some 1.
Proof using Type.
  intros (Hpend & _) [i Hi]%js_values_get.
  destruct (Hpend i p Hi) as [(_ & _ & Hts & Hsent & _) _]. done.
Qed.

Lemma kept_timeout_tick (time : Z) : keeps well_kept (timeout_tick crc32 dgram_send time).
Proof using Type.
  unfold timeout_tick.
  apply hoare_try_catch with (E' := well_kept); [|intros; apply kept_emit].
  apply keeps_this. intros c Hc. apply (hoare_forget _ _ _ _ _ Hc).
  destruct (truthy _ && elapsed _ _ _).
  - eapply hoare_consequence; [apply kept_disconnect|done|done|done].
  - apply kept_check_all. intros p Hp. by apply (pending_untimed c).
Qed.

Lemma kept_Connection_command (cmd : jsstring) (resolve : bool) :
  keeps well_kept (Connection_command crc32 dgram_send cmd resolve).
Proof using Type.
  unfold Connection_command.
  apply keeps_this. intros c Hc. apply (hoare_forget _ _ _ _ _ Hc).
  destruct (negb (socket_listening c) || negb (connected c)); [apply hoare_throw|].
  apply keeps_bind.
  - apply kept_Socket_send. intros _. unfold unsent. simpl.
    split; [done|]. split; [done|]. split; [done|]. split; [done|]. by right.
  - intros [pkt' failure]. apply keeps_ret.
Qed.

Lemma kept_keepAlive_tick : keeps well_kept (keepAlive_tick crc32 dgram_send).
Proof using Type.
  unfold keepAlive_tick.
  apply keeps_this. intros c Hc. apply (hoare_forget _ _ _ _ _ Hc).
  destruct (connected c); [|apply keeps_ret].
  apply keeps_bind; [apply kept_Connection_command|].
  intros [id [e|]]; [apply keeps_defer, well_kept_object|].
  apply keeps_this. intros c1 Hc1. apply (hoare_forget _ _ _ _ _ Hc1).
  by apply kept_modify.
Qed.

Lemma kept_setup : keeps well_kept setup.
Proof using Type.
  unfold setup. apply keeps_this. intros c Hc. apply (hoare_forget _ _ _ _ _ Hc).
  apply keeps_bind; [|intros _].
  - destruct (keepAlive (options c)); [|apply keeps_ret].
    intros c1 Hc1. unfold setInterval, mbind, M_bind, this, modify, mret, M_ret.
    revert Hc1. by apply well_kept_same.
  - destruct (timeout (options c)); [|apply keeps_ret].
    intros c1 Hc1. unfold setInterval, mbind, M_bind, this, modify, mret, M_ret.
    revert Hc1. by apply well_kept_same.
Qed.

Lemma kept_connect : keeps well_kept (connect crc32 dgram_send).
Proof using Type.
  unfold connect.
  apply keeps_this. intros c Hc. apply (hoare_forget _ _ _ _ _ Hc).
  destruct (negb (socket_listening c)); [apply hoare_throw|].
  apply keeps_bind.
  { destruct (connected c); [|apply keeps_ret].
    eapply hoare_consequence; [apply kept_disconnect|done|done|done]. }
  intros _. apply keeps_bind; [apply kept_setup|].
  intros _. apply keeps_this. intros c1 Hc1. apply (hoare_forget _ _ _ _ _ Hc1).
  apply keeps_bind.
  - apply kept_Socket_send. intros _. unfold unsent. simpl.
    split; [done|]. split; [done|]. split; [done|]. split; [done|]. by left.
  - intros [pkt' failure]. apply keeps_ret.
Qed.

Lemma kept_kill (reason : Error) : keeps well_kept (kill reason).
Proof using Type.
  unfold kill. apply keeps_bind; [apply kept_emit|]. intros _.
  eapply hoare_consequence; [apply kept_disconnect|done|done|done].
Qed.

(** A decoded packet carries no timestamp. *)
Lemma FROM_untimed (buffer : Buffer) (p : Packet) :
  FROM crc32 buffer = Ok p -> timestamp (attributes p) = None.
Proof using Type.
  unfold FROM. intros H.
  destruct (Buffer_length buffer <? 9); [done|].
  destruct (bool_decide _); [done|].
  destruct (readInt32BE buffer 2) as [checksum|]; [|done].
  cbn [mbind Result_bind bindR] in H.
  destruct (readInt32LE _ 0) as [crc|]; [|done].
  cbn [mbind Result_bind bindR] in H.
  destruct (bool_decide _); [done|].
  unfold FROM_payload in H.
  destruct (readUInt8 _ 0) as [flag|]; [|done].
  cbn [mbind Result_bind bindR] in H.
  destruct (bool_decide _); [done|].
  destruct (readUInt8 _ 1) as [t|]; [|done].
  cbn [mbind Result_bind bindR] in H.
  destruct (t =? 0).
  { destruct (readUInt8 _ 2); [|done]. by injection H as <-. }
  destruct (t =? 1).
  { destruct (readUInt8 _ 2) as [s|]; [|done].
    cbn [mbind Result_bind bindR] in H.
    destruct (4 <? _).
    - destruct (readUInt8 _ 3) as [b|]; [|done].
      cbn [mbind Result_bind bindR] in H.
      destruct (b =? 0).
      + destruct (readUInt8 _ 4); [|done].
        cbn [mbind Result_bind bindR] in H.
        destruct (readUInt8 _ 5); [|done]. by injection H as <-.
      + by injection H as <-.
    - cbn [mbind Result_bind bindR] in H. by injection H as <-. }
  destruct (t =? 2); [|done].
  destruct (readUInt8 _ 2); [|done]. by injection H as <-.
Qed.

Lemma kept_Socket_receive (buffer : Buffer) : keeps well_kept (Socket_receive crc32 dgram_send buffer).
Proof using Type.
  unfold Socket_receive.
  destruct (FROM crc32 buffer) as [pkt|e] eqn:Hfrom; [|apply kept_emit].
  apply FROM_untimed in Hfrom.
  apply keeps_bind; [|intros; apply kept_emit].
  apply hoare_try_catch with (E' := well_kept); [|intros; apply keeps_ret].
  apply keeps_bind; [by apply kept_recieve|]. intros; apply keeps_ret.
Qed.

Lemma kept_run {A} (m : M A) (c : Connection) :
  keeps well_kept m -> well_kept c -> well_kept (run m c).
Proof using Type.
  intros Hm Hc. specialize (Hm c Hc). unfold run. by destruct (m c) as [[a|e] c'].
Qed.

Lemma kept_step (s : Step) (c : Connection) : well_kept c -> well_kept (step crc32 dgram_send s c).
Proof using Type.
  intros Hc. unfold step.
  match goal with |- well_kept (flush ?x) => apply (well_kept_same x); [done..|] end.
  destruct s.
  - revert Hc. by apply well_kept_same.
  - by apply kept_run; [apply kept_connect|].
  - by apply kept_run; [apply kept_Connection_command|].
  - by apply kept_run; [apply kept_kill|].
  - by apply kept_run; [apply kept_Socket_receive|].
  - destruct (running _ c); [|done]. by apply kept_run; [apply kept_timeout_tick|].
  - destruct (running _ c); [|done]. by apply kept_run; [apply kept_keepAlive_tick|].
Qed.

Lemma well_kept_new (listening : bool) (password : jsstring) (opts : IOptions) :
  well_kept (new_Connection listening password opts).
Proof using Type.
  split; [by intros i st|]. split; [done|]. split; [simpl; lia|].
  intros s. simpl. rewrite fresh_multipart_get. destruct (decide (0 <= s < 255)).
  - split; [done|by eexists].
  - split; [by intros []|done].
Qed.

Lemma reachable_well_kept (c : Connection) : reachable crc32 dgram_send c -> well_kept c.
Proof using Type.
  induction 1 as [listening password opts|c s _ IH].
  - apply well_kept_new.
  - by apply kept_step.
Qed.

End Kept.

(** ** The numbers of promises and handles between two steps *)

Lemma tidy_same (c c' : Connection) :
  packets c' = packets c -> promises c' = promises c -> pings c' = pings c ->
  intervals c' = intervals c -> handles c' = handles c -> options c' = options c ->
  keepAlive_timer c' = keepAlive_timer c -> timeout_timer c' = timeout_timer c ->
  tidy c -> tidy c'.
Proof. unfold tidy. intros -> -> -> -> -> -> -> ->. done. Qed.

Lemma tidied_modify (f : Connection -> Connection) :
  (forall c, packets (f c) = packets c) -> (forall c, promises (f c) = promises c) ->
  (forall c, pings (f c) = pings c) -> (forall c, intervals (f c) = intervals c) ->
  (forall c, handles (f c) = handles c) -> (forall c, options (f c) = options c) ->
  (forall c, keepAlive_timer (f c) = keepAlive_timer c) ->
  (forall c, timeout_timer (f c) = timeout_timer c) ->
  keeps tidy (modify f).
Proof. intros. apply hoare_modify. intros c. by apply tidy_same. Qed.

Lemma tidied_emit (e : Event) : keeps tidy (emit e).
Proof. by apply tidied_modify. Qed.

Lemma tidied_defer (e : Event) : keeps tidy (defer e).
Proof. by apply tidied_modify. Qed.

(** A promise that is settled is a ping less. *)
Lemma tidy_settled (c c' : Connection) (id : nat) :
  same_object c c' ->
  keepAlive_timer c' = keepAlive_timer c -> timeout_timer c' = timeout_timer c ->
  intervals c' = intervals c -> pings c' = pings c ∖ {[id]} ->
  tidy c -> tidy c'.
Proof.
  intros (_ & Ho & _ & _ & _ & _ & Hp & _ & Hpr & Hh) Hk Ht Hi Hpi
         (Hmade & Hone & Hping & Hrun & Hkoff & Htoff).
  unfold tidy. rewrite Ho, Hp, Hpr, Hh, Hk, Ht, Hi, Hpi.
  split; [done|]. split; [done|]. split; [|done].
  intros x [Hx _]%elem_of_difference. by apply Hping.
Qed.

Lemma tidied_promise_resolve (id : nat) (value : IPacketResponse) :
  keeps tidy (promise_resolve id value).
Proof.
  intros c Hc.
  destruct (promise_resolve_state id value c)
    as (c' & -> & Hsame & Hk & Ht & Hi & _ & _ & Hp).
  by apply (tidy_settled c c' id).
Qed.

Lemma tidied_promise_reject (id : nat) (reason : option Error) :
  keeps tidy (promise_reject id reason).
Proof.
  intros c Hc.
  destruct (promise_reject_state id reason c)
    as (c' & -> & Hsame & Hk & Ht & Hi & _ & _ & Hp).
  by apply (tidy_settled c c' id).
Qed.

Lemma tidied_Connection_sequence : keeps tidy Connection_sequence.
Proof.
  intros c Hc. unfold Connection_sequence, mbind, M_bind, this, modify, mret, M_ret.
  destruct (255 <=? info_sequence c); simpl; revert Hc; by apply tidy_same.
Qed.

(** An entry with a promise that the table does not have yet. *)
Lemma tidy_set (c c' : Connection) (i : Z) (st : IPacketPromise) :
  (promise st < promises c)%nat ->
  (forall j st', js_get (packets c) j = Some st' -> promise st' = promise st -> j = i) ->
  packets c' = js_set (packets c) i st -> promises c' = promises c ->
  pings c' = pings c -> intervals c' = intervals c -> handles c' = handles c ->
  options c' = options c -> keepAlive_timer c' = keepAlive_timer c ->
  timeout_timer c' = timeout_timer c ->
  tidy c -> tidy c'.
Proof.
  intros Hst Hnew Hp Hpr Hpi Hi Hh Ho Hk Ht (Hmade & Hone & Hrest).
  unfold tidy. rewrite Hp, Hpr, Hpi, Hi, Hh, Ho, Hk, Ht.
  split; [|split; [|exact Hrest]].
  - intros j st' Hj. destruct (decide (i = j)) as [<-|Hne].
    + rewrite js_get_set in Hj. by injection Hj as <-.
    + rewrite js_get_set_ne in Hj by done. by apply (Hmade j).
  - intros j k st1 st2 Hj Hk' Heq.
    destruct (decide (i = j)) as [<-|Hj'], (decide (i = k)) as [<-|Hk''].
    + done.
    + rewrite js_get_set in Hj. injection Hj as <-.
      rewrite js_get_set_ne in Hk' by done. symmetry. by apply (Hnew k st2).
    + rewrite js_get_set in Hk'. injection Hk' as <-.
      rewrite js_get_set_ne in Hj by done. by apply (Hnew j st1).
    + rewrite js_get_set_ne in Hj, Hk' by done. by apply (Hone j k st1 st2).
Qed.

Lemma tidy_clear (c c' : Connection) (i : Z) :
  packets c' = js_clear (packets c) i -> promises c' = promises c ->
  pings c' = pings c -> intervals c' = intervals c -> handles c' = handles c ->
  options c' = options c -> keepAlive_timer c' = keepAlive_timer c ->
  timeout_timer c' = timeout_timer c ->
  tidy c -> tidy c'.
Proof.
  intros Hp Hpr Hpi Hi Hh Ho Hk Ht (Hmade & Hone & Hrest).
  unfold tidy. rewrite Hp, Hpr, Hpi, Hi, Hh, Ho, Hk, Ht.
  split; [|split; [|exact Hrest]].
  - intros j st' [_ Hj]%js_get_clear. by apply (Hmade j).
  - intros j k st1 st2 [_ Hj]%js_get_clear [_ Hk']%js_get_clear. by apply Hone.
Qed.

Lemma tidied_store (st : IPacketPromise) (c : Connection) :
  tidy c -> (promise st < promises c)%nat ->
  (forall j st', js_get (packets c) j = Some st' -> promise st' <> promise st) ->
  tidy (snd (store st c)) /\ promises (snd (store st c)) = promises c.
Proof.
  intros Hc Hst Hnew. unfold store, mbind, M_bind, this, modify, throw.
  destruct (type (packet st)).
  - destruct (js_get (packets c) 0); [done|]. split; [|done].
    apply (tidy_set c _ 0 st); try done. intros j st' Hj Heq. by destruct (Hnew j st' Hj).
  - destruct (js_get (packets c) _); [done|]. split; [|done].
    apply (tidy_set c _ (Packet_sequence (packet st)) st); try done.
    intros j st' Hj Heq. by destruct (Hnew j st' Hj).
  - done.
Qed.

Section Tidy.

Variable crc32 : Buffer -> Buffer.
Variable dgram_send : nat -> Buffer -> option Error.

(** [Socket.send] makes one promise and returns; without [resolve] it
    leaves the pending table alone. *)
Lemma tidied_Socket_send (pkt : Packet) (resolve : bool) (c : Connection) :
  tidy c ->
  exists r c', Socket_send crc32 dgram_send pkt resolve c = (Ok r, c') /\
    tidy c' /\ promises c' = S (promises c) /\
    (resolve = false -> packets c' = packets c).
Proof using Type.
  intros Hc.
  unfold Socket_send, mbind at 1, M_bind at 1, this.
  unfold mbind at 1, M_bind at 1, modify at 1.
  set (c1 := with_promises (S (promises c)) c).
  assert (Hc1 : tidy c1).
  { destruct Hc as (Hmade & Hone & Hping & Hrest).
    split; [|split; [done|split; [|exact Hrest]]]; simpl.
    - intros i st Hi. specialize (Hmade i st Hi). lia.
    - intros id Hid. specialize (Hping id Hid). lia. }
  assert (Hfresh : forall j st', js_get (packets c1) j = Some st' ->
                                 promise st' <> promises c).
  { intros j st' Hj. destruct Hc as (Hmade & _). specialize (Hmade j st' Hj). lia. }
  assert (Hp1 : promises c1 = S (promises c)) by done.
  assert (Hk1 : packets c1 = packets c) by done.
  clearbody c1.
  assert (Hassigned : exists r c2,
    (if bool_decide (type pkt = Command) && (Packet_sequence pkt <? 0)
     then s ← Connection_sequence; mret (Packet_set_sequence pkt s)
     else mret (Ok pkt)) c1 = (Ok r, c2) /\
    tidy c2 /\ promises c2 = promises c1 /\ packets c2 = packets c1).
  { destruct (bool_decide (type pkt = Command) && (Packet_sequence pkt <? 0)).
    - unfold Connection_sequence, mbind, M_bind, this, modify, mret, M_ret.
      destruct (255 <=? info_sequence c1); simpl; eexists _, _;
        (split; [reflexivity|]); (split; [|done]); revert Hc1; by apply tidy_same.
    - by eexists _, c1. }
  unfold mbind at 1, M_bind at 1.
  destruct Hassigned as (assigned & c2 & -> & Hc2 & Hp2 & Hk2).
  assert (Hreject : forall (e : Error) (p : Packet),
            exists r c', (emit (Rejected (promises c) (Some e));; mret (p, Some e)) c2
                         = (Ok r, c') /\
              tidy c' /\ promises c' = S (promises c) /\
              (resolve = false -> packets c' = packets c)).
  { intros e p. eexists _, _. split; [reflexivity|].
    split; [revert Hc2; by apply tidy_same|]. simpl. split; [congruence|].
    intros _. congruence. }
  destruct assigned as [pkt1|e]; [|apply Hreject].
  destruct (serialize crc32 pkt1) as [[buffer pkt2]|e]; [|apply Hreject].
  destruct (dgram_send (promises c) buffer) as [err|]; [apply Hreject|].
  unfold mbind at 1, M_bind at 1, emit at 1, modify at 1.
  set (c3 := with_event _ c2).
  assert (Hc3 : tidy c3) by (revert Hc2; by apply tidy_same).
  assert (Hp3 : promises c3 = S (promises c)) by (simpl; congruence).
  assert (Hk3 : packets c3 = packets c) by (simpl; congruence).
  clearbody c3.
  destruct resolve.
  - unfold try_catch, mbind at 1, M_bind at 1.
    destruct (tidied_store {| bytes := Buffer_length buffer; packet := pkt2;
                              promise := promises c |} c3 Hc3) as [Hstore Hpst].
    { simpl. lia. }
    { intros j st' Hj. simpl. apply (Hfresh j). congruence. }
    destruct (store _ c3) as [[[]|e] c4]; simpl in *.
    + eexists _, _. split; [reflexivity|]. split; [done|]. split; [congruence|done].
    + eexists _, _. split; [reflexivity|].
      split; [revert Hstore; by apply tidy_same|]. simpl. split; [congruence|done].
  - eexists _, _. split; [reflexivity|].
    split; [revert Hc3; by apply tidy_same|]. simpl. split; [congruence|].
    intros _. congruence.
Qed.

Lemma hoare_tidied_Socket_send (pkt : Packet) (resolve : bool) (c : Connection)
    (E : Connection -> Prop) :
  tidy c ->
  hoare (fun c' => c' = c) (Socket_send crc32 dgram_send pkt resolve)
    (fun _ c' => tidy c' /\ promises c' = S (promises c) /\
                 (resolve = false -> packets c' = packets c))
    E.
Proof using Type.
  intros Hc c' ->.
  by destruct (tidied_Socket_send pkt resolve c Hc) as (r & c' & -> & H).
Qed.

Lemma keeps_tidied_Socket_send (pkt : Packet) (resolve : bool) :
  keeps tidy (Socket_send crc32 dgram_send pkt resolve).
Proof using Type.
  intros c Hc.
  by destruct (tidied_Socket_send pkt resolve c Hc) as (r & c' & -> & H & _).
Qed.

Lemma tidied_send_and_report (pkt : Packet) :
  keeps tidy (send_and_report crc32 dgram_send pkt).
Proof using Type.
  unfold send_and_report. apply keeps_bind; [apply keeps_tidied_Socket_send|].
  intros [pkt' [e|]]; [apply tidied_defer|apply keeps_ret].
Qed.

Lemma tidied_reject_each (reason : Error) (entries : list (option IPacketPromise)) :
  keeps tidy (reject_each reason entries).
Proof using Type.
  induction entries as [|[st|] entries IH]; simpl.
  - apply keeps_ret.
  - apply keeps_bind; [apply tidied_promise_reject|]. intros _. exact IH.
  - exact IH.
Qed.

(** [clearTimeout] stops an interval, and nothing else. *)
Lemma tidy_cleared (c c' : Connection) (handle : option nat) :
  packets c' = packets c -> promises c' = promises c -> pings c' = pings c ->
  intervals c' = cleared handle (intervals c) -> handles c' = handles c ->
  options c' = options c ->
  (keepAlive_timer c' = keepAlive_timer c \/ keepAlive_timer c' = None) ->
  (timeout_timer c' = timeout_timer c \/ timeout_timer c' = None) ->
  tidy c -> tidy c'.
Proof using Type.
  intros Hp Hpr Hpi Hi Hh Ho Hk Ht (Hmade & Hone & Hping & Hrun & Hkoff & Htoff).
  unfold tidy. rewrite Hp, Hpr, Hpi, Hi, Hh, Ho.
  split; [done|]. split; [done|]. split; [done|]. split.
  - intros h s Hs. apply (Hrun h s). destruct handle as [h0|]; [|done].
    simpl in Hs. by apply lookup_delete_Some in Hs as [_ Hs].
  - split; intros Hoff.
    + destruct Hk as [->| ->]; [by apply Hkoff|done].
    + destruct Ht as [->| ->]; [by apply Htoff|done].
Qed.

Lemma tidied_cleanup (reason : Error) : keeps tidy (cleanup reason).
Proof using Type.
  intros c Hc.
  destruct (cleanup_run reason c)
    as (c' & -> & _ & Ho & _ & _ & Hpr & Hh & _ & _ & Hp & _ & Hk & Ht & Hi & _ & _ & Hpi).
  destruct Hc as (Hmade & Hone & Hping & Hrun & Hkoff & Htoff).
  unfold tidy. rewrite Hp, Hpr, Hh, Ho, Hk, Ht, Hi, Hpi.
  split; [by intros i st|]. split; [by intros i j st st'|].
  split; [intros x [Hx _]%elem_of_difference; by apply Hping|].
  split; [|done].
  intros h s Hs. apply (Hrun h s).
  destruct (keepAlive_timer c) as [k|], (timeout_timer c) as [t|]; simpl in Hs;
    repeat match type of Hs with
           | delete _ _ !! _ = Some _ => apply lookup_delete_Some in Hs as [_ Hs]
           end; done.
Qed.

Lemma tidied_disconnect (reason : Error) :
  hoare tidy (disconnect reason) (fun _ => tidy) (fun _ => False).
Proof using Type.
  unfold disconnect.
  apply hoare_bind with (Q := fun _ => tidy).
  { intros c Hc. pose proof (tidied_cleanup reason c Hc) as H. revert H.
    by destruct (cleanup_run reason c) as (c' & -> & _). }
  intros _. apply hoare_bind with (Q := fun _ => tidy).
  { apply hoare_modify. intros c. by apply tidy_same. }
  intros _ c Hc. unfold mbind, M_bind, this.
  destruct (reconnect (options c) && _); [|done]. revert Hc. by apply tidy_same.
Qed.

Lemma tidied_resolve (pkt : Packet) : keeps tidy (resolve crc32 dgram_send pkt).
Proof using Type.
  unfold resolve. destruct (type pkt).
  - apply keeps_this. intros c Hc. apply (hoare_forget _ _ _ _ _ Hc).
    apply keeps_bind; [by apply tidied_modify|]. intros _.
    apply keeps_this. intros c1 Hc1. apply (hoare_forget _ _ _ _ _ Hc1).
    apply keeps_bind.
    + destruct (js_get (packets c) 0) as [st|]; [|apply keeps_ret].
      apply keeps_bind;
        [destruct (connected c1);
           [apply tidied_promise_resolve|apply tidied_promise_reject]|].
      intros _. apply keeps_this. intros c2 Hc2.
      apply hoare_bind with (Q := fun _ => tidy); [|intros; apply keeps_ret].
      apply hoare_modify. intros c3 ->. by apply (tidy_clear c2 _ 0).
    + intros resolved. apply keeps_bind; [|intros; apply keeps_ret].
      destruct (connected c1); [apply tidied_emit|].
      eapply hoare_consequence; [apply tidied_disconnect|done|done|done].
  - apply keeps_this. intros c Hc.
    eapply hoare_bind with (Q := fun _ => tidy).
    + intros c' ->.
      destruct (js_get (packets c) (Packet_sequence pkt)) as [st|]; [|exact Hc].
      set (m := if bool_decide (is_Some (error (attributes pkt))) then _ else _).
      assert (Hsettle : hoare (fun c' => c' = c) m
                          (fun _ c1 => tidy c1 /\ packets c1 = packets c)
                          (fun _ => False)).
      { intros c' ->. subst m.
        repeat case_bool_decide;
          match goal with
          | |- context [promise_reject ?id ?r c] =>
            destruct (promise_reject_state id r c)
              as (c1 & -> & Hsame & Hk & Ht & Hi & _ & _ & Hp)
          | |- context [promise_resolve ?id ?v c] =>
            destruct (promise_resolve_state id v c)
              as (c1 & -> & Hsame & Hk & Ht & Hi & _ & _ & Hp)
          end;
          (split; [by eapply (tidy_settled c c1)|]);
          by destruct Hsame as (_ & _ & _ & _ & _ & _ & ? & _). }
      specialize (Hsettle c eq_refl). unfold mbind at 1, M_bind at 1.
      destruct (m c) as [[[]|e] c1]; [|done].
      destruct Hsettle as [Hc1 Hp1].
      unfold mbind, M_bind, modify, mret, M_ret.
      apply (tidy_clear c1 _ (Packet_sequence pkt)); simpl; try done.
      by rewrite Hp1.
    + intros resolved. apply keeps_bind; [|intros; apply keeps_ret].
      destruct (data (attributes pkt)) as [[|]|]; try apply keeps_ret. apply tidied_emit.
  - apply keeps_bind; [apply tidied_emit|]. intros _.
    apply keeps_bind; [apply tidied_send_and_report|]. intros; apply keeps_ret.
Qed.

(** An entry that is sent again stays in its slot, with its promise. *)
Lemma tidy_again (c c' : Connection) (i : Z) (st st' : IPacketPromise) :
  js_get (packets c) i = Some st -> promise st' = promise st ->
  packets c' = js_set (packets c) i st' -> promises c' = promises c ->
  pings c' = pings c -> intervals c' = intervals c -> handles c' = handles c ->
  options c' = options c -> keepAlive_timer c' = keepAlive_timer c ->
  timeout_timer c' = timeout_timer c ->
  tidy c -> tidy c'.
Proof using Type.
  intros Hst Heq Hp Hpr Hpi Hi Hh Ho Hk Ht Hc.
  apply (tidy_set c c' i st'); try done.
  - rewrite Heq. destruct Hc as (Hmade & _). by apply (Hmade i).
  - intros j st2 Hj Heq2. destruct Hc as (_ & Hone & _).
    apply (Hone j i st2 st Hj Hst). congruence.
Qed.

Lemma tidied_recieve (pkt : Packet) : keeps tidy (recieve crc32 dgram_send pkt).
Proof using Type.
  unfold recieve.
  apply keeps_bind; [by apply tidied_modify|]. intros _.
  case_bool_decide as Hd; [|apply tidied_resolve].
  apply keeps_this. intros c Hc. apply (hoare_forget _ _ _ _ _ Hc).
  destruct (js_get (multipart c) (Packet_sequence pkt)) as [slots|]; [|apply hoare_throw].
  apply keeps_bind.
  { destruct (arr_length slots =? 0); [apply keeps_lift|apply keeps_ret]. }
  intros slots'. apply keeps_bind; [by apply tidied_modify|]. intros _.
  destruct (is_last_index pkt); [|apply keeps_ret].
  apply keeps_bind; [|intros; apply keeps_ret].
  apply hoare_try_catch with (E' := tidy).
  - apply keeps_bind; [apply keeps_lift|]. intros [buff|].
    + apply keeps_this. intros c2 Hc2. apply (hoare_forget _ _ _ _ _ Hc2).
      apply keeps_bind; [by apply tidied_modify|]. intros _.
      apply keeps_bind; [by apply tidied_resolve|]. intros; apply keeps_ret.
    + apply keeps_this. intros c2 Hc2.
      destruct (js_get (packets c2) (Packet_sequence pkt)) as [resend|] eqn:Hre;
        [|apply (hoare_forget _ _ _ _ _ Hc2); apply keeps_ret].
      destruct (5 <=? Packet_sent (packet resend)).
      * eapply hoare_bind; [by apply (hoare_tidied_Socket_send (packet resend) false c2 tidy)|].
        intros [pkt' failure]. simpl.
        apply hoare_this_bind. intros c3 (Hc3 & Hp3 & Hk3).
        apply hoare_bind with (Q := fun _ => tidy).
        { apply hoare_modify. intros c4 ->.
          apply (tidy_again c3 _ (Packet_sequence pkt) resend
                   {| bytes := bytes resend; packet := pkt'; promise := promise resend |});
            try done.
          by rewrite Hk3. }
        intros _. destruct failure; [apply hoare_throw|apply keeps_ret].
      * apply (hoare_forget _ _ _ _ _ Hc2).
        apply keeps_bind; [by apply tidied_resolve|]. intros; apply keeps_ret.
  - intros err. apply keeps_bind; [by apply tidied_resolve|]. intros; apply keeps_ret.
Qed.

Lemma tidied_check_pending (time i : Z) (p : IPacketPromise) :
  keeps tidy (check_pending crc32 dgram_send time i p).
Proof using Type.
  unfold check_pending.
  apply keeps_this. intros c Hc.
  destruct (truthy _ && elapsed _ _ _).
  - eapply hoare_bind; [by apply (hoare_tidied_Socket_send (packet p) false c tidy)|].
    intros [pkt' failure]. simpl.
    apply hoare_this_bind. intros c3 (Hc3 & Hp3 & Hk3).
    apply hoare_bind with (Q := fun _ => tidy).
    { case_bool_decide as Hget; [|intros c4 ->; exact Hc3].
      apply hoare_modify. intros c4 ->.
      by apply (tidy_again c3 _ i p
                  {| bytes := bytes p; packet := pkt'; promise := promise p |}). }
    intros _. destruct failure; [apply hoare_throw|apply keeps_ret].
  - apply (hoare_forget _ _ _ _ _ Hc).
    destruct (packetTimeoutThresholded (options c) <=? Packet_sent (packet p));
      [|apply keeps_ret].
    apply keeps_bind; [apply tidied_resolve|]. intros; apply keeps_ret.
Qed.

Lemma tidied_check_all (time : Z) (entries : list (option IPacketPromise)) (i : Z) :
  keeps tidy (check_all crc32 dgram_send time i entries).
Proof using Type.
  revert i. induction entries as [|[p|] entries IH]; intros i; simpl.
  - apply keeps_ret.
  - apply keeps_bind; [apply tidied_check_pending|]. intros _. apply IH.
  - apply IH.
Qed.

Lemma tidied_timeout_tick (time : Z) : keeps tidy (timeout_tick crc32 dgram_send time).
Proof using Type.
  unfold timeout_tick.
  apply hoare_try_catch with (E' := tidy); [|intros; apply tidied_emit].
  apply keeps_this. intros c Hc. apply (hoare_forget _ _ _ _ _ Hc).
  destruct (truthy _ && elapsed _ _ _).
  - eapply hoare_consequence; [apply tidied_disconnect|done|done|done].
  - apply tidied_check_all.
Qed.

(** [command] returns the number of a promise that has been made. *)
Lemma tidied_Connection_command (cmd : jsstring) (resolve : bool) :
  hoare tidy (Connection_command crc32 dgram_send cmd resolve)
    (fun r c' => tidy c' /\ (fst r < promises c')%nat) tidy.
Proof using Type.
  unfold Connection_command.
  apply hoare_this_bind. intros c Hc.
  destruct (negb (socket_listening c) || negb (connected c)).
  { intros c' ->. exact Hc. }
  eapply hoare_bind; [by apply hoare_tidied_Socket_send|].
  intros [pkt' failure] c' (Hc' & Hp' & _). simpl. split; [done|lia].
Qed.

Lemma tidied_keepAlive_tick : keeps tidy (keepAlive_tick crc32 dgram_send).
Proof using Type.
  unfold keepAlive_tick.
  apply keeps_this. intros c Hc. apply (hoare_forget _ _ _ _ _ Hc).
  destruct (connected c); [|apply keeps_ret].
  eapply hoare_bind; [apply tidied_Connection_command|].
  intros [id [e|]]; simpl.
  { intros c1 [Hc1 _]. revert Hc1. by apply tidy_same. }
  intros c1 [(Hmade & Hone & Hping & Hrest) Hid].
  unfold mbind, M_bind, this, modify. simpl.
  split; [done|]. split; [done|]. split; [|done].
  intros x [->%elem_of_singleton|Hx]%elem_of_union; [done|by apply Hping].
Qed.

Lemma tidied_setup : keeps tidy setup.
Proof using Type.
  intros c (Hmade & Hone & Hping & Hrun & Hkoff & Htoff).
  unfold setup, setInterval, mbind, M_bind, this, modify, mret, M_ret.
  assert (Hins : forall (m : gmap nat Scheduler) (n k : nat) (s s' : Scheduler),
            (forall h s, m !! h = Some s -> (h < n)%nat) ->
            <[n := s']> m !! k = Some s -> (k < S n)%nat).
  { intros m n k s s' Hm [[-> _]|[_ Hk]]%lookup_insert_Some; [lia|].
    specialize (Hm k s Hk). lia. }
  destruct (keepAlive (options c)) eqn:Ek, (timeout (options c)) eqn:Et;
    unfold tidy;
    cbn [intervals handles options keepAlive_timer timeout_timer packets promises
         pings with_timeout_timer with_intervals with_keepAlive_timer];
    rewrite ?Ek, ?Et;
    (split; [done|]); (split; [done|]); (split; [done|]);
    (split; [|split; intros; first [done|auto]]).
  - intros h s Hs. eapply Hins; [|exact Hs]. intros h' s'. by apply Hins.
  - intros h s. by apply Hins.
  - intros h s. by apply Hins.
  - done.
Qed.

Lemma tidied_connect : keeps tidy (connect crc32 dgram_send).
Proof using Type.
  unfold connect.
  apply keeps_this. intros c Hc. apply (hoare_forget _ _ _ _ _ Hc).
  destruct (negb (socket_listening c)); [apply hoare_throw|].
  apply keeps_bind.
  { destruct (connected c); [|apply keeps_ret].
    eapply hoare_consequence; [apply tidied_disconnect|done|done|done]. }
  intros _. apply keeps_bind; [apply tidied_setup|].
  intros _. apply keeps_this. intros c1 Hc1. apply (hoare_forget _ _ _ _ _ Hc1).
  apply keeps_bind; [apply keeps_tidied_Socket_send|].
  intros [pkt' failure]. apply keeps_ret.
Qed.

Lemma tidied_kill (reason : Error) : keeps tidy (kill reason).
Proof using Type.
  unfold kill. apply keeps_bind; [apply tidied_emit|]. intros _.
  eapply hoare_consequence; [apply tidied_disconnect|done|done|done].
Qed.

Lemma tidied_Socket_receive (buffer : Buffer) :
  keeps tidy (Socket_receive crc32 dgram_send buffer).
Proof using Type.
  unfold Socket_receive.
  destruct (FROM crc32 buffer) as [pkt|e]; [|apply tidied_emit].
  apply keeps_bind; [|intros; apply tidied_emit].
  apply hoare_try_catch with (E' := tidy); [|intros; apply keeps_ret].
  apply keeps_bind; [by apply tidied_recieve|]. intros; apply keeps_ret.
Qed.

Lemma tidied_run {A} (m : M A) (c : Connection) :
  keeps tidy m -> tidy c -> tidy (run m c).
Proof using Type.
  intros Hm Hc. specialize (Hm c Hc). unfold run. by destruct (m c) as [[a|e] c'].
Qed.

Lemma tidied_step (s : Step) (c : Connection) :
  tidy c -> tidy (step crc32 dgram_send s c).
Proof using Type.
  intros Hc. unfold step.
  match goal with |- tidy (flush ?x) => apply (tidy_same x); [done..|] end.
  destruct s.
  - revert Hc. by apply tidy_same.
  - by apply tidied_run; [apply tidied_connect|].
  - apply tidied_run; [|done].
    eapply hoare_consequence; [apply tidied_Connection_command|done|by intros ? ? []|done].
  - by apply tidied_run; [apply tidied_kill|].
  - by apply tidied_run; [apply tidied_Socket_receive|].
  - destruct (running _ c); [|done]. by apply tidied_run; [apply tidied_timeout_tick|].
  - destruct (running _ c); [|done]. by apply tidied_run; [apply tidied_keepAlive_tick|].
Qed.

Lemma reachable_tidy (c : Connection) : reachable crc32 dgram_send c -> tidy c.
Proof using Type.
  induction 1 as [listening password opts|c s _ IH]; [|by apply tidied_step].
  split; [by intros i st|]. split; [by intros i j st st'|].
  split; [intros id Hid; simpl in Hid; by apply elem_of_empty in Hid|].
  split; [intros h s Hs; simpl in Hs; by rewrite lookup_empty in Hs|]. done.
Qed.

(** Between two steps no microtask waits. *)
Lemma reachable_quiet (c : Connection) : reachable crc32 dgram_send c -> microtasks c = [].
Proof using Type. by induction 1. Qed.

End Tidy.
(** ** Requests and their replies *)

(** Without microtasks nothing follows the callback. *)
Lemma flush_quiet (c : Connection) : microtasks c = [] -> flush c = c.
Proof. destruct c. simpl. intros ->. unfold flush. simpl. by rewrite app_nil_r. Qed.

Lemma flush_events (c : Connection) : events (flush c) = events c ++ microtasks c.
Proof. done. Qed.






Section Exchange.

Variable crc32 : Buffer -> Buffer.
Variable dgram_send : nat -> Buffer -> option Error.
Hypothesis crc32_length : forall b, (4 <= length (crc32 b))%nat.

Lemma Socket_send_command (cmd : jsstring) (c : Connection) :
  -1 <= info_sequence c <= 255 ->
  let s := (info_sequence c + 1) mod 256 in
  let pkt := sent_once_more (command_request cmd s) in
  let buffer := frame crc32 ([xff; x01; byte_of_Z s] ++ wire_text cmd) in
  let c0 := with_sequence s (with_promises (S (promises c)) c) in
  let c1 := with_event (Transmitted pkt buffer) c0 in
  Socket_send crc32 dgram_send (fresh_command cmd) true c
  = match dgram_send (promises c) buffer with
    | Some err =>
      (Ok (pkt, Some err), with_event (Rejected (promises c) (Some err)) c0)
    | None =>
      match js_get (packets c) s with
      | None =>
        (Ok (pkt, None),
         with_packets
           (js_set (packets c) s
              {| bytes := Buffer_length buffer; packet := pkt; promise := promises c |}) c1)
      | Some _ =>
        (Ok (pkt, Some PacketOverflow),
         with_event (Rejected (promises c) (Some PacketOverflow)) c1)
      end
    end.
Proof using crc32_length.
  intros Hseq s pkt buffer c0 c1.
  assert (Hs : 0 <= s <= 255).
  { pose proof (Z.mod_pos_bound (info_sequence c + 1) 256 ltac:(lia)). unfold s. lia. }
  unfold Socket_send.
  unfold mbind at 1, M_bind at 1, this.
  unfold mbind at 1, M_bind at 1, modify at 1.
  unfold mbind at 1, M_bind at 1.
  change (bool_decide (type (fresh_command cmd) = Command)
          && (Packet_sequence (fresh_command cmd) <? 0)) with true. cbv iota.
  unfold mbind at 1, M_bind at 1.
  rewrite Connection_sequence_next by done.
  change (info_sequence (with_promises (S (promises c)) c)) with (info_sequence c).
  fold s. unfold mret at 1, M_ret at 1.
  assert (Hset : Packet_set_sequence (fresh_command cmd) s = Ok (command_request cmd s)).
  { unfold Packet_set_sequence.
    destruct (Z.ltb_spec s 0), (Z.ltb_spec 255 s); simpl; try lia. done. }
  rewrite Hset.
  rewrite (serialize_command_text crc32 (command_request cmd s) cmd) by (try done; apply crc32_length).
  change (Packet_sequence (command_request cmd s)) with s. fold buffer pkt.
  destruct (dgram_send (promises c) buffer) as [err|]; [reflexivity|].
  unfold mbind at 1, M_bind at 1, emit at 1, modify at 1.
  unfold try_catch, store.
  unfold mbind at 1, M_bind at 1.
  unfold mbind at 1, M_bind at 1, this.
  change (type (packet {| bytes := Buffer_length buffer; packet := pkt;
                          promise := promises c |})) with Command.
  cbv iota.
  change (Packet_sequence (packet {| bytes := Buffer_length buffer; packet := pkt;
                                     promise := promises c |})) with s.
  change (packets (with_event (Transmitted pkt buffer)
                     (with_sequence s (with_promises (S (promises c)) c))))
    with (packets c).
  destruct (js_get (packets c) s); reflexivity.
Qed.

(** [command(cmd)] on a connection that is logged in. *)
Lemma Connection_command_sends (cmd : jsstring) (c : Connection) :
  socket_listening c = true -> connected c = true ->
  Connection_command crc32 dgram_send cmd true c
  = let '(r, c') := Socket_send crc32 dgram_send (fresh_command cmd) true c in
    match r with
    | Ok (_, failure) => (Ok (promises c, failure), c')
    | Throw e => (Throw e, c')
    end.
Proof using Type.
  intros Hl Hc. unfold Connection_command.
  unfold mbind at 1, M_bind at 1, this. rewrite Hl, Hc. cbn [negb orb].
  unfold mbind, M_bind. fold (fresh_command cmd).
  destruct (Socket_send crc32 dgram_send (fresh_command cmd) true c) as [[[pkt failure]|e] c']; done.
Qed.

(** A reply with text for a pending request whose promise is no ping. *)
Lemma resolve_data_pending (c : Connection) (st : IPacketPromise) (d : jsstring) (s : Z) :
  js_get (packets c) s = Some st ->
  promise st ∉ pings c ->
  let reply := reply_with_data Command d s in
  exists c',
    resolve crc32 dgram_send reply c = (Ok true, c') /\
    events c' = events c ++ [completion st d reply] ++ command_event d true reply /\
    packets c' = js_clear (packets c) s /\
    info_connected c' = info_connected c /\ info_sequence c' = info_sequence c /\
    promises c' = promises c /\ info_lastPacket c' = info_lastPacket c /\
    socket_listening c' = socket_listening c /\ options c' = options c /\
    microtasks c' = microtasks c.
Proof using Type.
  intros Hst Hping reply. unfold resolve.
  change (type reply) with Command. cbv iota.
  change (Packet_sequence reply) with s.
  change (error (attributes reply)) with (@None Error).
  change (data (attributes reply)) with (Some d).
  unfold mbind at 1, M_bind at 1, this. rewrite Hst.
  rewrite bool_decide_eq_false_2 by (by intros []).
  unfold completion.
  destruct (bool_decide (d = lit "Unknown command")) eqn:Hd.
  - rewrite bool_decide_eq_true_2 by (apply bool_decide_eq_true in Hd; congruence).
    unfold mbind at 1, M_bind at 1. unfold mbind at 1, M_bind at 1.
    rewrite promise_reject_run, bool_decide_eq_false_2 by done.
    destruct d as [|u d]; eexists; (split; [reflexivity|]); simpl;
      rewrite <- ?app_assoc; done.
  - rewrite bool_decide_eq_false_2 by (apply bool_decide_eq_false in Hd; congruence).
    unfold mbind at 1, M_bind at 1. unfold mbind at 1, M_bind at 1.
    rewrite promise_resolve_run, bool_decide_eq_false_2 by done.
    destruct d as [|u d]; eexists; (split; [reflexivity|]); simpl;
      rewrite <- ?app_assoc; done.
Qed.

Lemma byte_of_to_Z (s : Z) : 0 <= s <= 255 -> byte_to_Z (byte_of_Z s) = s.
Proof using Type. intros Hs. rewrite byte_to_Z_of_Z. apply Z.mod_small. lia. Qed.

(** The datagram of a plain Command reply, for a sequence with a request
    pending whose promise is no ping. *)
Lemma Socket_receive_reply (c : Connection) (st : IPacketPromise) (s : Z) (text : Buffer) :
  0 <= s <= 255 ->
  js_get (packets c) s = Some st ->
  promise st ∉ pings c ->
  (forall b rest, text <> x00 :: b :: rest) ->
  let d := Buffer_toString text in
  let reply := reply_with_data Command d s in
  let datagram := frame crc32 ([xff; x01; byte_of_Z s] ++ text) in
  exists c',
    Socket_receive crc32 dgram_send datagram c = (Ok tt, c') /\
    events c' = events c ++ [completion st d reply] ++ command_event d true reply
                ++ [Emit_received reply datagram] /\
    packets c' = js_clear (packets c) s /\
    info_connected c' = info_connected c /\ info_sequence c' = info_sequence c /\
    promises c' = promises c /\ info_lastPacket c' = Some reply /\
    socket_listening c' = socket_listening c /\ options c' = options c /\
    microtasks c' = microtasks c.
Proof using crc32_length.
  intros Hs Hst Hping Htext d reply datagram. unfold Socket_receive, datagram.
  rewrite FROM_frame by (try apply crc32_length; simpl; lia).
  cbn [app]. rewrite FROM_payload_data by done.
  rewrite byte_of_to_Z by done. fold d reply.
  unfold recieve.
  unfold mbind at 1, M_bind at 1. unfold try_catch.
  unfold mbind at 1, M_bind at 1.
  unfold mbind at 1, M_bind at 1, modify at 1.
  change (bool_decide (direction reply = Split)) with false. cbv iota.
  destruct (resolve_data_pending (with_lastPacket (Some reply) c) st d s Hst Hping)
    as (c' & Hres & Hev & Hp & Hconn & Hseq & Hprom & Hlast & Hlist & Hopt & Hmicro).
  fold reply in Hres. rewrite Hres.
  eexists. split; [reflexivity|]. simpl.
  rewrite Hev, Hp, Hconn, Hseq, Hprom, Hlast, Hlist, Hopt, Hmicro. simpl.
  rewrite <- !app_assoc. done.
Qed.

Lemma js_get_clear_eq {A} (arr : JsArray A) (i : Z) : js_get (js_clear arr i) i = None.
Proof using Type. unfold js_get, js_clear. simpl. apply lookup_delete_eq. Qed.

(** [command(cmd)], sent by the UDP socket, and then the datagram of the
    plain reply [text] to it, in a state that the connection gets into and
    that has the slot of the next sequence free. *)
Lemma command_exchange (c : Connection) (cmd : jsstring) (text : Buffer) :
  reachable crc32 dgram_send c ->
  socket_listening c = true -> connected c = true ->
  let s := (info_sequence c + 1) mod 256 in
  js_get (packets c) s = None ->
  let sent_bytes := frame crc32 ([xff; x01; byte_of_Z s] ++ wire_text cmd) in
  dgram_send (promises c) sent_bytes = None ->
  (forall b rest, text <> x00 :: b :: rest) ->
  let d := Buffer_toString text in
  let request := sent_once_more (command_request cmd s) in
  let reply := reply_with_data Command d s in
  let datagram := frame crc32 ([xff; x01; byte_of_Z s] ++ text) in
  let st := {| bytes := Buffer_length sent_bytes; packet := request;
               promise := promises c |} in
  let c' := steps crc32 dgram_send [Do_command cmd true; Datagram datagram] c in
  events c' = events c ++ [Transmitted request sent_bytes; completion st d reply]
              ++ command_event d true reply ++ [Emit_received reply datagram] /\
  js_get (packets c') s = None /\ connected c' = true /\ info_sequence c' = s.
Proof using crc32_length.
  intros Hreach Hl Hc s Hfree sent_bytes Hsent Htext d request reply datagram st c'.
  destruct (reachable_well_kept crc32 dgram_send c Hreach) as (_ & _ & Hseq & _).
  destruct (reachable_tidy crc32 dgram_send c Hreach) as (_ & _ & Hping & _).
  pose proof (reachable_quiet crc32 dgram_send c Hreach) as Hquiet.
  assert (Hs : 0 <= s <= 255).
  { pose proof (Z.mod_pos_bound (info_sequence c + 1) 256 ltac:(lia)). unfold s. lia. }
  set (c1 := with_packets (js_set (packets c) s st)
               (with_event (Transmitted request sent_bytes)
                  (with_sequence s (with_promises (S (promises c)) c)))).
  assert (Hc1 : step crc32 dgram_send (Do_command cmd true) c = c1).
  { unfold step, run. rewrite Connection_command_sends by done.
    rewrite Socket_send_command by done. fold s request sent_bytes.
    rewrite Hsent, Hfree. cbn [snd]. by apply flush_quiet. }
  destruct (Socket_receive_reply c1 st s text Hs) as
    (c2 & Hrecv & Hev & Hp & Hconn & Hsq & _ & _ & _ & _ & Hmicro);
    [apply js_get_set| |done|].
  { intros Hin. apply Hping in Hin. simpl in Hin. lia. }
  fold d reply datagram in Hrecv, Hev.
  assert (Hc' : c' = c2).
  { unfold c', steps. cbn [fold_left]. rewrite Hc1. unfold step, run.
    rewrite Hrecv. cbn [snd]. apply flush_quiet. by rewrite Hmicro. }
  rewrite Hc'. clear Hc' c'.
  rewrite Hev, Hp. unfold connected. rewrite Hconn, Hsq.
  split; [|split; [apply js_get_clear_eq|split; [exact Hc|done]]].
  unfold c1. simpl. rewrite <- !app_assoc. done.
Qed.


Lemma Buffer_toString_NUL (rest : Buffer) :
  exists d, Buffer_toString (x00 :: rest) = 0%N :: d.
Proof using Type. unfold Buffer_toString. simpl. by eexists. Qed.

(** X7. In the same situation, when the text of the reply is [Unknown
    command], the promise of the command is rejected with [UnknownCommand]
    of the command that was sent; the [command] event is emitted all the
    same, with [resolved] true, and the slot is freed. *)
Theorem unknown_command_rejected (c : Connection) (cmd : jsstring) (text : Buffer) :
  reachable crc32 dgram_send c ->
  socket_listening c = true -> connected c = true ->
  let s := (info_sequence c + 1) mod 256 in
  js_get (packets c) s = None ->
  let sent_bytes := frame crc32 ([xff; x01; byte_of_Z s] ++ wire_text cmd) in
  dgram_send (promises c) sent_bytes = None ->
  Buffer_toString text = lit "Unknown command" ->
  let request := sent_once_more (command_request cmd s) in
  let reply := reply_with_data Command (lit "Unknown command") s in
  let datagram := frame crc32 ([xff; x01; byte_of_Z s] ++ text) in
  let c' := steps crc32 dgram_send [Do_command cmd true; Datagram datagram] c in
  events c'
  = events c
    ++ [Transmitted request sent_bytes;
        Rejected (promises c) (Some (UnknownCommand (Some cmd)));
        Emit_command (Some (lit "Unknown command")) true reply;
        Emit_received reply datagram] /\
  js_get (packets c') s = None /\ connected c' = true.
Proof using crc32_length.
  intros Hreach Hl Hc s Hfree sent_bytes Hsent Hd request reply datagram c'.
  assert (Htext : forall b rest, text <> x00 :: b :: rest).
  { intros b rest ->. destruct (Buffer_toString_NUL (b :: rest)) as [d' E].
    rewrite E in Hd. discriminate Hd. }
  destruct (command_exchange c cmd text Hreach Hl Hc Hfree Hsent Htext)
    as (Hev & Hp & Hconn & _).
  rewrite Hd in Hev. fold s request sent_bytes reply datagram c' in Hev, Hp, Hconn.
  split; [|done]. rewrite Hev. unfold completion.
  rewrite bool_decide_eq_true_2 by done. done.
Qed.

(** X8. The outcome of [command(cmd)] in any state whose sequence counter
    is in -1..255.  It throws [NoConnection], changing nothing, exactly when
    the socket does not listen or the connection is not connected.
    Otherwise it makes a promise, takes the next sequence number [s] and
    hands the datagram to the UDP socket.  When the socket reports an error
    the promise is rejected with it: nothing was sent and nothing is stored.
    When the datagram was sent, the request is stored at slot [s], which was
    free, or, slot [s] being taken, the promise is rejected with
    [PacketOverflow] and the table is left alone.  The sequence number is
    used up in every case. *)
Theorem command_outcome (c : Connection) (cmd : jsstring) :
  -1 <= info_sequence c <= 255 ->
  let s := (info_sequence c + 1) mod 256 in
  let request := sent_once_more (command_request cmd s) in
  let sent_bytes := frame crc32 ([xff; x01; byte_of_Z s] ++ wire_text cmd) in
  match Connection_command crc32 dgram_send cmd true c with
  | (Throw e, c') =>
    e = NoConnection /\ c' = c /\ (socket_listening c = false \/ connected c = false)
  | (Ok (id, failure), c') =>
    socket_listening c = true /\ connected c = true /\
    id = promises c /\ promises c' = S (promises c) /\ info_sequence c' = s /\
    match dgram_send id sent_bytes with
    | Some err =>
      failure = Some err /\
      events c' = events c ++ [Rejected id (Some err)] /\
      packets c' = packets c
    | None =>
      match failure with
      | None =>
        js_get (packets c) s = None /\
        events c' = events c ++ [Transmitted request sent_bytes] /\
        packets c'
        = js_set (packets c) s
            {| bytes := 9 + str_length cmd; packet := request; promise := id |}
      | Some e =>
        e = PacketOverflow /\ is_Some (js_get (packets c) s) /\
        events c' = events c ++ [Transmitted request sent_bytes;
                                 Rejected id (Some PacketOverflow)] /\
        packets c' = packets c
      end
    end
  end.
Proof using crc32_length.
  intros Hseq s request sent_bytes.
  destruct (socket_listening c) eqn:Hl; [destruct (connected c) eqn:Hc|].
  - rewrite Connection_command_sends by done.
    rewrite Socket_send_command by done. fold s request sent_bytes.
    assert (Hlen : Buffer_length sent_bytes = 9 + str_length cmd).
    { unfold sent_bytes, Buffer_length, str_length.
      rewrite frame_length, length_app, wire_text_length. simpl. lia. }
    rewrite Hlen.
    destruct (dgram_send (promises c) sent_bytes) as [err|] eqn:Hsent.
    { cbn [fst snd]. rewrite Hsent. repeat split; done. }
    destruct (js_get (packets c) s) as [st|]; cbn [fst snd]; rewrite Hsent.
    + repeat split; try done. simpl. by rewrite <- app_assoc.
    + repeat split; done.
  - unfold Connection_command, mbind, M_bind, this, throw. rewrite Hl, Hc. simpl. auto.
  - unfold Connection_command, mbind, M_bind, this, throw. rewrite Hl. simpl. auto.
Qed.

(** *** Logging in *)

Lemma Socket_send_login (pw : jsstring) (c : Connection) :
  let pkt := sent_once_more (login_request pw) in
  let buffer := frame crc32 ([xff; x00] ++ wire_text pw) in
  let c0 := with_promises (S (promises c)) c in
  let c1 := with_event (Transmitted pkt buffer) c0 in
  Socket_send crc32 dgram_send (login_request pw) true c
  = match dgram_send (promises c) buffer with
    | Some err =>
      (Ok (pkt, Some err), with_event (Rejected (promises c) (Some err)) c0)
    | None =>
      match js_get (packets c) 0 with
      | None =>
        (Ok (pkt, None),
         with_packets
           (js_set (packets c) 0
              {| bytes := Buffer_length buffer; packet := pkt; promise := promises c |}) c1)
      | Some _ =>
        (Ok (pkt, Some PacketOverflow),
         with_event (Rejected (promises c) (Some PacketOverflow)) c1)
      end
    end.
Proof using crc32_length.
  intros pkt buffer c0 c1.
  unfold Socket_send.
  unfold mbind at 1, M_bind at 1, this.
  unfold mbind at 1, M_bind at 1, modify at 1.
  unfold mbind at 1, M_bind at 1.
  change (bool_decide (type (login_request pw) = Command)
          && (Packet_sequence (login_request pw) <? 0)) with false. cbv iota.
  unfold mret at 1, M_ret at 1.
  rewrite (serialize_login_text crc32 (login_request pw) pw) by (try done; apply crc32_length).
  fold buffer pkt.
  destruct (dgram_send (promises c) buffer) as [err|]; [reflexivity|].
  unfold mbind at 1, M_bind at 1, emit at 1, modify at 1.
  unfold try_catch, store.
  unfold mbind at 1, M_bind at 1.
  unfold mbind at 1, M_bind at 1, this.
  change (type (packet {| bytes := Buffer_length buffer; packet := pkt;
                          promise := promises c |})) with Login.
  cbv iota.
  change (packets (with_event (Transmitted pkt buffer) (with_promises (S (promises c)) c)))
    with (packets c).
  destruct (js_get (packets c) 0); reflexivity.
Qed.

Lemma setup_run (c : Connection) : setup c = (Ok tt, set_up c).
Proof using Type.
  unfold setup, set_up, setInterval, mbind, M_bind, this, modify, mret, M_ret.
  destruct (keepAlive (options c)); simpl; destruct (timeout (options c)); reflexivity.
Qed.

(** [setup] touches the handles and the intervals only. *)
Lemma set_up_object (c : Connection) :
  socket_listening (set_up c) = socket_listening c /\ options (set_up c) = options c /\
  info_password (set_up c) = info_password c /\ info_sequence (set_up c) = info_sequence c /\
  info_connected (set_up c) = info_connected c /\
  info_lastPacket (set_up c) = info_lastPacket c /\
  packets (set_up c) = packets c /\ multipart (set_up c) = multipart c /\
  promises (set_up c) = promises c /\ events (set_up c) = events c /\
  microtasks (set_up c) = microtasks c /\ pings (set_up c) = pings c.
Proof using Type.
  unfold set_up. destruct (keepAlive (options c)), (timeout (options c)); by repeat split.
Qed.

Lemma connect_sends (c : Connection) :
  socket_listening c = true -> connected c = false ->
  connect crc32 dgram_send c
  = let '(r, c') := Socket_send crc32 dgram_send (login_request (info_password c)) true (set_up c) in
    match r with
    | Ok (_, failure) => (Ok (promises c, failure), c')
    | Throw e => (Throw e, c')
    end.
Proof using Type.
  intros Hl Hc. unfold connect.
  unfold mbind at 1, M_bind at 1, this. rewrite Hl, Hc. cbn [negb].
  unfold mbind at 1, M_bind at 1, mret at 1, M_ret at 1.
  unfold mbind at 1, M_bind at 1. rewrite setup_run.
  unfold mbind at 1, M_bind at 1, this.
  destruct (set_up_object c) as (_ & _ & -> & _ & _ & _ & _ & _ & -> & _).
  fold (login_request (info_password c)).
  unfold mbind, M_bind.
  destruct (Socket_send crc32 dgram_send (login_request (info_password c)) true (set_up c))
    as [[[pkt failure]|e] c']; done.
Qed.

(** [connect()], sent by the UDP socket, on a connection that is not
    connected and has slot 0 free: the state after the step. *)
Lemma connect_step (c : Connection) :
  socket_listening c = true -> connected c = false ->
  js_get (packets c) 0 = None -> microtasks c = [] ->
  let request := sent_once_more (login_request (info_password c)) in
  let sent_bytes := frame crc32 ([xff; x00] ++ wire_text (info_password c)) in
  dgram_send (promises c) sent_bytes = None ->
  step crc32 dgram_send Connect c
  = with_packets
      (js_set (packets c) 0
         {| bytes := 8 + str_length (info_password c); packet := request;
            promise := promises c |})
      (with_event (Transmitted request sent_bytes)
         (with_promises (S (promises c)) (set_up c))).
Proof using crc32_length.
  intros Hl Hc Hfree Hquiet request sent_bytes Hsent.
  assert (Hlen : Buffer_length sent_bytes = 8 + str_length (info_password c)).
  { unfold sent_bytes, Buffer_length, str_length.
    rewrite frame_length, length_app, wire_text_length. simpl. lia. }
  destruct (set_up_object c) as (_ & _ & _ & _ & _ & _ & Hp & _ & Hpr & _ & Hm & _).
  unfold step, run. rewrite connect_sends by done.
  rewrite Socket_send_login. fold request sent_bytes.
  rewrite Hpr, Hp, Hsent, Hfree, Hlen. cbn [snd].
  apply flush_quiet. simpl. by rewrite Hm.
Qed.

(** The datagram of a Login reply. *)
Lemma Socket_receive_login (c : Connection) (b : byte) :
  let ok := byte_to_Z b =? 1 in
  let reply := login_reply ok in
  let datagram := frame crc32 [xff; x00; b] in
  Socket_receive crc32 dgram_send datagram c
  = (Ok tt,
     with_event (Emit_received reply datagram)
       (snd (resolve crc32 dgram_send reply (with_lastPacket (Some reply) c)))).
Proof using crc32_length.
  intros ok reply datagram. unfold Socket_receive, datagram.
  rewrite FROM_frame by (try apply crc32_length; simpl; lia).
  rewrite FROM_payload_login. fold ok reply.
  unfold recieve.
  unfold mbind at 1, M_bind at 1. unfold try_catch.
  unfold mbind at 1, M_bind at 1.
  unfold mbind at 1, M_bind at 1, modify at 1.
  change (bool_decide (direction reply = Split)) with false. cbv iota.
  destruct (resolve crc32 dgram_send reply (with_lastPacket (Some reply) c)) as [[r|e] c']; done.
Qed.

(** What [resolve] does with a Login reply, when the promise in slot 0
    is no ping. *)
Lemma resolve_login_accepted (c : Connection) :
  (forall st, js_get (packets c) 0 = Some st -> promise st ∉ pings c) ->
  let reply := login_reply true in
  resolve crc32 dgram_send reply c
  = match js_get (packets c) 0 with
    | Some st =>
      (Ok true,
       with_event Emit_connected
         (with_packets (js_clear (packets c) 0)
            (with_event
               (Resolved (promise st)
                  {| response_command := None; response_data := None;
                     response_connected := Some true; response_bytes := bytes st;
                     response_sent := packet st; response_received := Some reply |})
               (with_connected (Some true) c))))
    | None => (Ok false, with_event Emit_connected (with_connected (Some true) c))
    end.
Proof using Type.
  intros Hping reply. unfold resolve. change (type reply) with Login. cbv iota.
  unfold mbind at 1, M_bind at 1, this.
  unfold mbind at 1, M_bind at 1, modify at 1.
  unfold mbind at 1, M_bind at 1, this.
  change (login (attributes reply)) with (Some true).
  change (connected (with_connected (Some true) c)) with true. cbv iota.
  destruct (js_get (packets c) 0) as [st|]; [|reflexivity].
  unfold mbind at 1, M_bind at 1. unfold mbind at 1, M_bind at 1.
  rewrite promise_resolve_run.
  change (pings (with_connected (Some true) c)) with (pings c).
  rewrite bool_decide_eq_false_2 by (by apply Hping). reflexivity.
Qed.



Lemma set_up_timers (c : Connection) :
  let first := if keepAlive (options c) then S (handles c) else handles c in
  let ticking :=
    if keepAlive (options c)
    then <[handles c := KeepAlive_scheduler]> (intervals c) else intervals c in
  keepAlive_timer (set_up c)
  = (if keepAlive (options c) then Some (handles c) else keepAlive_timer c) /\
  timeout_timer (set_up c)
  = (if timeout (options c) then Some first else timeout_timer c) /\
  intervals (set_up c)
  = (if timeout (options c) then <[first := Timeout_scheduler]> ticking else ticking) /\
  handles (set_up c) = (if timeout (options c) then S first else first).
Proof using Type.
  unfold set_up. by destruct (keepAlive (options c)), (timeout (options c)).
Qed.

(** No interval runs under a handle that was not given out yet. *)
Lemma tidy_fresh (c : Connection) (h : nat) :
  tidy c -> (handles c <= h)%nat -> intervals c !! h = None.
Proof using Type.
  intros (_ & _ & _ & Hi & _) Hle.
  destruct (intervals c !! h) as [s|] eqn:E; [|done].
  apply Hi in E. lia.
Qed.

(** A scheduler runs once an interval is started for it. *)
Lemma ticking_insert (s s' : Scheduler) (h : nat) (m : gmap nat Scheduler) :
  m !! h = None ->
  bool_decide (s ∈ (map_to_list (<[h := s']> m)).*2)
  = bool_decide (s = s') || bool_decide (s ∈ (map_to_list m).*2).
Proof using Type.
  intros Hh.
  assert (H : s ∈ (map_to_list (<[h := s']> m)).*2 <-> s = s' \/ s ∈ (map_to_list m).*2).
  { rewrite map_to_list_insert by done. rewrite fmap_cons, elem_of_cons. done. }
  rewrite (bool_decide_ext _ _ H), bool_decide_or. done.
Qed.

(** [cleanup] right after [setup] stops what [setup] started. *)
Lemma set_up_cleared (c : Connection) :
  tidy c ->
  cleared (keepAlive_timer (set_up c)) (cleared (timeout_timer (set_up c)) (intervals (set_up c)))
  = intervals c.
Proof using Type.
  intros Hc. destruct (set_up_timers c) as (-> & -> & -> & _).
  pose proof Hc as (_ & _ & _ & _ & Hk & Ht).
  pose proof (tidy_fresh c (handles c) Hc (le_n _)) as H0.
  pose proof (tidy_fresh c (S (handles c)) Hc (le_S _ _ (le_n _))) as H1.
  destruct (keepAlive (options c)), (timeout (options c));
    rewrite ?Hk, ?Ht by done; unfold cleared.
  - rewrite delete_insert_id by (by rewrite lookup_insert_ne by lia).
    by rewrite delete_insert_id.
  - by rewrite delete_insert_id.
  - by rewrite delete_insert_id.
  - done.
Qed.

(** The schedulers that run once [setup] is through. *)
Lemma set_up_running (c c' : Connection) :
  tidy c -> intervals c' = intervals (set_up c) ->
  running KeepAlive_scheduler c' = (keepAlive (options c) || running KeepAlive_scheduler c) /\
  running Timeout_scheduler c' = (timeout (options c) || running Timeout_scheduler c).
Proof using Type.
  intros Htidy Hi. destruct (set_up_timers c) as (_ & _ & Hi' & _).
  pose proof (tidy_fresh c (handles c) Htidy (le_n _)) as H0.
  pose proof (tidy_fresh c (S (handles c)) Htidy (le_S _ _ (le_n _))) as H1.
  unfold running. rewrite Hi, Hi'.
  destruct (keepAlive (options c)), (timeout (options c));
    rewrite ?ticking_insert by (by rewrite ?lookup_insert_ne by lia);
    rewrite ?ticking_insert by done; done.
Qed.

(** X9. Logging in.  From a state the connection gets into, in which it is
    not connected and has no login pending, [connect()], whose datagram the
    UDP socket sends, followed by the datagram of a Login reply with byte 1:
    the password is sent, the promise of [connect()] is resolved with
    [connected: true], [connected] and [received] are emitted, slot 0 is free
    again and the connection is connected.  [setup] has started an interval
    for each scheduler that the options ask for, under the next handles of
    Node, and the connection holds these handles; the intervals that ran
    before run on. *)
Theorem login_accepted_connects (c : Connection) :
  reachable crc32 dgram_send c ->
  socket_listening c = true -> connected c = false ->
  js_get (packets c) 0 = None ->
  let request := sent_once_more (login_request (info_password c)) in
  let sent_bytes := frame crc32 ([xff; x00] ++ wire_text (info_password c)) in
  dgram_send (promises c) sent_bytes = None ->
  let reply := login_reply true in
  let datagram := frame crc32 [xff; x00; x01] in
  let c' := steps crc32 dgram_send [Connect; Datagram datagram] c in
  let first := if keepAlive (options c) then S (handles c) else handles c in
  let ticking :=
    if keepAlive (options c)
    then <[handles c := KeepAlive_scheduler]> (intervals c) else intervals c in
  connected c' = true /\
  events c'
  = events c
    ++ [Transmitted request sent_bytes;
        Resolved (promises c)
          {| response_command := None; response_data := None;
             response_connected := Some true;
             response_bytes := 8 + str_length (info_password c);
             response_sent := request; response_received := Some reply |};
        Emit_connected;
        Emit_received reply datagram] /\
  js_get (packets c') 0 = None /\
  keepAlive_timer c' = (if keepAlive (options c) then Some (handles c) else None) /\
  timeout_timer c' = (if timeout (options c) then Some first else None) /\
  intervals c'
  = (if timeout (options c) then <[first := Timeout_scheduler]> ticking else ticking) /\
  running KeepAlive_scheduler c' = (keepAlive (options c) || running KeepAlive_scheduler c) /\
  running Timeout_scheduler c' = (timeout (options c) || running Timeout_scheduler c).
Proof using crc32_length.
  intros Hreach Hl Hc Hfree request sent_bytes Hsent reply datagram c' first ticking.
  pose proof (reachable_tidy crc32 dgram_send c Hreach) as Htidy.
  pose proof (reachable_quiet crc32 dgram_send c Hreach) as Hquiet.
  set (st := {| bytes := 8 + str_length (info_password c); packet := request;
                promise := promises c |}).
  set (c1 := with_packets (js_set (packets c) 0 st)
               (with_event (Transmitted request sent_bytes)
                  (with_promises (S (promises c)) (set_up c)))).
  assert (Hc1 : step crc32 dgram_send Connect c = c1) by (by apply connect_step).
  destruct (set_up_object c) as (_ & _ & _ & _ & _ & _ & _ & _ & _ & He & Hm & Hpi).
  assert (Hping : forall st', js_get (packets (with_lastPacket (Some reply) c1)) 0 = Some st' ->
                              promise st' ∉ pings (with_lastPacket (Some reply) c1)).
  { intros st'.
    change (js_get (packets (with_lastPacket (Some reply) c1)) 0)
      with (js_get (js_set (packets c) 0 st) 0).
    rewrite js_get_set. intros [= <-].
    change (pings (with_lastPacket (Some reply) c1)) with (pings (set_up c)).
    rewrite Hpi. destruct Htidy as (_ & _ & Hp & _).
    intros Hin. apply Hp in Hin. simpl in Hin. lia. }
  assert (Hc' : c' = with_event (Emit_received reply datagram)
                       (with_event Emit_connected
                          (with_packets (js_clear (js_set (packets c) 0 st) 0)
                             (with_event
                                (Resolved (promises c)
                                   {| response_command := None; response_data := None;
                                      response_connected := Some true;
                                      response_bytes := 8 + str_length (info_password c);
                                      response_sent := request;
                                      response_received := Some reply |})
                                (with_connected (Some true)
                                   (with_lastPacket (Some reply) c1)))))).
  { unfold c', steps. cbn [fold_left]. rewrite Hc1. unfold step, run, datagram.
    rewrite (Socket_receive_login c1 x01).
    change (byte_to_Z x01 =? 1) with true. fold reply. cbn [snd].
    pose proof (resolve_login_accepted _ Hping) as Hr. cbv zeta in Hr. fold reply in Hr.
    rewrite Hr. clear Hr.
    change (js_get (packets (with_lastPacket (Some reply) c1)) 0)
      with (js_get (js_set (packets c) 0 st) 0).
    rewrite js_get_set. cbn [snd].
    apply flush_quiet. simpl. by rewrite Hm. }
  rewrite Hc'. clear Hc' c'.
  destruct (set_up_timers c) as (Hk & Ht & Hi & _).
  pose proof Htidy as (_ & _ & _ & _ & Hko & Hto).
  split; [done|]. split.
  { simpl. rewrite He, <- !app_assoc. done. }
  split; [apply js_get_clear_eq|].
  assert (Hi' : intervals (set_up c)
                = (if timeout (options c) then <[first := Timeout_scheduler]> ticking
                   else ticking)) by exact Hi.
  split; [simpl; rewrite Hk; destruct (keepAlive (options c)); [done|by apply Hko]|].
  split; [simpl; rewrite Ht; destruct (timeout (options c)); [done|by apply Hto]|].
  split; [exact Hi'|].
  by apply set_up_running.
Qed.


(** [connect()] twice, before any reply. *)
Lemma connect_twice_step (c : Connection) :
  reachable crc32 dgram_send c ->
  socket_listening c = true -> connected c = false ->
  js_get (packets c) 0 = None ->
  let request := sent_once_more (login_request (info_password c)) in
  let sent_bytes := frame crc32 ([xff; x00] ++ wire_text (info_password c)) in
  dgram_send (promises c) sent_bytes = None ->
  dgram_send (S (promises c)) sent_bytes = None ->
  let first := {| bytes := 8 + str_length (info_password c); packet := request;
                  promise := promises c |} in
  let c1 := with_packets (js_set (packets c) 0 first)
              (with_event (Transmitted request sent_bytes)
                 (with_promises (S (promises c)) (set_up c))) in
  step crc32 dgram_send Connect c = c1 /\
  steps crc32 dgram_send [Connect; Connect] c
  = with_event (Rejected (S (promises c)) (Some PacketOverflow))
      (with_event (Transmitted request sent_bytes)
         (with_promises (S (S (promises c))) (set_up c1))).
Proof using crc32_length.
  intros Hreach Hl Hc Hfree request sent_bytes Hsent Hsent' first c1.
  pose proof (reachable_quiet crc32 dgram_send c Hreach) as Hquiet.
  assert (Hc1 : step crc32 dgram_send Connect c = c1) by (by apply connect_step).
  destruct (set_up_object c) as (Hl0 & Ho0 & Hpw0 & _ & Hco0 & _ & Hp0 & _ & Hpr0 & He0 & Hm0 & _).
  destruct (set_up_object c1) as (_ & _ & Hpw1 & _ & Hco1 & _ & Hp1 & _ & Hpr1 & He1 & Hm1 & _).
  split; [exact Hc1|].
  unfold steps. cbn [fold_left]. rewrite Hc1. unfold step, run.
  rewrite connect_sends;
    [|by (simpl; rewrite Hl0)|by (unfold connected; simpl; rewrite Hco0)].
  rewrite Socket_send_login.
  change (info_password c1) with (info_password (set_up c)). rewrite Hpw0.
  fold request sent_bytes.
  rewrite Hpr1. change (promises c1) with (S (promises c)). rewrite Hsent'.
  rewrite Hp1. change (packets c1) with (js_set (packets c) 0 first).
  rewrite js_get_set. cbn [snd].
  apply flush_quiet. simpl. rewrite Hm1. simpl. by rewrite Hm0.
Qed.

(** X11. [connect()] called again before the reply to the first, the UDP
    socket sending both datagrams.  The second call sends the password once
    more and its promise is rejected with [PacketOverflow], because slot 0
    holds the first request, which stays there.  [setup] has run twice: for
    each scheduler that the options ask for two intervals run now, and the
    connection holds the handle of the second only. *)
Theorem connect_twice_overflows (c : Connection) :
  reachable crc32 dgram_send c ->
  socket_listening c = true -> connected c = false ->
  js_get (packets c) 0 = None ->
  let request := sent_once_more (login_request (info_password c)) in
  let sent_bytes := frame crc32 ([xff; x00] ++ wire_text (info_password c)) in
  dgram_send (promises c) sent_bytes = None ->
  dgram_send (S (promises c)) sent_bytes = None ->
  let first := {| bytes := 8 + str_length (info_password c); packet := request;
                  promise := promises c |} in
  let c' := steps crc32 dgram_send [Connect; Connect] c in
  events c'
  = events c
    ++ [Transmitted request sent_bytes; Transmitted request sent_bytes;
        Rejected (S (promises c)) (Some PacketOverflow)] /\
  js_get (packets c') 0 = Some first /\ connected c' = false /\
  (keepAlive (options c) = true ->
   exists h1 h2, (handles c <= h1 < h2)%nat /\
     intervals c' !! h1 = Some KeepAlive_scheduler /\
     intervals c' !! h2 = Some KeepAlive_scheduler /\
     keepAlive_timer c' = Some h2) /\
  (timeout (options c) = true ->
   exists h1 h2, (handles c <= h1 < h2)%nat /\
     intervals c' !! h1 = Some Timeout_scheduler /\
     intervals c' !! h2 = Some Timeout_scheduler /\
     timeout_timer c' = Some h2).
Proof using crc32_length.
  intros Hreach Hl Hc Hfree request sent_bytes Hsent Hsent' first c'.
  set (c1 := with_packets (js_set (packets c) 0 first)
               (with_event (Transmitted request sent_bytes)
                  (with_promises (S (promises c)) (set_up c)))).
  destruct (connect_twice_step c Hreach Hl Hc Hfree Hsent Hsent') as [_ Hc'].
  unfold c'. rewrite Hc'. clear Hc' c'. fold request sent_bytes first c1.
  destruct (set_up_object c) as (Hl0 & Ho0 & Hpw0 & _ & Hco0 & _ & Hp0 & _ & Hpr0 & He0 & Hm0 & _).
  destruct (set_up_object c1) as (_ & _ & Hpw1 & _ & Hco1 & _ & Hp1 & _ & Hpr1 & He1 & Hm1 & _).
  split; [simpl; by rewrite He1; simpl; rewrite He0, <- !app_assoc|].
  split; [simpl; rewrite Hp1; apply js_get_set|].
  split; [unfold connected; simpl; rewrite Hco1; simpl; rewrite Hco0; exact Hc|].
  destruct (set_up_timers c) as (Hk & Ht & Hi & Hh).
  destruct (set_up_timers c1) as (Hk1 & Ht1 & Hi1 & _).
  cbn [intervals keepAlive_timer timeout_timer with_event with_promises].
  rewrite Hk1, Ht1, Hi1.
  change (options c1) with (options (set_up c)).
  change (handles c1) with (handles (set_up c)).
  change (intervals c1) with (intervals (set_up c)).
  rewrite Ho0, Hh, Hi.
  split; intros Ho; rewrite Ho; destruct (keepAlive (options c)), (timeout (options c));
    try done.
  - exists (handles c), (S (S (handles c))). split; [lia|].
    rewrite !lookup_insert_ne by lia. rewrite !lookup_insert_eq.
    rewrite (lookup_insert_ne _ (S (S (S (handles c))))) by lia.
    by rewrite lookup_insert_eq.
  - exists (handles c), (S (handles c)). split; [lia|].
    rewrite !lookup_insert_ne by lia. by rewrite !lookup_insert_eq.
  - exists (S (handles c)), (S (S (S (handles c)))). split; [lia|].
    rewrite lookup_insert_eq. rewrite !lookup_insert_ne by lia. by rewrite lookup_insert_eq.
  - exists (handles c), (S (handles c)). split; [lia|].
    rewrite lookup_insert_eq. rewrite !lookup_insert_ne by lia. by rewrite lookup_insert_eq.
Qed.

(** *** Server messages *)

(** X12. A server message is acknowledged, in every state the connection
    gets into.  The datagram of a Message packet with sequence byte [s] makes
    the connection emit [message] with the text and [received], and
    acknowledge with a Message packet of the same sequence byte.  When the
    UDP socket sends the acknowledgement, its promise resolves with the 9
    bytes sent and no received packet; when the socket fails with [err], the
    promise is rejected with [err] and the [catch] handler emits [error] with
    it.  These are the events, whatever their order.  Nothing is stored, and
    neither the connected flag nor the sequence counter changes. *)
Theorem message_acknowledged (c : Connection) (s : byte) (text : Buffer) :
  reachable crc32 dgram_send c ->
  let msg := message_reply (byte_to_Z s) (Buffer_toString text) in
  let ack := sent_once_more (message_ack (byte_to_Z s)) in
  let ack_bytes := frame crc32 [xff; x02; s] in
  let datagram := frame crc32 ([xff; x02; s] ++ text) in
  let c' := step crc32 dgram_send (Datagram datagram) c in
  (exists new,
     events c' = events c ++ new /\
     new ≡ₚ [Emit_message (Some (Buffer_toString text)) msg; Emit_received msg datagram]
            ++ match dgram_send (promises c) ack_bytes with
               | None =>
                 [Transmitted ack ack_bytes;
                  Resolved (promises c)
                    {| response_command := None; response_data := None;
                       response_connected := None; response_bytes := 9;
                       response_sent := ack; response_received := None |}]
               | Some err => [Rejected (promises c) (Some err); Emit_error (Some err)]
               end) /\
  packets c' = packets c /\ info_connected c' = info_connected c /\
  info_sequence c' = info_sequence c /\ promises c' = S (promises c).
Proof using crc32_length.
  intros Hreach msg ack ack_bytes datagram c'.
  pose proof (reachable_quiet crc32 dgram_send c Hreach) as Hquiet.
  set (c0 := with_event (Emit_message (Some (Buffer_toString text)) msg)
               (with_lastPacket (Some msg) c)).
  assert (Hsend : Socket_send crc32 dgram_send (message_ack (byte_to_Z s)) false c0
                  = match dgram_send (promises c) ack_bytes with
                    | None =>
                      (Ok (ack, None),
                       with_event
                         (Resolved (promises c)
                            {| response_command := None; response_data := None;
                               response_connected := None; response_bytes := 9;
                               response_sent := ack; response_received := None |})
                         (with_event (Transmitted ack ack_bytes)
                            (with_promises (S (promises c)) c0)))
                    | Some err =>
                      (Ok (ack, Some err),
                       with_event (Rejected (promises c) (Some err))
                         (with_promises (S (promises c)) c0))
                    end).
  { unfold Socket_send.
    unfold mbind at 1, M_bind at 1, this.
    unfold mbind at 1, M_bind at 1, modify at 1.
    unfold mbind at 1, M_bind at 1.
    change (bool_decide (type (message_ack (byte_to_Z s)) = Command)) with false.
    cbn [andb]. unfold mret at 1, M_ret at 1.
    pose proof (byte_to_Z_range s) as Hs.
    rewrite (serialize_message_text crc32 (message_ack (byte_to_Z s)))
      by (try done; try apply crc32_length; change (Packet_sequence _) with (byte_to_Z s); lia).
    change (Packet_sequence (message_ack (byte_to_Z s))) with (byte_to_Z s).
    replace (byte_of_Z (byte_to_Z s)) with s
      by (apply byte_to_Z_inj; rewrite byte_of_to_Z; [done|lia]).
    fold ack ack_bytes.
    change (promises c0) with (promises c).
    destruct (dgram_send (promises c) ack_bytes) as [err|]; [reflexivity|].
    assert (Hlen : Buffer_length ack_bytes = 9).
    { unfold Buffer_length, ack_bytes. by rewrite frame_length. }
    rewrite Hlen. reflexivity. }
  assert (Hc' : c' = flush (with_event (Emit_received msg datagram)
                              (snd (send_and_report crc32 dgram_send
                                      (message_ack (byte_to_Z s)) c0)))).
  { unfold c', step, run, Socket_receive, datagram.
    rewrite FROM_frame by (try apply crc32_length; simpl; lia).
    cbn [app]. rewrite FROM_payload_message. fold msg.
    unfold recieve.
    unfold mbind at 1, M_bind at 1. unfold try_catch.
    unfold mbind at 1, M_bind at 1.
    unfold mbind at 1, M_bind at 1, modify at 1.
    change (bool_decide (direction msg = Split)) with false. cbv iota.
    unfold resolve. change (type msg) with Message. cbv iota.
    unfold mbind at 1, M_bind at 1, emit at 1, modify at 1.
    unfold mbind at 1, M_bind at 1.
    change (message (attributes msg)) with (Some (Buffer_toString text)).
    change (Packet_sequence msg) with (byte_to_Z s).
    fold (message_ack (byte_to_Z s)). fold c0.
    unfold send_and_report. unfold mbind, M_bind. rewrite Hsend.
    destruct (dgram_send (promises c) ack_bytes); reflexivity. }
  rewrite Hc'. unfold send_and_report, mbind, M_bind. rewrite Hsend.
  destruct (dgram_send (promises c) ack_bytes) as [err|].
  - split; [|done].
    eexists. split.
    + rewrite flush_events. simpl. rewrite Hquiet, <- !app_assoc. reflexivity.
    + simpl. apply Permutation_skip. apply Permutation_swap.
  - split; [|done].
    eexists. split.
    + rewrite flush_events. simpl. rewrite Hquiet, app_nil_r, <- !app_assoc. reflexivity.
    + simpl. apply Permutation_skip. symmetry. apply Permutation_cons_append.
Qed.

(** *** Teardown *)



(** What [kill] leaves of the handles and the intervals, in any state. *)
Lemma kill_timers (c : Connection) (reason : Error) :
  let c' := step crc32 dgram_send (Kill reason) c in
  connected c' = false /\ keepAlive_timer c' = None /\ timeout_timer c' = None /\
  intervals c' = cleared (keepAlive_timer c) (cleared (timeout_timer c) (intervals c)).
Proof using Type.
  intros c'.
  destruct (cleanup_run reason (with_event (Emit_error (Some reason)) c))
    as (c1 & Hrun & _ & _ & _ & _ & _ & _ & _ & Hconn & _ & _ & Hk & Ht & Hi & _).
  assert (Hc' : c' = flush
                       (if reconnect (options c1) && bool_decide (reason = ServerTimeout)
                        then with_event Reconnect_armed
                               (with_event (Emit_disconnected reason) c1)
                        else with_event (Emit_disconnected reason) c1)).
  { unfold c', step, run, kill, disconnect.
    unfold mbind at 1, M_bind at 1, emit at 1, modify at 1.
    unfold mbind at 1, M_bind at 1. rewrite Hrun.
    unfold mbind, M_bind, emit, modify, this, mret, M_ret.
    cbn [options with_event].
    by destruct (reconnect (options c1) && bool_decide (reason = ServerTimeout)). }
  rewrite Hc'. unfold connected.
  destruct (reconnect (options c1) && bool_decide (reason = ServerTimeout));
    cbn [info_connected keepAlive_timer timeout_timer intervals flush with_event];
    by rewrite Hconn, Hk, Ht, Hi.
Qed.


(** X20. The intervals of a [connect()] that was called twice.  After
    [connect()], [connect()] again before any reply, and [kill(reason)],
    the connection holds no handle and is not connected, but [cleanup] has
    cleared the handles of the second [setup] only: the intervals that the
    first [connect()] started run on, with the schedulers that the options
    ask for. *)
Theorem second_connect_leaks (c : Connection) (reason : Error) :
  reachable crc32 dgram_send c ->
  socket_listening c = true -> connected c = false ->
  js_get (packets c) 0 = None ->
  let sent_bytes := frame crc32 ([xff; x00] ++ wire_text (info_password c)) in
  dgram_send (promises c) sent_bytes = None ->
  dgram_send (S (promises c)) sent_bytes = None ->
  let c' := steps crc32 dgram_send [Connect; Connect; Kill reason] c in
  let first := if keepAlive (options c) then S (handles c) else handles c in
  let ticking :=
    if keepAlive (options c)
    then <[handles c := KeepAlive_scheduler]> (intervals c) else intervals c in
  connected c' = false /\ keepAlive_timer c' = None /\ timeout_timer c' = None /\
  intervals c'
  = (if timeout (options c) then <[first := Timeout_scheduler]> ticking else ticking) /\
  running KeepAlive_scheduler c' = (keepAlive (options c) || running KeepAlive_scheduler c) /\
  running Timeout_scheduler c' = (timeout (options c) || running Timeout_scheduler c).
Proof using crc32_length.
  intros Hreach Hl Hc Hfree sent_bytes Hsent Hsent' c' first ticking.
  pose proof (reachable_tidy crc32 dgram_send c Hreach) as Htidy.
  destruct (connect_twice_step c Hreach Hl Hc Hfree Hsent Hsent') as [Hc1 Hc2].
  cbv zeta in Hc1, Hc2.
  set (c1 := with_packets _ _) in Hc1, Hc2.
  assert (Htidy1 : tidy c1).
  { rewrite <- Hc1. apply (reachable_tidy crc32 dgram_send). by constructor. }
  set (c2 := steps crc32 dgram_send [Connect; Connect] c) in *.
  assert (Hc' : c' = step crc32 dgram_send (Kill reason) c2) by done.
  destruct (kill_timers c2 reason) as (Hconn & Hk & Ht & Hi). rewrite <- Hc' in *.
  assert (Hleft : intervals c' = intervals (set_up c)).
  { rewrite Hi, Hc2.
    cbn [keepAlive_timer timeout_timer intervals with_event with_promises].
    by rewrite (set_up_cleared c1 Htidy1). }
  destruct (set_up_timers c) as (_ & _ & Hi0 & _).
  split; [done|]. split; [done|]. split; [done|].
  split; [by rewrite Hleft|].
  by apply set_up_running.
Qed.

(** *** What the schedulers and the reassembly never do *)

(** X14. The pending table of a state the connection gets into.  Every entry
    sits at a slot in 0..255 and holds a request that has been serialized
    once, has no timestamp and no error attribute, and is either the Login
    request, at slot 0, or a Command request at the slot of its sequence
    number.  There is no timestamp because the constructor of [Packet] replaces
    the attributes that [clear()] has just stamped. *)
Theorem pending_requests_in_place (c : Connection) (i : Z) (st : IPacketPromise) :
  reachable crc32 dgram_send c ->
  js_get (packets c) i = Some st ->
  0 <= i <= 255 /\
  direction (packet st) = Request /\
  timestamp (attributes (packet st)) = None /\
  sent (attributes (packet st)) = Some 1 /\
  error (attributes (packet st)) = None /\
  (type (packet st) = Login /\ i = 0 \/
   type (packet st) = Command /\ sequence (attributes (packet st)) = Some i).
Proof using Type.
  intros Hreach Hst.
  destruct (reachable_well_kept crc32 dgram_send c Hreach) as (Hpend & _).
  destruct (Hpend i st Hst) as [Hentry _]. exact Hentry.
Qed.

Lemma check_all_idle (time : Z) (entries : list (option IPacketPromise)) (i : Z)
    (c : Connection) :
  1 < packetTimeoutThresholded (options c) ->
  (forall p, Some p ∈ entries ->
     timestamp (attributes (packet p)) = None /\ sent (attributes (packet p)) = Some 1) ->
  check_all crc32 dgram_send time i entries c = (Ok tt, c).
Proof using Type.
  intros Hthreshold. revert i. induction entries as [|[p|] entries IH]; intros i Hentries.
  - done.
  - cbn [check_all]. unfold mbind at 1, M_bind at 1.
    assert (Hp : check_pending crc32 dgram_send time i p c = (Ok tt, c)).
    { destruct (Hentries p ltac:(left)) as [Hts Hsent].
      unfold check_pending, mbind, M_bind, this. rewrite Hts. cbn [truthy andb].
      unfold Packet_sent. rewrite Hsent. simpl.
      destruct (Z.leb_spec (packetTimeoutThresholded (options c)) 1); [lia|done]. }
    rewrite Hp. apply IH. intros q Hq. apply Hentries. by right.
  - cbn [check_all]. apply IH. intros q Hq. apply Hentries. by right.
Qed.

(** X15. The timeout scheduler is idle.  In every state the connection gets
    into, with a threshold above 1 (it is 5 unless the options say otherwise),
    a run of the timeout callback changes nothing, at any time of the clock:
    the last packet and the pending requests have no timestamp, so nothing is
    sent again and the server is never found silent, and a request sent once
    is below the threshold. *)
Theorem timeout_tick_idle (c : Connection) (time : Z) :
  reachable crc32 dgram_send c ->
  1 < packetTimeoutThresholded (options c) ->
  timeout_tick crc32 dgram_send time c = (Ok tt, c).
Proof using Type.
  intros Hreach Hthreshold.
  pose proof (reachable_well_kept crc32 dgram_send c Hreach) as Hkept.
  destruct Hkept as (Hpend & Hlast & Hseq & Hmulti).
  unfold timeout_tick, try_catch.
  unfold mbind at 1, M_bind at 1, this.
  assert (Hsilent : truthy (info_lastPacket c ≫= λ p, timestamp (attributes p)) = false).
  { destruct (info_lastPacket c) as [p|] eqn:Hp; [|done]. simpl.
    by rewrite (Hlast p eq_refl). }
  rewrite Hsilent. cbn [andb].
  rewrite check_all_idle; [done|done|].
  intros p Hp. apply (pending_untimed c); [|done]. by split.
Qed.

(** X16. A fragment with sequence number 255.  The table of fragments has the
    slots 0..254, so for such a fragment [recieve] reads [length] of
    [undefined] and throws [TypeError], in every state the connection gets
    into.  As [recieve] is [async] the error stays in its promise: the
    datagram changes nothing but the last packet, and [received] is
    emitted. *)
Theorem fragment_255_dropped (c : Connection) (total index : byte) (bytes : Buffer) :
  reachable crc32 dgram_send c ->
  let frag := fragment 255 (byte_to_Z total) (byte_to_Z index) bytes in
  let datagram := frame crc32 ([xff; x01; xff; x00; total; index] ++ bytes) in
  recieve crc32 dgram_send frag c = (Throw TypeError, with_lastPacket (Some frag) c) /\
  step crc32 dgram_send (Datagram datagram) c
  = with_event (Emit_received frag datagram) (with_lastPacket (Some frag) c).
Proof using crc32_length.
  intros Hreach frag datagram.
  destruct (reachable_well_kept crc32 dgram_send c Hreach) as (_ & _ & _ & Hmulti).
  assert (Hnone : js_get (multipart c) 255 = None).
  { destruct (js_get (multipart c) 255) eqn:E; [|done].
    assert (H : is_Some (js_get (multipart c) 255)) by (by eexists).
    apply Hmulti in H. lia. }
  assert (Hrecv : recieve crc32 dgram_send frag c = (Throw TypeError, with_lastPacket (Some frag) c)).
  { unfold recieve.
    unfold mbind at 1, M_bind at 1, modify at 1.
    change (bool_decide (direction frag = Split)) with true. cbv iota.
    unfold mbind at 1, M_bind at 1, this.
    change (Packet_sequence frag) with 255.
    change (multipart (with_lastPacket (Some frag) c)) with (multipart c).
    by rewrite Hnone. }
  split; [exact Hrecv|].
  unfold step, run, Socket_receive, datagram.
  rewrite FROM_frame by (try apply crc32_length; simpl; lia).
  cbn [app]. rewrite FROM_payload_fragment.
  change (byte_to_Z xff) with 255. fold frag.
  unfold mbind at 1, M_bind at 1, try_catch.
  unfold mbind at 1, M_bind at 1. rewrite Hrecv.
  apply flush_quiet. simpl. by apply (reachable_quiet crc32 dgram_send).
Qed.

End Exchange.
(** Instances, on the example runs. *)

Lemma example_connected_reachable : reachable crc32_ieee dgram_ok example_connected.
Proof.
  unfold example_connected, steps. cbn [fold_left].
  repeat apply reachable_step. apply reachable_new.
Qed.

Lemma example_busy_reachable : reachable crc32_ieee dgram_ok example_busy.
Proof.
  unfold example_busy, steps. cbn [fold_left].
  repeat apply reachable_step. apply reachable_new.
Qed.

Lemma pending_requests_in_place_witness :
  let st := {| bytes := 16; promise := 4;
               packet := sent_once_more (command_request (lit "players") 3) |} in
  0 <= 3 <= 255 /\
  direction (packet st) = Request /\
  timestamp (attributes (packet st)) = None /\
  sent (attributes (packet st)) = Some 1 /\
  error (attributes (packet st)) = None /\
  (type (packet st) = Login /\ 3 = 0 \/
   type (packet st) = Command /\ sequence (attributes (packet st)) = Some 3).
Proof.
  apply (pending_requests_in_place crc32_ieee dgram_ok example_busy 3).
  - apply example_busy_reachable.
  - vm_compute. reflexivity.
Defined.

Lemma timeout_tick_idle_witness :
  timeout_tick crc32_ieee dgram_ok 5000 example_busy = (Ok tt, example_busy).
Proof.
  apply (timeout_tick_idle crc32_ieee dgram_ok example_busy 5000).
  - apply example_busy_reachable.
  - vm_compute. reflexivity.
Defined.

Lemma command_outcome_witness :
  let c := example_connected in
  let request := sent_once_more (command_request (lit "players") 0) in
  let sent_bytes := frame crc32_ieee ([xff; x01; byte_of_Z 0] ++ wire_text (lit "players")) in
  match Connection_command crc32_ieee dgram_down (lit "players") true c with
  | (Throw e, c') =>
    e = NoConnection /\ c' = c /\ (socket_listening c = false \/ connected c = false)
  | (Ok (id, failure), c') =>
    socket_listening c = true /\ connected c = true /\
    id = promises c /\ promises c' = S (promises c) /\ info_sequence c' = 0 /\
    match dgram_down id sent_bytes with
    | Some err =>
      failure = Some err /\
      events c' = events c ++ [Rejected id (Some err)] /\
      packets c' = packets c
    | None =>
      match failure with
      | None =>
        js_get (packets c) 0 = None /\
        events c' = events c ++ [Transmitted request sent_bytes] /\
        packets c'
        = js_set (packets c) 0
            {| bytes := 9 + str_length (lit "players"); packet := request; promise := id |}
      | Some e =>
        e = PacketOverflow /\ is_Some (js_get (packets c) 0) /\
        events c' = events c ++ [Transmitted request sent_bytes;
                                 Rejected id (Some PacketOverflow)] /\
        packets c' = packets c
      end
    end
  end.
Proof.
  refine (command_outcome crc32_ieee dgram_down crc32_ieee_length example_connected
            (lit "players") _).
  vm_compute. split; discriminate.
Defined.


Lemma unknown_command_rejected_witness :
  let c := example_connected in
  let request := sent_once_more (command_request (lit "plaeyrs") 0) in
  let sent_bytes := frame crc32_ieee ([xff; x01; x00] ++ bytes_of "plaeyrs") in
  let reply := reply_with_data Command (lit "Unknown command") 0 in
  let datagram := frame crc32_ieee ([xff; x01; x00] ++ bytes_of "Unknown command") in
  let c' := steps crc32_ieee dgram_ok [Do_command (lit "plaeyrs") true; Datagram datagram] c in
  events c'
  = events c
    ++ [Transmitted request sent_bytes;
        Rejected 1 (Some (UnknownCommand (Some (lit "plaeyrs"))));
        Emit_command (Some (lit "Unknown command")) true reply;
        Emit_received reply datagram] /\
  js_get (packets c') 0 = None /\ connected c' = true.
Proof.
  refine (unknown_command_rejected crc32_ieee dgram_ok crc32_ieee_length example_connected
            (lit "plaeyrs") (bytes_of "Unknown command") _ _ _ _ _ _).
  - apply example_connected_reachable.
  - reflexivity.
  - reflexivity.
  - vm_compute. reflexivity.
  - reflexivity.
  - vm_compute. reflexivity.
Defined.

Lemma login_accepted_connects_witness :
  let c := new_Connection true (lit "test") default_options in
  let request := sent_once_more (login_request (lit "test")) in
  let sent_bytes := frame crc32_ieee ([xff; x00] ++ bytes_of "test") in
  let reply := login_reply true in
  let c' := steps crc32_ieee dgram_ok [Connect; Datagram login_accepted] c in
  connected c' = true /\
  events c'
  = [Transmitted request sent_bytes;
     Resolved 0
       {| response_command := None; response_data := None;
          response_connected := Some true; response_bytes := 12;
          response_sent := request; response_received := Some reply |};
     Emit_connected;
     Emit_received reply login_accepted] /\
  js_get (packets c') 0 = None /\
  keepAlive_timer c' = Some 0%nat /\ timeout_timer c' = Some 1%nat /\
  intervals c' = <[1%nat := Timeout_scheduler]> (<[0%nat := KeepAlive_scheduler]> ∅) /\
  running KeepAlive_scheduler c' = true /\ running Timeout_scheduler c' = true.
Proof.
  refine (login_accepted_connects crc32_ieee dgram_ok crc32_ieee_length
            (new_Connection true (lit "test") default_options) _ _ _ _ _);
    try reflexivity.
  apply reachable_new.
Defined.


Lemma connect_twice_overflows_witness :
  let c := new_Connection true (lit "test") default_options in
  let request := sent_once_more (login_request (lit "test")) in
  let sent_bytes := frame crc32_ieee ([xff; x00] ++ bytes_of "test") in
  let c' := steps crc32_ieee dgram_ok [Connect; Connect] c in
  events c'
  = [Transmitted request sent_bytes; Transmitted request sent_bytes;
     Rejected 1 (Some PacketOverflow)] /\
  js_get (packets c') 0 = Some {| bytes := 12; packet := request; promise := 0 |} /\
  connected c' = false /\
  (true = true ->
   exists h1 h2, (0 <= h1 < h2)%nat /\
     intervals c' !! h1 = Some KeepAlive_scheduler /\
     intervals c' !! h2 = Some KeepAlive_scheduler /\
     keepAlive_timer c' = Some h2) /\
  (true = true ->
   exists h1 h2, (0 <= h1 < h2)%nat /\
     intervals c' !! h1 = Some Timeout_scheduler /\
     intervals c' !! h2 = Some Timeout_scheduler /\
     timeout_timer c' = Some h2).
Proof.
  refine (connect_twice_overflows crc32_ieee dgram_ok crc32_ieee_length
            (new_Connection true (lit "test") default_options) _ _ _ _ _ _);
    try reflexivity.
  apply reachable_new.
Defined.

Lemma message_acknowledged_witness :
  let c := example_connected in
  let msg := message_reply 5 (lit "hello") in
  let ack := sent_once_more (message_ack 5) in
  let datagram := frame crc32_ieee ([xff; x02; x05] ++ bytes_of "hello") in
  let c' := step crc32_ieee dgram_ok (Datagram datagram) c in
  (exists new,
     events c' = events c ++ new /\
     new ≡ₚ [Emit_message (Some (lit "hello")) msg;
             Emit_received msg datagram;
             Transmitted ack (frame crc32_ieee [xff; x02; x05]);
             Resolved 1
               {| response_command := None; response_data := None;
                  response_connected := None; response_bytes := 9;
                  response_sent := ack; response_received := None |}]) /\
  packets c' = packets c /\ info_connected c' = info_connected c /\
  info_sequence c' = info_sequence c /\ promises c' = 2%nat.
Proof.
  exact (message_acknowledged crc32_ieee dgram_ok crc32_ieee_length example_connected x05
           (bytes_of "hello") example_connected_reachable).
Defined.


Lemma second_connect_leaks_witness :
  let c' := steps crc32_ieee dgram_ok [Connect; Connect; Kill ServerDisconnect]
              (new_Connection true (lit "test") default_options) in
  connected c' = false /\ keepAlive_timer c' = None /\ timeout_timer c' = None /\
  intervals c' = <[1%nat := Timeout_scheduler]> (<[0%nat := KeepAlive_scheduler]> ∅) /\
  running KeepAlive_scheduler c' = true /\ running Timeout_scheduler c' = true.
Proof.
  refine (second_connect_leaks crc32_ieee dgram_ok crc32_ieee_length
            (new_Connection true (lit "test") default_options) ServerDisconnect
            _ _ _ _ _ _);
    try reflexivity.
  apply reachable_new.
Defined.

Lemma fragment_255_dropped_witness :
  let frag := fragment 255 2 1 (bytes_of "world") in
  let datagram := frame crc32_ieee ([xff; x01; xff; x00; x02; x01] ++ bytes_of "world") in
  recieve crc32_ieee dgram_ok frag example_busy
  = (Throw TypeError, with_lastPacket (Some frag) example_busy) /\
  step crc32_ieee dgram_ok (Datagram datagram) example_busy
  = with_event (Emit_received frag datagram) (with_lastPacket (Some frag) example_busy).
Proof.
  refine (fragment_255_dropped crc32_ieee dgram_ok crc32_ieee_length example_busy x02 x01
            (bytes_of "world") _).
  apply example_busy_reachable.
Defined.

(** ** Fragments on the wire *)

Section Fragments.

Variable crc32 : Buffer -> Buffer.
Variable dgram_send : nat -> Buffer -> option Error.
Hypothesis crc32_length : forall b, (4 <= length (crc32 b))%nat.

Lemma step_fragment (c : Connection) (s total index : Z) (bytes : Buffer) :
  0 <= s <= 255 -> 0 <= total <= 255 -> 0 <= index <= 255 ->
  let frag := fragment s total index bytes in
  let datagram := fragment_datagram crc32 s total index bytes in
  step crc32 dgram_send (Datagram datagram) c
  = flush (with_event (Emit_received frag datagram) (snd (recieve crc32 dgram_send frag c))).
Proof using crc32_length.
  intros Hs Ht Hi frag datagram.
  unfold step, run, Socket_receive, datagram, fragment_datagram.
  rewrite FROM_frame by (try apply crc32_length; simpl; lia).
  cbn [app]. rewrite FROM_payload_fragment.
  rewrite !byte_of_to_Z by done. fold frag.
  unfold mbind at 1, M_bind at 1, try_catch.
  unfold mbind at 1, M_bind at 1.
  destruct (recieve crc32 dgram_send frag c) as [[r|e] c']; done.
Qed.

Lemma resolve_error_pending (c : Connection) (st : IPacketPromise) (e : Error) (s : Z) :
  js_get (packets c) s = Some st ->
  let reason := error (attributes (packet st)) in
  resolve crc32 dgram_send (reply_with_error Command e s) c
  = (Ok true,
     with_packets (js_clear (packets c) s)
       (if bool_decide (promise st ∈ pings c)
        then with_microtask (Emit_error reason)
               (with_pings (pings c ∖ {[promise st]})
                  (with_event (Rejected (promise st) reason) c))
        else with_event (Rejected (promise st) reason) c)).
Proof using Type.
  intros Hst reason. unfold resolve.
  change (type (reply_with_error Command e s)) with Command. cbv iota.
  change (Packet_sequence (reply_with_error Command e s)) with s.
  change (error (attributes (reply_with_error Command e s))) with (Some e).
  change (data (attributes (reply_with_error Command e s))) with (@None jsstring).
  unfold mbind at 1, M_bind at 1, this. rewrite Hst.
  rewrite bool_decide_eq_true_2 by (by eexists).
  unfold mbind at 1, M_bind at 1. unfold mbind at 1, M_bind at 1.
  rewrite promise_reject_run. fold reason.
  by destruct (bool_decide (promise st ∈ pings c)).
Qed.


Lemma js_values_hole {T} (arr : JsArray T) :
  0 < arr_length arr -> js_get arr 0 = None ->
  exists rest, js_values arr = None :: rest.
Proof using Type.
  intros Hlen Hnone. unfold js_values. rewrite seqZ_cons by done.
  cbn [fmap list_fmap]. unfold js_get in Hnone. rewrite Hnone. by eexists.
Qed.

(** The fragment with the last index of a group of two or more, arriving
    first: the group is incomplete, and the request at its sequence, sent
    fewer than five times, is completed with an error reply. *)
Lemma recieve_incomplete (c : Connection) (st : IPacketPromise)
    (s tot idx : Z) (bytes : Buffer) :
  js_get (multipart c) s = Some (new_Array 0) ->
  js_get (packets c) s = Some st ->
  Packet_sent (packet st) < 5 ->
  2 <= tot -> idx + 1 = tot ->
  let frag := fragment s tot idx bytes in
  let reason := error (attributes (packet st)) in
  let c1 := reassembling c s (js_set (new_Array tot) idx frag) frag in
  recieve crc32 dgram_send frag c
  = (Ok true,
     with_packets (js_clear (packets c) s)
       (if bool_decide (promise st ∈ pings c)
        then with_microtask (Emit_error reason)
               (with_pings (pings c ∖ {[promise st]})
                  (with_event (Rejected (promise st) reason) c1))
        else with_event (Rejected (promise st) reason) c1)).
Proof using Type.
  intros Hslot Hst Hsent Htotal Hindex frag reason c1.
  unfold recieve.
  unfold mbind at 1, M_bind at 1, modify at 1.
  change (bool_decide (direction frag = Split)) with true. cbv iota.
  unfold mbind at 1, M_bind at 1, this.
  change (Packet_sequence frag) with s.
  change (multipart (with_lastPacket (Some frag) c)) with (multipart c).
  rewrite Hslot.
  change (arr_length (new_Array 0 : JsArray Packet) =? 0) with true. cbv iota.
  change (total (attributes frag)) with (Some tot).
  change (index (attributes frag)) with (Some idx).
  unfold Array_of_total. destruct (Z.ltb_spec tot 0) as [|_]; [lia|].
  unfold lift.
  unfold mbind at 1, M_bind at 1, mret at 1, M_ret at 1.
  unfold set_at_index.
  unfold mbind at 1, M_bind at 1, modify at 1.
  fold (reassembling c s (js_set (new_Array tot) idx frag) frag). fold c1.
  assert (Hlast : is_last_index frag = true).
  { unfold is_last_index. simpl. by apply Z.eqb_eq. }
  rewrite Hlast.
  destruct (js_values_hole (js_set (new_Array tot : JsArray Packet) idx frag))
    as [rest Hrest].
  { unfold js_set, js_extend. simpl.
    destruct (Z.leb_spec 0 idx), (Z.leb_spec tot idx); simpl; lia. }
  { rewrite js_get_set_ne by lia. done. }
  unfold mbind at 1, M_bind at 1, try_catch.
  unfold mbind at 1, M_bind at 1.
  rewrite Hrest. cbn [concat_parts lift].
  unfold mret at 1, M_ret at 1.
  unfold mbind at 1, M_bind at 1, this.
  change (packets c1) with (packets c).
  rewrite Hst.
  destruct (Z.leb_spec 5 (Packet_sent (packet st))) as [|_]; [lia|].
  unfold mbind at 1, M_bind at 1.
  rewrite (resolve_error_pending _ st) by done.
  reflexivity.
Qed.

(** X17. The last fragment of a group arriving first.  When the group of
    sequence [s] is empty and a request is pending at [s], a fragment with
    [index + 1 = total] and [total] at least 2 finds the other places of the
    group empty; the request, sent once, is not sent again: its promise is
    rejected, with [undefined] (the [error] attribute of the request), and its
    slot is freed, while the group keeps the fragment.  When the request is a
    ping of the keep-alive callback, its [catch] handler emits [error], with
    [undefined], after that. *)
Theorem incomplete_group_rejects (c : Connection) (st : IPacketPromise)
    (s tot idx : byte) (bytes : Buffer) :
  reachable crc32 dgram_send c ->
  js_get (multipart c) (byte_to_Z s) = Some (new_Array 0) ->
  js_get (packets c) (byte_to_Z s) = Some st ->
  2 <= byte_to_Z tot -> byte_to_Z idx + 1 = byte_to_Z tot ->
  let frag := fragment (byte_to_Z s) (byte_to_Z tot) (byte_to_Z idx) bytes in
  let datagram := frame crc32 ([xff; x01; s; x00; tot; idx] ++ bytes) in
  let c' := step crc32 dgram_send (Datagram datagram) c in
  events c'
  = events c ++ [Rejected (promise st) None; Emit_received frag datagram]
    ++ (if bool_decide (promise st ∈ pings c) then [Emit_error None] else []) /\
  js_get (packets c') (byte_to_Z s) = None /\
  js_get (multipart c') (byte_to_Z s)
  = Some (js_set (new_Array (byte_to_Z tot)) (byte_to_Z idx) frag).
Proof using crc32_length.
  intros Hreach Hslot Hst Htotal Hindex frag datagram c'.
  destruct (reachable_well_kept crc32 dgram_send c Hreach) as (Hpend & _).
  pose proof (reachable_quiet crc32 dgram_send c Hreach) as Hquiet.
  destruct (Hpend _ _ Hst) as [(_ & _ & _ & Hsent & Herr & _) _].
  pose proof (byte_to_Z_range s). pose proof (byte_to_Z_range tot).
  pose proof (byte_to_Z_range idx).
  assert (Hbytes : forall b : byte, byte_of_Z (byte_to_Z b) = b).
  { intros b. apply byte_to_Z_inj. rewrite byte_of_to_Z; [done|].
    pose proof (byte_to_Z_range b). lia. }
  assert (Hc' : c' = flush (with_event (Emit_received frag datagram)
                              (snd (recieve crc32 dgram_send frag c)))).
  { pose proof (step_fragment c (byte_to_Z s) (byte_to_Z tot) (byte_to_Z idx) bytes
                  ltac:(lia) ltac:(lia) ltac:(lia)) as Hstep.
    unfold fragment_datagram in Hstep. rewrite !Hbytes in Hstep. exact Hstep. }
  rewrite Hc'. clear Hc' c'.
  unfold frag. rewrite (recieve_incomplete c st) by (try done; unfold Packet_sent; rewrite Hsent; simpl; lia).
  fold frag. rewrite Herr. cbn [snd]. rewrite flush_events.
  destruct (bool_decide (promise st ∈ pings c)).
  - split; [simpl; by rewrite Hquiet, <- !app_assoc|].
    split; [apply js_get_clear_eq|].
    simpl. apply js_get_set.
  - split; [simpl; by rewrite Hquiet, <- !app_assoc|].
    split; [apply js_get_clear_eq|].
    simpl. apply js_get_set.
Qed.



End Fragments.

(** Instances, on the example runs. *)

Lemma incomplete_group_rejects_witness :
  let frag := fragment 3 2 1 (bytes_of "world") in
  let datagram := frame crc32_ieee ([xff; x01; x03; x00; x02; x01] ++ bytes_of "world") in
  let c' := step crc32_ieee dgram_ok (Datagram datagram) example_busy in
  events c' = events example_busy ++ [Rejected 4 None; Emit_received frag datagram] /\
  js_get (packets c') 3 = None /\
  js_get (multipart c') 3 = Some (js_set (new_Array 2) 1 frag).
Proof.
  refine (incomplete_group_rejects crc32_ieee dgram_ok crc32_ieee_length example_busy
            {| bytes := 16; promise := 4;
               packet := sent_once_more (command_request (lit "players") 3) |}
            x03 x02 x01 (bytes_of "world") _ _ _ _ _).
  - apply example_busy_reachable.
  - vm_compute. reflexivity.
  - vm_compute. reflexivity.
  - vm_compute. discriminate.
  - reflexivity.
Defined.


(** ** The earlier connection: [splice] on the pending table *)

Lemma omap_keys {A} (f : Z -> option A) (l : list Z) :
  (forall k, k ∈ (omap (λ k, (λ v, (k, v)) <$> f k) l).*1 -> k ∈ l /\ is_Some (f k)) /\
  (NoDup l -> NoDup (omap (λ k, (λ v, (k, v)) <$> f k) l).*1).
Proof.
  induction l as [|x l [IH1 IH2]]; [split; [by intros k ?%elem_of_nil|done]|].
  cbn [omap list_omap]. destruct (f x) as [v|] eqn:Hx; simpl.
  - split.
    + intros k [->|Hk]%elem_of_cons; [split; [left|by eexists]|].
      destruct (IH1 k Hk). split; [by right|done].
    + intros [Hx' Hl]%NoDup_cons. apply NoDup_cons. split; [|by apply IH2].
      intros Hin. by destruct (IH1 x Hin).
  - split.
    + intros k Hk. destruct (IH1 k Hk). split; [by right|done].
    + intros [_ Hl]%NoDup_cons. by apply IH2.
Qed.

Lemma js_splice_get {A} (arr : JsArray A) (start k : Z) :
  0 <= start < arr_length arr -> 0 <= k ->
  js_get (js_splice arr start) k
  = if k <? arr_length arr - 1
    then js_get arr (if k <? start then k else k + 1)
    else None.
Proof.
  intros Hstart Hk. unfold js_get, js_splice. cbv zeta. cbn [elements].
  destruct (Z.ltb_spec start 0) as [|_]; [lia|].
  rewrite Z.min_l by lia. rewrite Z.min_l by lia.
  set (from := λ k : Z, if k <? start then k else k + 1).
  set (moved := omap (λ k, (λ v, (k, v)) <$> elements arr !! from k)
                  (seqZ 0 (arr_length arr - 1))).
  assert (Hfilter : filter (λ kv : Z * A, kv.1 < 0) (elements arr) !! k = None).
  { apply map_lookup_filter_None. right. intros v _. simpl. lia. }
  rewrite lookup_union_r by done.
  destruct (omap_keys (λ k, elements arr !! from k) (seqZ 0 (arr_length arr - 1)))
    as [Hkeys Hnodup].
  specialize (Hnodup (NoDup_seqZ _ _)). fold moved in Hkeys, Hnodup.
  destruct (Z.ltb_spec k (arr_length arr - 1)) as [Hlt|Hge].
  - change ((list_to_map moved : gmap Z A) !! k = elements arr !! from k).
    destruct (elements arr !! from k) as [v|] eqn:Hv.
    + apply elem_of_list_to_map; [done|].
      apply list_elem_of_omap. exists k. split; [apply elem_of_seqZ; lia|].
      by rewrite Hv.
    + apply not_elem_of_list_to_map. intros Hin.
      destruct (Hkeys k Hin) as [_ [v Hv']]. congruence.
  - change ((list_to_map moved : gmap Z A) !! k = None).
    apply not_elem_of_list_to_map. intros Hin.
    destruct (Hkeys k Hin) as [Hin'%elem_of_seqZ _]. lia.
Qed.

(** X19. The earlier connection ([src/connection.ts]) frees a slot of the
    pending commands with [splice(sequence, 1)], which also moves every later
    entry one slot down.  After the reply to the command at [s] the table is one
    slot shorter and slot [k], from [s] on, holds what slot [k + 1] held.  So
    the command that was pending at [s + 1] is now at [s], and its own reply
    finds slot [s + 1] empty: nothing is resolved. *)
Theorem legacy_reply_shifts_pending (t : Legacy.Pending) (s : Z)
    (first : IPacketPromise) (d : jsstring) :
  let slots := Legacy.command_slots t in
  0 <= s < arr_length slots ->
  (forall k v, js_get slots k = Some v -> k < arr_length slots) ->
  js_get slots s = Some first ->
  let '(_, resolved, t') :=
    LegacyConnection.resolve_command (reply_with_data Command d s) t in
  let slots' := Legacy.command_slots t' in
  resolved = true /\
  arr_length slots' = arr_length slots - 1 /\
  (forall k, 0 <= k -> js_get slots' k = js_get slots (if k <? s then k else k + 1)) /\
  js_get slots' s = js_get slots (s + 1) /\
  (forall second d',
     js_get slots (s + 1) = Some second -> js_get slots (s + 2) = None ->
     LegacyConnection.resolve_command (reply_with_data Command d' (s + 1)) t'
     = ([Emit_command (Some d') false (reply_with_data Command d' (s + 1))], false, t')).
Proof.
  intros slots Hs Hlen Hfirst.
  unfold LegacyConnection.resolve_command.
  change (Packet_sequence (reply_with_data Command d s)) with s.
  fold slots. rewrite Hfirst. cbn [Legacy.command_slots].
  assert (Hget : forall k, 0 <= k ->
            js_get (js_splice slots s) k = js_get slots (if k <? s then k else k + 1)).
  { intros k Hk. rewrite js_splice_get by done.
    destruct (Z.ltb_spec k (arr_length slots - 1)) as [|Hge]; [done|].
    destruct (Z.ltb_spec k s); [lia|].
    destruct (js_get slots (k + 1)) as [v|] eqn:Hv; [|done].
    apply Hlen in Hv. lia. }
  split; [done|]. split.
  { unfold js_splice. cbv zeta. cbn [arr_length].
    destruct (Z.ltb_spec s 0); lia. }
  split; [exact Hget|]. split.
  { rewrite Hget by lia. destruct (Z.ltb_spec s s); [lia|done]. }
  intros second d' Hsecond Hthird.
  change (Packet_sequence (reply_with_data Command d' (s + 1))) with (s + 1).
  cbn [Legacy.command_slots]. rewrite Hget by lia.
  destruct (Z.ltb_spec (s + 1) s); [lia|].
  replace (s + 1 + 1) with (s + 2) by lia. by rewrite Hthird.
Qed.

(** An instance. *)

Lemma legacy_reply_shifts_pending_witness :
  let first := {| bytes := 16; promise := 1; packet := command_request (lit "players") 0 |} in
  let second := {| bytes := 13; promise := 2; packet := command_request (lit "bans") 1 |} in
  let t := {| Legacy.login_slot := None;
              Legacy.command_slots := js_set (js_set (new_Array 1) 0 first) 1 second |} in
  let slots := Legacy.command_slots t in
  let '(_, resolved, t') :=
    LegacyConnection.resolve_command (reply_with_data Command (lit "ok") 0) t in
  let slots' := Legacy.command_slots t' in
  resolved = true /\
  arr_length slots' = arr_length slots - 1 /\
  (forall k, 0 <= k -> js_get slots' k = js_get slots (if k <? 0 then k else k + 1)) /\
  js_get slots' 0 = js_get slots (0 + 1) /\
  (forall second d',
     js_get slots (0 + 1) = Some second -> js_get slots (0 + 2) = None ->
     LegacyConnection.resolve_command (reply_with_data Command d' (0 + 1)) t'
     = ([Emit_command (Some d') false (reply_with_data Command d' (0 + 1))], false, t')).
Proof.
  refine (legacy_reply_shifts_pending
            {| Legacy.login_slot := None;
               Legacy.command_slots :=
                 js_set (js_set (new_Array 1) 0
                           {| bytes := 16; promise := 1;
                              packet := command_request (lit "players") 0 |}) 1
                   {| bytes := 13; promise := 2;
                      packet := command_request (lit "bans") 1 |} |}
            0 {| bytes := 16; promise := 1; packet := command_request (lit "players") 0 |}
            (lit "ok") _ _ _).
  - vm_compute. split; [discriminate|reflexivity].
  - intros k v Hk. vm_compute.
    unfold js_get, js_set in Hk. simpl in Hk.
    apply lookup_insert_Some in Hk as [[<- _]|[_ Hk]]; [done|].
    apply lookup_insert_Some in Hk as [[<- _]|[_ Hk]]; [done|].
    by rewrite lookup_empty in Hk.
  - vm_compute. reflexivity.
Defined.
